(** * st_show.py: data preparation and bubble-chart encoding

    A shallow embedding of [load_data], [preprocess_data],
    [create_bubble_chart] and [main] (its period and entity selectors, its
    detail table and the order of what it shows) from [src/st_show.py],
    followed by the properties of the specification that are settled
    against it and by further properties of the code.

    Conventions of the embedding.
    - A Python [str] is the list of its Unicode code points, so that [len]
      and slicing count characters (the entity names are Chinese).
    - A pandas [float64] value is an element of a type [F] carrying the
      arithmetic the source uses (class [Arith]).  Two instances are given:
      [rational], exact arithmetic on fractions in lowest terms with one
      more element for NaN, and [float], the kernel's IEEE 754 binary64
      numbers.  NaN is pandas' missing-value marker in both.  Statements
      that are true of the program text whatever the arithmetic are proved
      for every instance; statements that depend on the laws of arithmetic
      are proved for [rational] and, where the rounding of binary64 decides
      them (the colour scale), for [float] from the specification of its
      operations; the numbers the specification quotes are evaluated in
      both.  The specification's records hold percentages and
      ratios, or nothing: [rational] has those values only, while binary64
      also has infinities and rounds.
    - A [DataFrame] is column-major, as in pandas; a column that the source
      tests with [in df.columns] is optional.
    - A Python exception is a value of [result]. *)

From Stdlib Require Import String Ascii DecimalString.
From Stdlib Require DecimalZ DecimalPos.
From Stdlib Require Import ZArith QArith Qabs Qpower Qround Lqa Lia Bool List Sorted.
From Stdlib Require Import Floats Uint63.
Import ListNotations.

Set Implicit Arguments.

(** ** Python strings *)

Definition char := N.
Definition str := list char.

(** An ASCII literal of the source as a [str]. *)
Definition lit (s : String.string) : str :=
  map Ascii.N_of_ascii (String.list_ascii_of_string s).
Arguments lit s%_string.

(** [str(n)] and [f'{n}'] for a Python [int]. *)
Definition dec_Z (z : Z) : str := lit (DecimalString.NilZero.string_of_int (Z.to_int z)).

(** The last [w] decimal digits of [n], zero padded. *)
Fixpoint pad_digits (w : nat) (n : Z) : str :=
  match w with
  | O => []
  | S w' => pad_digits w' (n / 10) ++ [Z.to_N (48 + n mod 10)]
  end.

Definition char_eqb : char -> char -> bool := N.eqb.

Fixpoint str_eqb (a b : str) : bool :=
  match a, b with
  | [], [] => true
  | x :: a', y :: b' => char_eqb x y && str_eqb a' b'
  | _, _ => false
  end.

(** [a < b] on [str]: lexicographic on code points. *)
Fixpoint str_ltb (a b : str) : bool :=
  match a, b with
  | _, [] => false
  | [], _ :: _ => true
  | x :: a', y :: b' =>
      if N.ltb x y then true else if N.ltb y x then false else str_ltb a' b'
  end.

(** [x in l] for a list of strings. *)
Definition str_in (x : str) (l : list str) : bool := existsb (str_eqb x) l.

(** ** Fixed-point formatting: [f'{x:.2f}']

    CPython prints the decimal expansion of the exact value of the float,
    correctly rounded (ties to even) to the requested number of places, and
    keeps the sign of a negative value that rounds to zero. *)

Definition round_half_even (q : Q) : Z :=
  let n := Qnum q in
  let d := Zpos (Qden q) in
  let fl := (n / d)%Z in
  match (2 * (n mod d) ?= d)%Z with
  | Lt => fl
  | Gt => (fl + 1)%Z
  | Eq => if Z.even fl then fl else (fl + 1)%Z
  end.

Definition fixed_digits (places : nat) (neg : bool) (mag : Q) : str :=
  let scale := (10 ^ Z.of_nat places)%Z in
  let n := round_half_even (mag * inject_Z scale) in
  (if neg then lit "-" else []) ++ dec_Z (n / scale)
  ++ match places with
     | O => []
     | _ => lit "." ++ pad_digits places (n mod scale)
     end.

(** ** Exceptions *)

Inductive exn := KeyError | ValueError | TypeError | IndexError | OverflowError.

Inductive result (A : Type) :=
| Ok (a : A)
| Raise (e : exn).
Arguments Ok {A} a.
Arguments Raise {A} e.

Definition bind {A B} (r : result A) (k : A -> result B) : result B :=
  match r with
  | Ok a => k a
  | Raise e => Raise e
  end.

Notation "x <- r ;; k" := (bind r (fun x => k))
  (at level 61, r at next level, right associativity).

Fixpoint mapM {A B} (f : A -> result B) (l : list A) : result (list B) :=
  match l with
  | [] => Ok []
  | a :: l' => b <- f a ;; bs <- mapM f l' ;; Ok (b :: bs)
  end.

(** ** float64 arithmetic *)

Class Arith (F : Type) := {
  fofZ : Z -> F;                 (* an integer literal used as a float *)
  fadd : F -> F -> F;
  fsub : F -> F -> F;
  fmul : F -> F -> F;
  fdiv : F -> F -> F;
  fabs : F -> F;
  fltb : F -> F -> bool;
  feqb : F -> F -> bool;
  fisnan : F -> bool;            (* pd.isna on a float *)
  fint : F -> result Z;          (* int(x): truncation; raises on nan and inf *)
  ffixed : nat -> F -> str;      (* f'{x:.<places>f}' *)
  fnan : F
}.

Declare Scope num_scope.
Delimit Scope num_scope with num.
Infix "+" := fadd : num_scope.
Infix "-" := fsub : num_scope.
Infix "*" := fmul : num_scope.
Infix "/" := fdiv : num_scope.
Infix "<?" := fltb : num_scope.
Infix "=?" := feqb : num_scope.

(** *** Exact rationals with NaN *)

Inductive rational :=
| Rat (q : Q)
| NaN.

Definition e_lift2 (f : Q -> Q -> Q) (a b : rational) : rational :=
  match a, b with
  | Rat x, Rat y => Rat (Qred (f x y))
  | _, _ => NaN
  end.

Definition e_div (a b : rational) : rational :=
  match a, b with
  | Rat x, Rat y => if Qeq_bool y 0 then NaN else Rat (Qred (x / y))
  | _, _ => NaN
  end.

Definition e_ltb (a b : rational) : bool :=
  match a, b with
  | Rat x, Rat y => match x ?= y with Lt => true | _ => false end
  | _, _ => false
  end.

Definition e_eqb (a b : rational) : bool :=
  match a, b with
  | Rat x, Rat y => Qeq_bool x y
  | _, _ => false
  end.

(** Truncation toward zero. *)
Definition Qtrunc (q : Q) : Z := Z.quot (Qnum q) (Zpos (Qden q)).

Definition e_int (a : rational) : result Z :=
  match a with
  | Rat x => Ok (Qtrunc x)
  | NaN => Raise ValueError
  end.

Definition Qnegative (q : Q) : bool :=
  match q ?= 0 with
  | Lt => true
  | _ => false
  end.

Definition e_fixed (places : nat) (a : rational) : str :=
  match a with
  | Rat x => fixed_digits places (Qnegative x) (Qabs x)
  | NaN => lit "nan"
  end.

#[export] Instance rational_arith : Arith rational := {
  fofZ z := Rat (inject_Z z);
  fadd := e_lift2 Qplus;
  fsub := e_lift2 Qminus;
  fmul := e_lift2 Qmult;
  fdiv := e_div;
  fabs a := match a with Rat x => Rat (Qabs x) | NaN => NaN end;
  fltb := e_ltb;
  feqb := e_eqb;
  fisnan a := match a with NaN => true | Rat _ => false end;
  fint := e_int;
  ffixed := e_fixed;
  fnan := NaN
}.

(** *** IEEE 754 binary64 *)

Definition b_ofZ (z : Z) : float :=
  if (z <? 0)%Z then PrimFloat.opp (of_uint63 (Uint63.of_Z (- z)))
  else of_uint63 (Uint63.of_Z z).

(** The exact value of a finite float with mantissa [m] and exponent [e]. *)
Definition SFmag (m : positive) (e : Z) : Q :=
  match e with
  | Z0 => Zpos m # 1
  | Zpos p => (Zpos m * 2 ^ Zpos p) # 1
  | Zneg p => Zpos m # (2 ^ p)
  end.

Definition b_int (x : float) : result Z :=
  match Prim2SF x with
  | S754_zero _ => Ok 0%Z
  | S754_finite s m e =>
      let t := Qtrunc (SFmag m e) in Ok (if s then (- t)%Z else t)
  | S754_infinity _ => Raise OverflowError
  | S754_nan => Raise ValueError
  end.

Definition b_fixed (places : nat) (x : float) : str :=
  match Prim2SF x with
  | S754_zero s => fixed_digits places s 0
  | S754_finite s m e => fixed_digits places s (SFmag m e)
  | S754_infinity s => if s then lit "-inf" else lit "inf"
  | S754_nan => lit "nan"
  end.

#[export] Instance binary64_arith : Arith float := {
  fofZ := b_ofZ;
  fadd := PrimFloat.add;
  fsub := PrimFloat.sub;
  fmul := PrimFloat.mul;
  fdiv := PrimFloat.div;
  fabs := PrimFloat.abs;
  fltb := PrimFloat.ltb;
  feqb := PrimFloat.eqb;
  fisnan := PrimFloat.is_nan;
  fint := b_int;
  ffixed := b_fixed;
  fnan := PrimFloat.nan
}.


(** ** pandas Series and DataFrame *)

(** Boolean-mask indexing, [series[mask]]. *)
Fixpoint select {A} (mask : list bool) (l : list A) : list A :=
  match mask, l with
  | b :: mask', a :: l' => if b then a :: select mask' l' else select mask' l'
  | _, _ => []
  end.

Section Frame.
Context {F : Type} {arith : Arith F}.
Local Open Scope num_scope.

(** A cell of an object column as [read_excel] delivers it: a number (NaN
    for a blank cell) or a text. *)
Inductive cell :=
| Num (x : F)
| Text (s : str).

Record DataFrame := mkDataFrame {
  stock_name : list str;                    (* 股票名称 *)
  report_period : option (list cell);       (* 报告期 *)
  npm_raw : option (list cell);             (* 销售净利率 *)
  roa_raw : option (list cell);             (* 总资产净利率 *)
  asset_turnover : option (list cell);      (* 总资产周转率 *)
  npm_value : option (list F);              (* 销售净利率_数值 *)
  roa_value : option (list F)               (* 总资产净利率_数值 *)
}.

(** Every column of a frame has one entry per row. *)
Definition has_len {A} (n : nat) (c : option (list A)) : Prop :=
  match c with
  | Some l => length l = n
  | None => True
  end.

Definition wf (df : DataFrame) : Prop :=
  let n := length (stock_name df) in
  has_len n (report_period df) /\ has_len n (npm_raw df)
  /\ has_len n (roa_raw df) /\ has_len n (asset_turnover df)
  /\ has_len n (npm_value df) /\ has_len n (roa_value df).

(** [df[mask]] *)
Definition select_rows (mask : list bool) (df : DataFrame) : DataFrame :=
  {| stock_name := select mask (stock_name df);
     report_period := option_map (select mask) (report_period df);
     npm_raw := option_map (select mask) (npm_raw df);
     roa_raw := option_map (select mask) (roa_raw df);
     asset_turnover := option_map (select mask) (asset_turnover df);
     npm_value := option_map (select mask) (npm_value df);
     roa_value := option_map (select mask) (roa_value df) |}.

(** [df.empty] *)
Definition empty (df : DataFrame) : bool :=
  match stock_name df with
  | [] => true
  | _ :: _ => false
  end.

Definition notna (x : F) : bool := negb (fisnan x).

Definition cell_notna (c : cell) : bool :=
  match c with
  | Num x => notna x
  | Text _ => true
  end.

(** [series.max()] and [series.min()], which skip NaN. *)
Definition series_max (l : list F) : F :=
  match filter notna l with
  | [] => fnan
  | x :: t => fold_left (fun m v => if m <? v then v else m) t x
  end.

Definition series_min (l : list F) : F :=
  match filter notna l with
  | [] => fnan
  | x :: t => fold_left (fun m v => if v <? m then v else m) t x
  end.

(** ** [preprocess_data] *)

Section Preprocess.
(** [pd.to_numeric(s, errors='coerce')] on a text: NaN when [s] does not
    parse.  [str(x)] on a number.  Both are pandas' own. *)
Variable parse_number : str -> F.
Variable repr_number : F -> str.

Definition to_numeric (c : cell) : F :=
  match c with
  | Num x => x
  | Text s => parse_number s
  end.

Definition astype_str (c : cell) : cell :=
  match c with
  | Num x => Text (repr_number x)
  | Text s => Text s
  end.

Definition set_npm_value (df : DataFrame) (c : list F) : DataFrame :=
  {| stock_name := stock_name df; report_period := report_period df;
     npm_raw := npm_raw df; roa_raw := roa_raw df;
     asset_turnover := asset_turnover df;
     npm_value := Some c; roa_value := roa_value df |}.

Definition set_roa_value (df : DataFrame) (c : list F) : DataFrame :=
  {| stock_name := stock_name df; report_period := report_period df;
     npm_raw := npm_raw df; roa_raw := roa_raw df;
     asset_turnover := asset_turnover df;
     npm_value := npm_value df; roa_value := Some c |}.

Definition set_asset_turnover (df : DataFrame) (c : list cell) : DataFrame :=
  {| stock_name := stock_name df; report_period := report_period df;
     npm_raw := npm_raw df; roa_raw := roa_raw df;
     asset_turnover := Some c;
     npm_value := npm_value df; roa_value := roa_value df |}.

Definition set_report_period (df : DataFrame) (c : list cell) : DataFrame :=
  {| stock_name := stock_name df; report_period := Some c;
     npm_raw := npm_raw df; roa_raw := roa_raw df;
     asset_turnover := asset_turnover df;
     npm_value := npm_value df; roa_value := roa_value df |}.

Definition preprocess_data (df : DataFrame) : DataFrame :=
  let df :=
    match npm_raw df with
    | Some c => set_npm_value df (map (fun v => to_numeric v / fofZ 100) c)
    | None => df
    end in
  let df :=
    match roa_raw df with
    | Some c => set_roa_value df (map (fun v => to_numeric v / fofZ 100) c)
    | None => df
    end in
  let df :=
    match asset_turnover df with
    | Some c => set_asset_turnover df (map (fun v => Num (to_numeric v)) c)
    | None => df
    end in
  let df :=
    match report_period df with
    | Some c => set_report_period df (map astype_str c)
    | None => df
    end in
  df.
End Preprocess.

(** ** [create_bubble_chart] *)

(** The data of the scatter trace and the title.  The hover template is a
    fixed text around [%{customdata}], which plotly replaces by the entry
    of [customdata]; the remaining layout is constant. *)
Record Figure := mkFigure {
  trace_x : list cell;
  trace_y : list F;
  marker_size : list F;
  marker_color : list str;
  marker_line_color : list str;
  trace_text : list str;
  textfont_size : list Z;
  customdata : list str;
  title_text : str
}.

(** [series == selected_period] on one cell. *)
Definition cell_eq_str (c : cell) (s : str) : bool :=
  match c with
  | Text t => str_eqb t s
  | Num _ => false
  end.

(** [df[cols]] fails on the first absent column. *)
Definition column {A} (c : option (list A)) : result (list A) :=
  match c with
  | Some l => Ok l
  | None => Raise KeyError
  end.

Definition filter_mask (period_col : list cell) (name_col : list str)
    (selected_period : str) (selected_stocks : list str) : list bool :=
  map (fun pn => cell_eq_str (fst pn) selected_period && str_in (snd pn) selected_stocks)
      (combine period_col name_col).

Definition dropna_mask (at_col : list cell) (npm_col roa_col : list F) : list bool :=
  map (fun t => cell_notna (fst (fst t)) && notna (snd (fst t)) && notna (snd t))
      (combine (combine at_col npm_col) roa_col).

Definition bubble_size (v : F) : F := fabs v * fofZ 500 + fofZ 20.

Definition rgba (r g b : Z) (a : str) : str :=
  lit "rgba(" ++ dec_Z r ++ lit "," ++ dec_Z g ++ lit "," ++ dec_Z b
  ++ lit "," ++ a ++ lit ")".

Definition norm_of (min_val val_range val : F) : F := (val - min_val) / val_range.

(** The three integer channels of one point. *)
Definition channels (norm : F) : result (Z * Z * Z) :=
  r <- fint (fofZ 0 + fofZ (255 - 0) * norm) ;;
  g <- fint (fofZ 102 + fofZ (60 - 102) * norm) ;;
  b <- fint (fofZ 255 + fofZ (60 - 255) * norm) ;;
  Ok (r, g, b).

Definition fill_color (c : Z * Z * Z) : str :=
  let '(r, g, b) := c in
  let a := fofZ 7 / fofZ 10 in
  rgba r g b (ffixed 2 a).

Definition edge_color (c : Z * Z * Z) : str :=
  let '(r, g, b) := c in
  rgba (Z.max (r - 40) 0) (Z.max (g - 40) 0) (Z.max (b - 40) 0) (lit "0.95").

(** One turn of the colour loop: the fill and the border colour. *)
Definition color_of (min_val val_range val : F) : result (str * str) :=
  if fisnan val then
    Ok (lit "rgba(200,200,200,0.6)", lit "rgba(120,120,120,1)")
  else
    c <- channels (norm_of min_val val_range val) ;;
    Ok (fill_color c, edge_color c).

(** One turn of the label loop: the label and its font size. *)
Definition label_of (size : F) (name : str) : str * Z :=
  if size <? fofZ 50 then
    (if (4 <? length name)%nat then firstn 3 name ++ lit "..." else name, 8%Z)
  else if size <? fofZ 80 then
    (if (6 <? length name)%nat then firstn 5 name ++ lit "..." else name, 10%Z)
  else
    (name, 12%Z).

(** [series.max() if not series.empty else 1], and likewise the minimum. *)
Definition max_val_of (roa_col : list F) : F :=
  match roa_col with
  | [] => fofZ 1
  | _ :: _ => series_max roa_col
  end.

Definition min_val_of (roa_col : list F) : F :=
  match roa_col with
  | [] => fofZ 0
  | _ :: _ => series_min roa_col
  end.

Definition val_range_of (max_val min_val : F) : F :=
  if negb (max_val =? min_val) then max_val - min_val else fofZ 1.

Definition chart_title : str :=
  [26381; 35013; 34892; 19994; 24635; 36164; 20135; 25910; 30410; 29575;
   20998; 26512; 32]%N.

Definition create_bubble_chart (df : DataFrame) (selected_period : str)
    (selected_stocks : list str) : result (option Figure) :=
  period_col <- column (report_period df) ;;
  let mask := filter_mask period_col (stock_name df) selected_period selected_stocks in
  let filtered_df := select_rows mask df in
  if empty filtered_df then Ok None else
  at_col <- column (asset_turnover filtered_df) ;;
  npm_col <- column (npm_value filtered_df) ;;
  roa_col <- column (roa_value filtered_df) ;;
  let filtered_df := select_rows (dropna_mask at_col npm_col roa_col) filtered_df in
  if empty filtered_df then Ok None else
  at_col <- column (asset_turnover filtered_df) ;;
  npm_col <- column (npm_value filtered_df) ;;
  roa_col <- column (roa_value filtered_df) ;;
  let bubble_sizes := map bubble_size roa_col in
  let max_val := max_val_of roa_col in
  let min_val := min_val_of roa_col in
  let val_range := val_range_of max_val min_val in
  cs <- mapM (color_of min_val val_range) roa_col ;;
  let labels := map (fun sn => label_of (fst sn) (snd sn))
                    (combine bubble_sizes (stock_name filtered_df)) in
  Ok (Some {| trace_x := at_col;
              trace_y := map (fun v => v * fofZ 100) npm_col;
              marker_size := bubble_sizes;
              marker_color := map fst cs;
              marker_line_color := map snd cs;
              trace_text := map fst labels;
              textfont_size := map snd labels;
              customdata := stock_name filtered_df;
              title_text := chart_title ++ selected_period |}).

(** ** [main]: the period selector *)

(** [series.unique()]: the distinct values in order of first appearance. *)
Fixpoint unique (l : list str) : list str :=
  match l with
  | [] => []
  | a :: l' => a :: filter (fun b => negb (str_eqb a b)) (unique l')
  end.

(** [sorted(l, reverse=True)] *)
Fixpoint insert_desc (a : str) (l : list str) : list str :=
  match l with
  | [] => [a]
  | b :: l' => if str_ltb a b then b :: insert_desc a l' else a :: l
  end.

Definition sorted_desc (l : list str) : list str := fold_right insert_desc [] l.

(** [periods.index(p)] for a [p] that occurs in [periods]. *)
Fixpoint index_of (p : str) (l : list str) : nat :=
  match l with
  | [] => O
  | a :: l' => if str_eqb a p then O else S (index_of p l')
  end.

(** [str(c)]: the text that [astype(str)] leaves in a cell. *)
Definition cell_text (repr_number : F -> str) (c : cell) : str :=
  match c with
  | Text s => s
  | Num v => repr_number v
  end.

Definition periods_of (repr_number : F -> str) (df : DataFrame) : result (list str) :=
  col <- column (report_period df) ;;
  Ok (sorted_desc (unique (map (cell_text repr_number) col))).

Definition default_period (periods : list str) : result str :=
  if str_in (lit "20241231") periods then Ok (lit "20241231")
  else match periods with
       | p :: _ => Ok p
       | [] => Raise IndexError
       end.

(** What the select box shows first: [periods[index]]. *)
Definition offered_period (periods : list str) : result str :=
  d <- default_period periods ;;
  let index := if str_in d periods then index_of d periods else O in
  match nth_error periods index with
  | Some p => Ok p
  | None => Raise IndexError
  end.

(** The start of [main]: preprocess the loaded table, list its periods and
    offer one. *)
Definition main_period (parse_number : str -> F) (repr_number : F -> str)
    (df : DataFrame) : result str :=
  let df := preprocess_data parse_number repr_number df in
  periods <- periods_of repr_number df ;;
  offered_period periods.

(** ** [main]: the detail table *)

Record DetailTable := mkDetailTable {
  detail_name : list str;
  detail_period : list cell;
  detail_npm : list str;
  detail_turnover : list str;
  detail_roa : list str
}.

Definition percent_display (v : F) : str :=
  if notna v then ffixed 2 (v * fofZ 100) ++ lit "%" else lit "N/A".

Definition ratio_display (c : cell) : result str :=
  match c with
  | Num v => Ok (if notna v then ffixed 3 v else lit "N/A")
  | Text _ => Raise ValueError
  end.

Definition detail_table (df : DataFrame) (selected_period : str)
    (selected_stocks : list str) : result (option DetailTable) :=
  period_col <- column (report_period df) ;;
  let mask := filter_mask period_col (stock_name df) selected_period selected_stocks in
  let filtered_data := select_rows mask df in
  if empty filtered_data then Ok None else
  period_col <- column (report_period filtered_data) ;;
  npm_col <- column (npm_value filtered_data) ;;
  at_col <- column (asset_turnover filtered_data) ;;
  roa_col <- column (roa_value filtered_data) ;;
  turnover <- mapM ratio_display at_col ;;
  Ok (Some {| detail_name := stock_name filtered_data;
              detail_period := period_col;
              detail_npm := map percent_display npm_col;
              detail_turnover := turnover;
              detail_roa := map percent_display roa_col |}).

(** ** The encoder row by row

    The specification describes the Chart Encoder on records: filter the
    rows on period and selection, drop the rows with a missing value,
    then map every remaining row to one point.  [encode] follows those
    words; it is compared with [create_bubble_chart] below. *)

Record Row := mkRow {
  entity_name : str;
  period : cell;
  turnover : cell;
  net_profit_margin : F;
  return_on_assets : F
}.

Fixpoint zip_rows (names : list str) (pc ac : list cell) (nc rc : list F) : list Row :=
  match names, pc, ac, nc, rc with
  | n :: names', p :: pc', a :: ac', v :: nc', w :: rc' =>
      mkRow n p a v w :: zip_rows names' pc' ac' nc' rc'
  | _, _, _, _, _ => []
  end.

(** The rows of a frame that has the five columns the encoder reads. *)
Definition rows_of (df : DataFrame) : result (list Row) :=
  pc <- column (report_period df) ;;
  ac <- column (asset_turnover df) ;;
  nc <- column (npm_value df) ;;
  rc <- column (roa_value df) ;;
  Ok (zip_rows (stock_name df) pc ac nc rc).

Definition matches (selected_period : str) (selected_stocks : list str) (r : Row) : bool :=
  cell_eq_str (period r) selected_period && str_in (entity_name r) selected_stocks.

Definition complete (r : Row) : bool :=
  cell_notna (turnover r) && notna (net_profit_margin r) && notna (return_on_assets r).

Definition surviving (selected_period : str) (selected_stocks : list str)
    (rs : list Row) : list Row :=
  filter complete (filter (matches selected_period selected_stocks) rs).

Definition diameter (r : Row) : F := bubble_size (return_on_assets r).

(** The minimum and the range the colour of every point is scaled by. *)
Definition scale_min (rs : list Row) : F := min_val_of (map return_on_assets rs).

Definition scale_range (rs : list Row) : F :=
  val_range_of (max_val_of (map return_on_assets rs)) (min_val_of (map return_on_assets rs)).

(** The normalized value of a row among the rows [rs]. *)
Definition normalized (rs : list Row) (r : Row) : F :=
  norm_of (scale_min rs) (scale_range rs) (return_on_assets r).

Definition encode (selected_period : str) (rs : list Row) : result (option Figure) :=
  match rs with
  | [] => Ok None
  | _ :: _ =>
      cs <- mapM (fun r => color_of (scale_min rs) (scale_range rs) (return_on_assets r)) rs ;;
      Ok (Some {| trace_x := map turnover rs;
                  trace_y := map (fun r => net_profit_margin r * fofZ 100) rs;
                  marker_size := map diameter rs;
                  marker_color := map fst cs;
                  marker_line_color := map snd cs;
                  trace_text := map (fun r => fst (label_of (diameter r) (entity_name r))) rs;
                  textfont_size := map (fun r => snd (label_of (diameter r) (entity_name r))) rs;
                  customdata := map entity_name rs;
                  title_text := chart_title ++ selected_period |})
  end.
End Frame.

Arguments DataFrame F : clear implicits.
Arguments Figure F : clear implicits.
Arguments cell F : clear implicits.
Arguments Row F : clear implicits.

(** ** [load_data] and [main]: one run of the page

    Streamlit runs [main] from top to bottom on every interaction.  A run
    is modelled by what it puts on the page, in order, and by how it ends:
    at the end of [main], at [st.stop()], or with an exception that nothing
    catches.  [read_excel] is what [pd.read_excel] delivers, [None] when it
    raises; a [Session] holds what the user chose in the two sidebar
    widgets, [None] for a widget that was not touched, which then returns
    its default.  The entity names are texts, as in [DataFrame].  A plotly
    figure counts as true in a condition, so [if fig:] tests whether
    [create_bubble_chart] returned a figure. *)

Section Main.
Context {F : Type} {arith : Arith F}.
Variable parse_number : str -> F.
Variable repr_number : F -> str.

(** [sorted(l)] *)
Fixpoint insert_asc (a : str) (l : list str) : list str :=
  match l with
  | [] => [a]
  | b :: l' => if str_ltb a b then a :: l else b :: insert_asc a l'
  end.

Definition sorted_asc (l : list str) : list str := fold_right insert_asc [] l.

(** The orders of the two option lists: each entry before every smaller
    (larger) one in code-point order. *)
Definition descending (a b : str) : Prop := str_ltb b a = true.
Definition ascending (a b : str) : Prop := str_ltb a b = true.

(** [sorted(df['股票名称'].unique())] *)
Definition stocks_of (df : DataFrame F) : list str :=
  sorted_asc (unique (stock_name df)).

Definition select_one_stock : str :=       (* 请至少选择一只股票 *)
  [35831; 33267; 23569; 36873; 25321; 19968; 21482; 32929; 31080]%N.

Definition nothing_to_show : str :=        (* 没有可显示的数据 *)
  [27809; 26377; 21487; 26174; 31034; 30340; 25968; 25454]%N.

Definition no_matching_rows : str :=       (* 没有符合条件的数据 *)
  [27809; 26377; 31526; 21512; 26465; 20214; 30340; 25968; 25454]%N.

Inductive element :=
| Title                              (* st.markdown("<h1>...</h1>") *)
| LoadFailed                         (* st.error(f"数据加载失败: {e}") *)
| SidebarHeading                     (* st.sidebar.markdown("数据筛选") *)
| Warning (text : str)               (* st.warning(text) *)
| PlotlyChart (fig : Figure F)       (* st.plotly_chart(fig) *)
| TableHeading                       (* st.markdown("<h3 ...>详细数据</h3>") *)
| DataTable (t : @DetailTable F).    (* st.dataframe(final_display...) *)

Inductive flow (A : Type) :=
| Next (a : A)
| Stop
| Fail (e : exn).
Arguments Next {A} a.
Arguments Stop {A}.
Arguments Fail {A} e.

(** The elements shown so far and how to go on. *)
Definition script (A : Type) : Type := list element * flow A.

Definition and_then {A B} (m : script A) (k : A -> script B) : script B :=
  match m with
  | (shown, Next a) => let (more, r) := k a in (shown ++ more, r)
  | (shown, Stop) => (shown, Stop)
  | (shown, Fail e) => (shown, Fail e)
  end.

Notation "x <~ m ;; k" := (and_then m (fun x => k))
  (at level 61, m at next level, right associativity).

Definition show (e : element) : script unit := ([e], Next tt).

Definition st_stop {A} : script A := ([], Stop).

Definition run {A} (r : result A) : script A :=
  match r with
  | Ok a => ([], Next a)
  | Raise e => ([], Fail e)
  end.

Definition load_data (read_excel : option (DataFrame F)) : script (option (DataFrame F)) :=
  match read_excel with
  | Some df => ([], Next (Some df))
  | None => ([LoadFailed], Next None)
  end.

Record Session := mkSession {
  chosen_period : option str;
  chosen_stocks : option (list str)
}.

Definition main (read_excel : option (DataFrame F)) (session : Session) : script unit :=
  u <~ show Title ;;
  loaded <~ load_data read_excel ;;
  match loaded with
  | None => st_stop
  | Some df =>
      let df := preprocess_data parse_number repr_number df in
      u <~ show SidebarHeading ;;
      periods <~ run (periods_of repr_number df) ;;
      offered <~ run (offered_period periods) ;;
      let selected_period :=
        match chosen_period session with Some p => p | None => offered end in
      let stocks := stocks_of df in
      let selected_stocks :=
        match chosen_stocks session with Some l => l | None => stocks end in
      match selected_stocks with
      | [] => u <~ show (Warning select_one_stock) ;; st_stop
      | _ :: _ =>
          fig <~ run (create_bubble_chart df selected_period selected_stocks) ;;
          u <~ show (match fig with
                     | Some fig => PlotlyChart fig
                     | None => Warning nothing_to_show
                     end) ;;
          u <~ show TableHeading ;;
          table <~ run (detail_table df selected_period selected_stocks) ;;
          show (match table with
                | Some t => DataTable t
                | None => Warning no_matching_rows
                end)
      end
  end.

(** What [main] shows for the result of [create_bubble_chart] and for the
    filtered table. *)
Definition chart_element (fig : option (Figure F)) : element :=
  match fig with
  | Some fig => PlotlyChart fig
  | None => Warning nothing_to_show
  end.

Definition table_element (t : option (@DetailTable F)) : element :=
  match t with
  | Some t => DataTable t
  | None => Warning no_matching_rows
  end.
End Main.

Arguments element F : clear implicits.
Arguments Next {A} a.
Arguments Stop {A}.
Arguments Fail {A} e.

(** ** The derived fraction columns as the specification states them

    A raw cell holds no number when it is blank (NaN) or a text that does
    not parse; the derived column has one value per raw cell, the number
    of the cell divided by 100, missing exactly when the cell holds no
    number. *)
Definition no_number {F : Type} {arith : Arith F} (parse_number : str -> F)
    (c : cell F) : Prop :=
  match c with
  | Num v => fisnan v = true
  | Text t => fisnan (parse_number t) = true
  end.

Definition derives_fraction {F : Type} {arith : Arith F} (parse_number : str -> F)
    (raw : list (cell F)) (derived : list F) : Prop :=
  length derived = length raw
  /\ forall (i : nat) (c : cell F), nth_error raw i = Some c ->
       exists v : F,
         nth_error derived i = Some v
         /\ v = fdiv (to_numeric parse_number c) (fofZ 100)
         /\ (fisnan v = true <-> no_number parse_number c).

(** ** The colour formulas as the specification states them

    [r = 255 t], [g = 102 - 42 t], [b = 255 - 195 t], each truncated to an
    integer, for a normalized value [t]. *)
Definition spec_channels (t : Q) : Z * Z * Z :=
  (Qtrunc (255 * t), Qtrunc (102 - 42 * t), Qtrunc (255 - 195 * t)).

Definition in_byte (c : Z) : Prop := (0 <= c <= 255)%Z.

(** Reading a decimal numeral, with the standard library's reader: the
    number a text such as "127" or "-3" denotes. *)
Definition read_int (s : str) : option Z :=
  option_map Z.of_int
    (DecimalString.NilZero.int_of_string
       (String.string_of_list_ascii (map Ascii.ascii_of_N s))).

(** ** Fixed-point notation as the specification states it

    [s] writes a number of magnitude [mag], negative when [neg], with
    exactly [places] decimals: an optional minus sign, the integer part, a
    point and [places] digits, which together spell the integer [n] nearest
    to mag * 10^places. *)
Definition is_digit (c : char) : Prop := (48 <= c <= 57)%N.

Definition fixed_point_string (places : nat) (neg : bool) (mag : Q) (s : str) : Prop :=
  exists (n : Z) (frac : str),
    (0 <= n)%Z
    /\ (Qabs (inject_Z n - mag * inject_Z (10 ^ Z.of_nat places)) <= 1 # 2)%Q
    /\ length frac = places
    /\ Forall is_digit frac
    /\ frac = pad_digits places (n mod 10 ^ Z.of_nat places)
    /\ s = (if neg then lit "-" else [])
           ++ dec_Z (n / 10 ^ Z.of_nat places) ++ lit "." ++ frac.

(** ** Tables used to exercise the embedding *)

Section Scenarios.
Context {F : Type} {arith : Arith F}.

(** Stand-ins for pandas' parser and printer: the first reads an unsigned
    decimal integer and yields NaN on any other text, the second prints the
    integer part of a number. *)
Fixpoint digits_value (acc : Z) (s : str) : option Z :=
  match s with
  | [] => Some acc
  | c :: s' =>
      if (N.leb 48 c && N.leb c 57)%bool
      then digits_value (10 * acc + (Z.of_N c - 48)) s'
      else None
  end.

Definition parse_digits (s : str) : F :=
  match s with
  | [] => fnan
  | _ :: _ => match digits_value 0 s with
              | Some z => fofZ z
              | None => fnan
              end
  end.

Definition repr_int (v : F) : str :=
  match fint v with
  | Ok z => dec_Z z
  | Raise _ => lit "nan"
  end.

Definition name_A : str := lit "A".
Definition name_B : str := lit "B".
Definition name_C : str := lit "C".
Definition name_D : str := lit "D".
Definition name_E : str := lit "E".
Definition all_names : list str := [name_A; name_B; name_C; name_D; name_E].
Definition period_P1 : str := lit "P1".
Definition period_P2 : str := lit "P2".

(** Three entities in period P1 whose return on assets is 1%, 5% and 9%. *)
Definition scenario_raw : DataFrame F :=
  {| stock_name := [name_A; name_B; name_C];
     report_period := Some [Text period_P1; Text period_P1; Text period_P1];
     npm_raw := Some [Num (fofZ 10); Num (fofZ 20); Num (fofZ 30)];
     roa_raw := Some [Num (fofZ 1); Num (fofZ 5); Num (fofZ 9)];
     asset_turnover := Some [Num (fofZ 1); Num (fofZ 2); Num (fofZ 3)];
     npm_value := None;
     roa_value := None |}.

Definition scenario_frame : DataFrame F :=
  preprocess_data parse_digits repr_int scenario_raw.

(** Five rows: a complete one, one without asset turnover, one whose margin
    is a text that does not parse, one of another period, and a complete
    one with a negative return. *)
Definition mixed_raw : DataFrame F :=
  {| stock_name := [name_A; name_B; name_C; name_D; name_E];
     report_period := Some [Text period_P1; Text period_P1; Text period_P1;
                            Text period_P2; Text period_P1];
     npm_raw := Some [Text (lit "12"); Num (fofZ 20); Text (lit "--");
                      Num (fofZ 5); Num (fofZ (-3))];
     roa_raw := Some [Num (fofZ 4); Num (fofZ 5); Num (fofZ 6); Num (fofZ 7);
                      Num (fofZ (-2))];
     asset_turnover := Some [Num (fofZ 1); Num fnan; Num (fofZ 3); Num (fofZ 2);
                             Num (fdiv (fofZ 1) (fofZ 2))];
     npm_value := None;
     roa_value := None |}.

Definition mixed_frame : DataFrame F :=
  preprocess_data parse_digits repr_int mixed_raw.

(** Two reporting periods, stored as integers, the later one after the
    period that [main] prefers. *)
Definition recent_raw : DataFrame F :=
  {| stock_name := [name_A; name_A; name_B];
     report_period := Some [Num (fofZ 20241231); Num (fofZ 20250331); Num (fofZ 20241231)];
     npm_raw := Some [Num (fofZ 10); Num (fofZ 11); Num (fofZ 12)];
     roa_raw := Some [Num (fofZ 1); Num (fofZ 2); Num (fofZ 3)];
     asset_turnover := Some [Num (fofZ 1); Num (fofZ 1); Num (fofZ 1)];
     npm_value := None;
     roa_value := None |}.

Definition recent_frame : DataFrame F :=
  preprocess_data parse_digits repr_int recent_raw.
End Scenarios.

(** One row whose return on assets is the binary64 infinity, which pandas
    does not count as missing. *)
Definition infinite_frame : DataFrame float :=
  {| stock_name := [name_A];
     report_period := Some [Text period_P1];
     npm_raw := None;
     roa_raw := None;
     asset_turnover := Some [Num (fofZ 1)];
     npm_value := Some [fdiv (fofZ 1) (fofZ 10)];
     roa_value := Some [PrimFloat.infinity] |}.

(** The normalized values and the chart of the three-entity scenario. *)
Definition scenario_normalized {F : Type} {arith : Arith F} : list F :=
  match rows_of scenario_frame with
  | Ok rs =>
      let sv := surviving period_P1 all_names rs in
      map (normalized sv) sv
  | Raise _ => []
  end.

Definition scenario_chart {F : Type} {arith : Arith F} : result (option (Figure F)) :=
  create_bubble_chart scenario_frame period_P1 all_names.

(** The rows and the chart of [mixed_frame] in exact arithmetic. *)
Definition mixed_rows : list (Row rational) :=
  Eval vm_compute in
    match rows_of mixed_frame with
    | Ok rs => rs
    | Raise _ => []
    end.

Definition mixed_figure : option (Figure rational) :=
  Eval vm_compute in
    match create_bubble_chart mixed_frame period_P1 all_names with
    | Ok fig => fig
    | Raise _ => None
    end.

Definition mixed_detail : option DetailTable :=
  Eval vm_compute in
    match detail_table (mixed_frame (F := rational)) period_P1 all_names with
    | Ok t => t
    | Raise _ => None
    end.

Definition scenario_rows : list (Row rational) :=
  Eval vm_compute in
    match rows_of scenario_frame with
    | Ok rs => rs
    | Raise _ => []
    end.

Definition scenario_figure : option (Figure rational) :=
  Eval vm_compute in
    match create_bubble_chart scenario_frame period_P1 all_names with
    | Ok fig => fig
    | Raise _ => None
    end.

(** ** The value of a binary64 number and the rounding of a rational

    What the properties of the colour scale need of IEEE 754: the rational
    value of a finite number, the order of the numbers, and what it means
    that a result is the exact result rounded to nearest, ties to even.
    The operations themselves are the kernel's, specified by [SFadd],
    [SFsub], [SFmul] and [SFdiv]. *)

Section FloatValue.
Local Open Scope Q_scope.

(** Powers of two, of any integer exponent. *)
Definition pow2 (e : Z) : Q := (2 ^ e)%Q.

(** The value of a finite number; 0 for the others. *)
Definition SF2Q (f : spec_float) : Q :=
  match f with
  | S754_finite s m e => if s then - SFmag m e else SFmag m e
  | _ => 0
  end.

Definition finite_or_zero (f : spec_float) : bool :=
  match f with
  | S754_zero _ | S754_finite _ _ _ => true
  | _ => false
  end.

(** The same with the infinities put beyond every finite value. *)
Definition SFkey (f : spec_float) : Q :=
  match f with
  | S754_infinity s => if s then - pow2 1024 else pow2 1024
  | _ => SF2Q f
  end.

(** The place of a binary64 number in the order; the infinities lie beyond
    every finite value. *)
Definition float_key (x : float) : Q := SFkey (Prim2SF x).

(** [x] lies in [m, m+1) at the place the location [l] names. *)
Definition inbetween (m : Z) (l : location) (x : Q) : Prop :=
  match l with
  | loc_Exact => x == inject_Z m
  | loc_Inexact Lt => inject_Z m < x /\ x < inject_Z m + (1 # 2)
  | loc_Inexact Eq => x == inject_Z m + (1 # 2)
  | loc_Inexact Gt => inject_Z m + (1 # 2) < x /\ x < inject_Z m + 1
  end.

(** [c] is the exponent binary64 gives the last place of [x > 0]. *)
Definition cexp_ok (c : Z) (x : Q) : Prop :=
  (-1074 <= c)%Z /\ x < pow2 (c + 53) /\ ((-1074 < c)%Z -> pow2 (c + 53 - 1) <= x).

(** [x > 0] rounded to the nearest multiple of [2^c], ties to even. *)
Definition rounded (c : Z) (x : Q) : Q := inject_Z (round_half_even (x / pow2 c)) * pow2 c.

(** [r] is [x] rounded to binary64 (when that is finite). *)
Definition rounds_to (x r : Q) : Prop :=
  (x == 0 /\ r == 0)
  \/ (0 < x /\ exists c : Z, cexp_ok c x /\ r == rounded c x)
  \/ (x < 0 /\ exists c : Z, cexp_ok c (- x) /\ r == - rounded c (- x)).

(** The rational value of a binary64 number (0 for NaN and the infinities). *)
Definition float_val (x : float) : Q := SF2Q (Prim2SF x).

Definition is_finite (x : float) : bool := finite_or_zero (Prim2SF x).
End FloatValue.

(** The rows and the charts of the two example tables in binary64. *)
Definition mixed_rows_binary64 : list (Row float) :=
  Eval vm_compute in
    match rows_of mixed_frame with
    | Ok rs => rs
    | Raise _ => []
    end.

Definition mixed_figure_binary64 : option (Figure float) :=
  Eval vm_compute in
    match create_bubble_chart mixed_frame period_P1 all_names with
    | Ok fig => fig
    | Raise _ => None
    end.

Definition scenario_rows_binary64 : list (Row float) :=
  Eval vm_compute in
    match rows_of scenario_frame with
    | Ok rs => rs
    | Raise _ => []
    end.

Definition scenario_figure_binary64 : option (Figure float) :=
  Eval vm_compute in
    match create_bubble_chart scenario_frame period_P1 all_names with
    | Ok fig => fig
    | Raise _ => None
    end.

(** * Properties *)

(** ** Lists, masks and the error monad *)

Section ListFacts.
Context {A B C : Type}.

Lemma select_map (f : A -> bool) (g : A -> B) (l : list A) :
  select (map f l) (map g l) = map g (filter f l).
Proof.
  induction l as [|a l IH]; simpl; [reflexivity|].
  destruct (f a); simpl; now rewrite IH.
Qed.

Lemma combine_map (f : A -> B) (g : A -> C) (l : list A) :
  combine (map f l) (map g l) = map (fun a => (f a, g a)) l.
Proof.
  induction l as [|a l IH]; simpl; [reflexivity|]. now rewrite IH.
Qed.

Lemma mapM_map (f : B -> result C) (g : A -> B) (l : list A) :
  mapM f (map g l) = mapM (fun a => f (g a)) l.
Proof.
  induction l as [|a l IH]; simpl; [reflexivity|]. now rewrite IH.
Qed.

Lemma mapM_length (f : A -> result B) (l : list A) (bs : list B) :
  mapM f l = Ok bs -> length bs = length l.
Proof.
  revert bs. induction l as [|a l IH]; simpl; intros bs E.
  - now inversion E.
  - destruct (f a) as [b|e]; simpl in E; [|discriminate].
    destruct (mapM f l) as [bs'|e]; simpl in E; [|discriminate].
    inversion E; subst. simpl. now rewrite (IH bs').
Qed.

Lemma mapM_nth (f : A -> result B) (l : list A) (bs : list B) (i : nat) (a : A) :
  mapM f l = Ok bs -> nth_error l i = Some a ->
  exists b, f a = Ok b /\ nth_error bs i = Some b.
Proof.
  revert bs i. induction l as [|a0 l IH]; simpl; intros bs i E Hi.
  - destruct i; discriminate.
  - destruct (f a0) as [b0|e] eqn:E0; simpl in E; [|discriminate].
    destruct (mapM f l) as [bs'|e]; simpl in E; [|discriminate].
    inversion E; subst. destruct i as [|i]; simpl in *.
    + inversion Hi; subst. now exists b0.
    + now apply IH.
Qed.

Lemma mapM_total (f : A -> result B) (l : list A) :
  (forall a, In a l -> exists b, f a = Ok b) -> exists bs, mapM f l = Ok bs.
Proof.
  induction l as [|a l IH]; simpl; intros Hf.
  - now exists [].
  - destruct (Hf a (or_introl eq_refl)) as [b Eb].
    destruct IH as [bs Ebs]; [intros; apply Hf; now right|].
    exists (b :: bs). now rewrite Eb, Ebs.
Qed.
End ListFacts.

(** ** The encoder and its row by row description agree *)

Section Refinement.
Context {F : Type} {arith : Arith F}.

Lemma zip_rows_columns (names : list str) (pc ac : list (cell F)) (nc rc : list F) :
  length pc = length names -> length ac = length names ->
  length nc = length names -> length rc = length names ->
  let rs := zip_rows names pc ac nc rc in
  names = map entity_name rs /\ pc = map period rs /\ ac = map turnover rs
  /\ nc = map net_profit_margin rs /\ rc = map return_on_assets rs.
Proof.
  revert pc ac nc rc.
  induction names as [|n names IH]; intros [|p pc] [|a ac] [|v nc] [|w rc];
    simpl; try discriminate; intros H1 H2 H3 H4.
  - repeat split.
  - destruct (IH pc ac nc rc) as (E1 & E2 & E3 & E4 & E5); try lia.
    repeat split; f_equal; assumption.
Qed.

(** A frame whose columns are the fields of a list of rows. *)
Lemma frame_of_rows (df : DataFrame F) (rs : list (Row F)) :
  wf df -> rows_of df = Ok rs ->
  stock_name df = map entity_name rs
  /\ report_period df = Some (map period rs)
  /\ asset_turnover df = Some (map turnover rs)
  /\ npm_value df = Some (map net_profit_margin rs)
  /\ roa_value df = Some (map return_on_assets rs).
Proof.
  unfold wf, rows_of. intros (H1 & _ & _ & H2 & H3 & H4) E.
  destruct (report_period df) as [pc|]; [|discriminate].
  destruct (asset_turnover df) as [ac|]; [|discriminate].
  destruct (npm_value df) as [nc|]; [|discriminate].
  destruct (roa_value df) as [rc|]; [|discriminate].
  simpl in *. inversion E; subst; clear E.
  destruct (zip_rows_columns (stock_name df) pc ac nc rc H1 H2 H3 H4)
    as (E1 & E2 & E3 & E4 & E5).
  repeat split; try assumption; f_equal; assumption.
Qed.

Lemma filter_mask_rows (rs : list (Row F)) (p : str) (s : list str) :
  filter_mask (map period rs) (map entity_name rs) p s = map (matches p s) rs.
Proof. unfold filter_mask. rewrite combine_map, map_map. reflexivity. Qed.

Lemma dropna_mask_rows (rs : list (Row F)) :
  dropna_mask (map turnover rs) (map net_profit_margin rs) (map return_on_assets rs)
  = map complete rs.
Proof.
  unfold dropna_mask. rewrite combine_map.
  rewrite (combine_map (fun r => (turnover r, net_profit_margin r)) return_on_assets).
  rewrite map_map. reflexivity.
Qed.

(** [create_bubble_chart] computes [encode] of the surviving rows. *)
Theorem create_bubble_chart_encode (df : DataFrame F) (rs : list (Row F))
    (p : str) (s : list str) :
  wf df -> rows_of df = Ok rs ->
  create_bubble_chart df p s = encode p (surviving p s rs).
Proof.
  intros Hwf Hrows.
  destruct (frame_of_rows Hwf Hrows) as (En & Ep & Ea & Ev & Er).
  clear Hwf Hrows. destruct df as [names pc rn rr ac nc rc].
  cbn [stock_name report_period asset_turnover npm_value roa_value] in *. subst.
  unfold create_bubble_chart, surviving, select_rows, empty.
  cbn [stock_name report_period asset_turnover npm_value roa_value column bind option_map].
  rewrite filter_mask_rows, !select_map.
  set (ms := filter (matches p s) rs).
  destruct (map entity_name ms) eqn:Ems.
  { destruct ms; [reflexivity | discriminate]. }
  rewrite <- Ems. cbn [column bind].
  rewrite dropna_mask_rows, !select_map.
  set (sv := filter complete ms).
  destruct (map entity_name sv) eqn:Esv.
  { destruct sv; [reflexivity | discriminate]. }
  rewrite <- Esv. cbn [column bind].
  unfold encode. destruct sv as [|v sv'] eqn:Esv'; [discriminate|].
  rewrite <- Esv'.
  rewrite mapM_map, !map_map, combine_map, !map_map.
  unfold scale_min, scale_range, diameter. cbn [fst snd]. reflexivity.
Qed.
End Refinement.

(** ** [preprocess_data] *)

Section PreprocessFacts.
Context {F : Type} {arith : Arith F}.
Variable parse_number : str -> F.
Variable repr_number : F -> str.

Local Abbreviation to_num := (to_numeric parse_number).
Local Abbreviation as_str := (astype_str repr_number).
Local Abbreviation prep := (preprocess_data parse_number repr_number).

Lemma to_numeric_Num (c : cell F) : to_num (Num (to_num c)) = to_num c.
Proof. reflexivity. Qed.

Lemma astype_str_idem (c : cell F) : as_str (as_str c) = as_str c.
Proof. now destruct c. Qed.

Lemma map_astype_str_idem (l : list (cell F)) :
  map as_str (map as_str l) = map as_str l.
Proof. rewrite map_map. apply map_ext. intros c. apply astype_str_idem. Qed.

Lemma map_to_numeric_idem (l : list (cell F)) :
  map (fun c => Num (to_num c)) (map (fun c => Num (to_num c)) l)
  = map (fun c => Num (to_num c)) l.
Proof. rewrite map_map. reflexivity. Qed.

Lemma preprocess_data_twice (df : DataFrame F) :
  prep (prep df) = prep df.
Proof.
  destruct df as [names [pc|] [rn|] [rr|] [ac|] nv rv];
    cbv [preprocess_data set_npm_value set_roa_value set_asset_turnover
         set_report_period stock_name report_period npm_raw roa_raw asset_turnover
         npm_value roa_value];
    rewrite ?map_astype_str_idem, ?map_to_numeric_idem; reflexivity.
Qed.

Lemma preprocess_data_columns (df : DataFrame F) :
  let df' := prep df in
  stock_name df' = stock_name df
  /\ npm_raw df' = npm_raw df
  /\ roa_raw df' = roa_raw df
  /\ report_period df' = option_map (map as_str) (report_period df)
  /\ asset_turnover df'
     = option_map (map (fun c => Num (to_num c))) (asset_turnover df)
  /\ npm_value df'
     = match npm_raw df with
       | Some c => Some (map (fun v => fdiv (to_num v) (fofZ 100)) c)
       | None => npm_value df
       end
  /\ roa_value df'
     = match roa_raw df with
       | Some c => Some (map (fun v => fdiv (to_num v) (fofZ 100)) c)
       | None => roa_value df
       end.
Proof.
  destruct df as [names [pc|] [rn|] [rr|] [ac|] nv rv]; cbv zeta;
    unfold prep; simpl; repeat split; reflexivity.
Qed.

Lemma preprocess_data_wf (df : DataFrame F) : wf df -> wf (prep df).
Proof.
  destruct (preprocess_data_columns df) as (E1 & E2 & E3 & E4 & E5 & E6 & E7).
  unfold wf. rewrite E1, E2, E3, E4, E5, E6, E7.
  intros (H1 & H2 & H3 & H4 & H5 & H6).
  destruct (report_period df), (npm_raw df), (roa_raw df), (asset_turnover df);
    simpl in *; rewrite ?length_map; repeat split; assumption.
Qed.
(** A frame with the five columns of the dataset is, once preprocessed, a
    frame the encoder can read. *)
Lemma preprocess_data_rows (df : DataFrame F) (pc rn rr ac : list (cell F)) :
  report_period df = Some pc -> npm_raw df = Some rn -> roa_raw df = Some rr ->
  asset_turnover df = Some ac ->
  exists rs : list (Row F), rows_of (prep df) = Ok rs.
Proof.
  intros Hp Hn Hr Ha.
  destruct (preprocess_data_columns df) as (_ & _ & _ & E4 & E5 & E6 & E7).
  unfold rows_of. rewrite E4, E5, E6, E7, Hp, Hn, Hr, Ha. cbn [option_map column bind].
  eexists. reflexivity.
Qed.
End PreprocessFacts.

(** ** Exact arithmetic *)

Section ExactFacts.
Local Open Scope Q_scope.

Lemma e_ltb_true (a b : Q) : e_ltb (Rat a) (Rat b) = true <-> a < b.
Proof.
  unfold e_ltb. rewrite Qlt_alt. destruct (a ?= b); intuition discriminate.
Qed.

Lemma e_ltb_false (a b : Q) : e_ltb (Rat a) (Rat b) = false <-> b <= a.
Proof.
  pose proof (e_ltb_true a b) as T.
  destruct (e_ltb (Rat a) (Rat b)); split; intros H.
  - discriminate.
  - exfalso. apply (Qle_not_lt _ _ H). now apply T.
  - apply Qnot_lt_le. intros L. apply T in L. discriminate.
  - reflexivity.
Qed.

(** Truncation toward zero of a non-negative rational lies between the
    integers that bound it. *)
Lemma Qtrunc_bounds (q : Q) (a b : Z) :
  (0 <= a)%Z -> inject_Z a <= q <= inject_Z b -> (a <= Qtrunc q <= b)%Z.
Proof.
  destruct q as [n d]. unfold Qtrunc, Qle; simpl. intros Ha [H1 H2].
  assert (Hn : (0 <= n)%Z) by nia.
  rewrite Z.quot_div_nonneg by lia. split.
  - apply Z.div_le_lower_bound; lia.
  - apply Z.div_le_upper_bound; lia.
Qed.

Lemma Qtrunc_comp (p q : Q) : p == q -> Qtrunc p = Qtrunc q.
Proof.
  destruct p as [n d], q as [m e]. unfold Qtrunc, Qeq; simpl. intros E.
  rewrite <- (Z.quot_mul_cancel_r n (Zpos d) (Zpos e)) by lia.
  rewrite <- (Z.quot_mul_cancel_r m (Zpos e) (Zpos d)) by lia.
  now rewrite E, (Z.mul_comm (Zpos d)).
Qed.

Lemma Qtrunc_mono (p q : Q) : p <= q -> (Qtrunc p <= Qtrunc q)%Z.
Proof.
  intros H. unfold Qtrunc, Qle in *.
  rewrite <- (Z.quot_mul_cancel_r (Qnum p) (Zpos (Qden p)) (Zpos (Qden q))) by lia.
  rewrite <- (Z.quot_mul_cancel_r (Qnum q) (Zpos (Qden q)) (Zpos (Qden p))) by lia.
  rewrite (Z.mul_comm (Zpos (Qden q)) (Zpos (Qden p))).
  apply Z.quot_le_mono; [lia | exact H].
Qed.

Lemma filter_notna_all (l : list rational) :
  Forall (fun v => fisnan v = false) l -> filter notna l = l.
Proof.
  induction 1 as [|v l Hv _ IH]; simpl; [reflexivity|].
  unfold notna at 1. rewrite Hv. simpl. now rewrite IH.
Qed.

Lemma fold_min_spec (t : list rational) (x : Q) :
  Forall (fun v => fisnan v = false) t ->
  exists m, fold_left (fun m v => if fltb v m then v else m) t (Rat x) = Rat m
            /\ In (Rat m) (Rat x :: t)
            /\ forall q, In (Rat q) (Rat x :: t) -> m <= q.
Proof.
  intros Ht. revert x. induction Ht as [|v t Hv _ IH]; intros x.
  - exists x. simpl. split; [reflexivity|]. split; [now left|].
    intros q [E|[]]. inversion E. apply Qle_refl.
  - destruct v as [q|]; [clear Hv | discriminate]. cbn [fold_left].
    change (fltb (Rat q) (Rat x)) with (e_ltb (Rat q) (Rat x)).
    destruct (e_ltb (Rat q) (Rat x)) eqn:L.
    + apply e_ltb_true in L. destruct (IH q) as (m & E & Hin & Hle).
      exists m. split; [exact E|]. split.
      * right. exact Hin.
      * intros q' [E'|Hq'].
        -- inversion E'; subst. apply Qle_trans with q; [|now apply Qlt_le_weak].
           apply Hle. now left.
        -- now apply Hle.
    + apply e_ltb_false in L. destruct (IH x) as (m & E & Hin & Hle).
      exists m. split; [exact E|]. split.
      * destruct Hin as [Hin|Hin]; [now left | right; now right].
      * intros q' [E'|[E'|Hq']].
        -- apply Hle. now left.
        -- inversion E'; subst. apply Qle_trans with x; [|exact L].
           apply Hle. now left.
        -- apply Hle. now right.
Qed.

Lemma fold_max_spec (t : list rational) (x : Q) :
  Forall (fun v => fisnan v = false) t ->
  exists m, fold_left (fun m v => if fltb m v then v else m) t (Rat x) = Rat m
            /\ In (Rat m) (Rat x :: t)
            /\ forall q, In (Rat q) (Rat x :: t) -> q <= m.
Proof.
  intros Ht. revert x. induction Ht as [|v t Hv _ IH]; intros x.
  - exists x. simpl. split; [reflexivity|]. split; [now left|].
    intros q [E|[]]. inversion E. apply Qle_refl.
  - destruct v as [q|]; [clear Hv | discriminate]. cbn [fold_left].
    change (fltb (Rat x) (Rat q)) with (e_ltb (Rat x) (Rat q)).
    destruct (e_ltb (Rat x) (Rat q)) eqn:L.
    + apply e_ltb_true in L. destruct (IH q) as (m & E & Hin & Hle).
      exists m. split; [exact E|]. split.
      * right. exact Hin.
      * intros q' [E'|Hq'].
        -- inversion E'; subst. apply Qle_trans with q; [now apply Qlt_le_weak|].
           apply Hle. now left.
        -- now apply Hle.
    + apply e_ltb_false in L. destruct (IH x) as (m & E & Hin & Hle).
      exists m. split; [exact E|]. split.
      * destruct Hin as [Hin|Hin]; [now left | right; now right].
      * intros q' [E'|[E'|Hq']].
        -- apply Hle. now left.
        -- inversion E'; subst. apply Qle_trans with x; [exact L|].
           apply Hle. now left.
        -- apply Hle. now right.
Qed.

(** The minimum of a non-empty column without NaN is its least element. *)
Lemma min_val_of_spec (l : list rational) :
  l <> [] -> Forall (fun v => fisnan v = false) l ->
  exists m, min_val_of l = Rat m /\ In (Rat m) l /\ forall q, In (Rat q) l -> m <= q.
Proof.
  intros Hne Hl. unfold min_val_of, series_min.
  destruct l as [|v t]; [contradiction|]. rewrite (filter_notna_all Hl).
  inversion Hl as [|v' t' Hv Ht]; subst.
  destruct v as [x|]; [|discriminate]. apply fold_min_spec, Ht.
Qed.

Lemma max_val_of_spec (l : list rational) :
  l <> [] -> Forall (fun v => fisnan v = false) l ->
  exists m, max_val_of l = Rat m /\ In (Rat m) l /\ forall q, In (Rat q) l -> q <= m.
Proof.
  intros Hne Hl. unfold max_val_of, series_max.
  destruct l as [|v t]; [contradiction|]. rewrite (filter_notna_all Hl).
  inversion Hl as [|v' t' Hv Ht]; subst.
  destruct v as [x|]; [|discriminate]. apply fold_max_spec, Ht.
Qed.

Lemma val_range_of_spec (hi lo : Q) :
  lo <= hi ->
  exists rg, val_range_of (Rat hi) (Rat lo) = Rat rg /\ 0 < rg
             /\ (hi == lo -> rg == 1) /\ (~ hi == lo -> rg == hi - lo).
Proof.
  intros Hle. unfold val_range_of.
  change (feqb (Rat hi) (Rat lo)) with (Qeq_bool hi lo).
  destruct (Qeq_bool hi lo) eqn:E; cbn [negb].
  - apply Qeq_bool_iff in E. exists 1. repeat split; try reflexivity.
    intros N. now elim N.
  - apply Qeq_bool_neq in E. exists (Qred (hi - lo)).
    split; [reflexivity|]. rewrite Qred_correct. repeat split.
    + destruct (Qlt_le_dec lo hi) as [L|G]; [lra|].
      elim E. apply Qle_antisym; assumption.
    + intros N. now elim E.
Qed.

Lemma norm_of_spec (lo rg v : Q) :
  0 < rg ->
  exists t, norm_of (Rat lo) (Rat rg) (Rat v) = Rat t /\ t == (v - lo) / rg.
Proof.
  intros Hrg. unfold norm_of.
  change (fdiv (fsub (Rat v) (Rat lo)) (Rat rg))
    with (e_div (Rat (Qred (v - lo))) (Rat rg)).
  unfold e_div. destruct (Qeq_bool rg 0) eqn:E.
  - apply Qeq_bool_iff in E. rewrite E in Hrg. now apply Qlt_irrefl in Hrg.
  - eexists. split; [reflexivity|]. now rewrite !Qred_correct.
Qed.

Lemma channels_spec (t : Q) :
  channels (Rat t)
  = Ok (Qtrunc (255 * t), Qtrunc (102 - 42 * t), Qtrunc (255 - 195 * t)).
Proof.
  unfold channels. cbn [fint fadd fmul fofZ rational_arith e_int e_lift2 bind].
  apply f_equal. apply f_equal2; [apply f_equal2|];
    apply Qtrunc_comp; rewrite !Qred_correct;
    change (inject_Z (255 - 0)) with 255; change (inject_Z 0) with 0;
    change (inject_Z 102) with 102; change (inject_Z (60 - 102)) with (-42 # 1);
    change (inject_Z 255) with 255; change (inject_Z (60 - 255)) with (-195 # 1);
    ring.
Qed.

Lemma channel_bounds (t : Q) :
  0 <= t <= 1 ->
  (0 <= Qtrunc (255 * t) <= 255)%Z
  /\ (60 <= Qtrunc (102 - 42 * t) <= 102)%Z
  /\ (60 <= Qtrunc (255 - 195 * t) <= 255)%Z.
Proof.
  intros [H0 H1]. split; [|split];
    apply Qtrunc_bounds; try lia;
    change (inject_Z 0) with 0; change (inject_Z 255) with 255;
    change (inject_Z 60) with 60; change (inject_Z 102) with 102; lra.
Qed.
End ExactFacts.

(** ** The points of a returned chart *)

Section ChartFacts.
Context {F : Type} {arith : Arith F}.

Lemma filter_nil {A : Type} (f : A -> bool) (l : list A) :
  (forall a, In a l -> f a = false) -> filter f l = [].
Proof.
  induction l as [|a l IH]; simpl; intros H; [reflexivity|].
  rewrite (H a (or_introl eq_refl)). apply IH. intros b Hb. apply H. now right.
Qed.

Lemma str_in_nil (x : str) : str_in x [] = false.
Proof. reflexivity. Qed.

Lemma complete_iff (r : Row F) :
  complete r = true <->
  cell_notna (turnover r) = true /\ fisnan (net_profit_margin r) = false
  /\ fisnan (return_on_assets r) = false.
Proof. unfold complete, notna. rewrite !andb_true_iff, !negb_true_iff. tauto. Qed.

Lemma surviving_In (p : str) (s : list str) (rs : list (Row F)) (r : Row F) :
  In r (surviving p s rs) <-> In r rs /\ matches p s r = true /\ complete r = true.
Proof. unfold surviving. rewrite !filter_In. tauto. Qed.

Lemma surviving_notna (p : str) (s : list str) (rs : list (Row F)) :
  Forall (fun r => fisnan (return_on_assets r) = false) (surviving p s rs).
Proof.
  apply Forall_forall. intros r Hr. apply surviving_In in Hr.
  destruct Hr as (_ & _ & Hc). now apply complete_iff in Hc.
Qed.

Lemma surviving_nil (p : str) (s : list str) (rs : list (Row F)) :
  surviving p s rs = [] <->
  forall r, In r rs -> matches p s r = true ->
    cell_notna (turnover r) = false \/ fisnan (net_profit_margin r) = true
    \/ fisnan (return_on_assets r) = true.
Proof.
  split.
  - intros E r Hr Hm.
    destruct (complete r) eqn:Hc.
    + assert (Hin : In r (surviving p s rs)) by (apply surviving_In; tauto).
      rewrite E in Hin. destruct Hin.
    + unfold complete, notna in Hc.
      destruct (cell_notna (turnover r)); [|now left].
      destruct (fisnan (net_profit_margin r)); [right; now left|].
      destruct (fisnan (return_on_assets r)); [right; now right | discriminate].
  - intros H. apply filter_nil. intros r Hr. apply filter_In in Hr.
    destruct Hr as [Hr Hm]. destruct (complete r) eqn:Hc; [|reflexivity].
    apply complete_iff in Hc. destruct Hc as (C1 & C2 & C3).
    destruct (H r Hr Hm) as [N|[N|N]]; congruence.
Qed.

(** A returned chart is [encode]'s record over the surviving rows. *)
Lemma create_bubble_chart_fields (df : DataFrame F) (rs : list (Row F))
    (p : str) (s : list str) (fig : Figure F) :
  wf df -> rows_of df = Ok rs -> create_bubble_chart df p s = Ok (Some fig) ->
  let sv := surviving p s rs in
  sv <> []
  /\ exists cs,
      mapM (fun r => color_of (scale_min sv) (scale_range sv) (return_on_assets r)) sv = Ok cs
      /\ fig = {| trace_x := map turnover sv;
                  trace_y := map (fun r => fmul (net_profit_margin r) (fofZ 100)) sv;
                  marker_size := map diameter sv;
                  marker_color := map fst cs;
                  marker_line_color := map snd cs;
                  trace_text := map (fun r => fst (label_of (diameter r) (entity_name r))) sv;
                  textfont_size := map (fun r => snd (label_of (diameter r) (entity_name r))) sv;
                  customdata := map entity_name sv;
                  title_text := chart_title ++ p |}.
Proof.
  intros Hwf Hrows. rewrite (create_bubble_chart_encode p s Hwf Hrows).
  cbv zeta. generalize (surviving p s rs). intros sv E.
  unfold encode in E. destruct sv as [|r sv']; [discriminate|].
  split; [discriminate|].
  destruct (mapM _ (r :: sv')) as [cs|e]; cbn [bind] in E; [|discriminate].
  exists cs. split; [reflexivity|]. now inversion E.
Qed.

(** No chart and no error: exactly when no row survives. *)
Lemma create_bubble_chart_nodata (df : DataFrame F) (rs : list (Row F))
    (p : str) (s : list str) :
  wf df -> rows_of df = Ok rs ->
  (create_bubble_chart df p s = Ok None <-> surviving p s rs = []).
Proof.
  intros Hwf Hrows. rewrite (create_bubble_chart_encode p s Hwf Hrows).
  unfold encode. destruct (surviving p s rs) as [|r sv'].
  - split; reflexivity.
  - destruct (mapM _ (r :: sv')) as [cs|e]; cbn [bind]; split; discriminate.
Qed.

(** What a returned chart holds for the i-th surviving row. *)
Lemma chart_points (df : DataFrame F) (rs : list (Row F)) (p : str) (s : list str)
    (fig : Figure F) :
  wf df -> rows_of df = Ok rs -> create_bubble_chart df p s = Ok (Some fig) ->
  let sv := surviving p s rs in
  let n := length sv in
  (length (marker_size fig) = n /\ length (marker_color fig) = n
   /\ length (marker_line_color fig) = n /\ length (trace_text fig) = n
   /\ length (textfont_size fig) = n /\ length (trace_x fig) = n
   /\ length (trace_y fig) = n /\ length (customdata fig) = n)
  /\ forall (i : nat) (r : Row F), nth_error sv i = Some r ->
       nth_error (marker_size fig) i = Some (bubble_size (return_on_assets r))
       /\ (exists fill edge,
             color_of (scale_min sv) (scale_range sv) (return_on_assets r) = Ok (fill, edge)
             /\ nth_error (marker_color fig) i = Some fill
             /\ nth_error (marker_line_color fig) i = Some edge)
       /\ nth_error (trace_text fig) i
          = Some (fst (label_of (bubble_size (return_on_assets r)) (entity_name r)))
       /\ nth_error (textfont_size fig) i
          = Some (snd (label_of (bubble_size (return_on_assets r)) (entity_name r)))
       /\ nth_error (trace_x fig) i = Some (turnover r)
       /\ nth_error (trace_y fig) i = Some (fmul (net_profit_margin r) (fofZ 100))
       /\ nth_error (customdata fig) i = Some (entity_name r).
Proof.
  intros Hwf Hrows Hfig.
  destruct (create_bubble_chart_fields p s Hwf Hrows Hfig) as (_ & cs & Hcs & ->).
  cbv zeta. cbn [marker_size marker_color marker_line_color trace_text
                 textfont_size trace_x trace_y customdata].
  rewrite !length_map, (mapM_length _ _ Hcs). split; [repeat split|].
  intros i r Hi. destruct (mapM_nth _ _ _ Hcs Hi) as ([fill edge] & Hc & Hn).
  split; [exact (map_nth_error diameter _ _ Hi)|].
  split; [exists fill, edge; split; [exact Hc|];
          split; [exact (map_nth_error fst _ _ Hn) | exact (map_nth_error snd _ _ Hn)]|].
  split; [exact (map_nth_error (fun r => fst (label_of (diameter r) (entity_name r))) _ _ Hi)|].
  split; [exact (map_nth_error (fun r => snd (label_of (diameter r) (entity_name r))) _ _ Hi)|].
  split; [exact (map_nth_error turnover _ _ Hi)|].
  split; [exact (map_nth_error (fun r => fmul (net_profit_margin r) (fofZ 100)) _ _ Hi)|].
  exact (map_nth_error entity_name _ _ Hi).
Qed.

(** One turn of the colour loop on a value that is not NaN. *)
Lemma color_of_channels (min_val val_range val : F) (fill edge : str) :
  fisnan val = false -> color_of min_val val_range val = Ok (fill, edge) ->
  exists cr cg cb : Z,
    fint (fadd (fofZ 0) (fmul (fofZ 255) (norm_of min_val val_range val))) = Ok cr
    /\ fint (fadd (fofZ 102) (fmul (fofZ (-42)) (norm_of min_val val_range val))) = Ok cg
    /\ fint (fadd (fofZ 255) (fmul (fofZ (-195)) (norm_of min_val val_range val))) = Ok cb
    /\ fill = rgba cr cg cb (ffixed 2 (fdiv (fofZ 7) (fofZ 10)))
    /\ edge = rgba (Z.max (cr - 40) 0) (Z.max (cg - 40) 0) (Z.max (cb - 40) 0)
                   (lit "0.95").
Proof.
  intros Hna. unfold color_of, channels. rewrite Hna.
  change (fofZ (255 - 0)) with (fofZ 255).
  change (fofZ (60 - 102)) with (fofZ (-42)).
  change (fofZ (60 - 255)) with (fofZ (-195)).
  destruct (fint (fadd (fofZ 0) _)) as [cr|e]; cbn [bind]; [|discriminate].
  destruct (fint (fadd (fofZ 102) _)) as [cg|e]; cbn [bind]; [|discriminate].
  destruct (fint (fadd (fofZ 255) _)) as [cb|e]; cbn [bind]; [|discriminate].
  intros E. inversion E. exists cr, cg, cb. repeat split.
Qed.

(** The three tiers of the label loop, by the tests of the source. *)
Lemma label_of_tiers (size : F) (name : str) :
  (fltb size (fofZ 50) = true ->
   label_of size name
   = (if (4 <? length name)%nat then firstn 3 name ++ lit "..." else name, 8%Z))
  /\ (fltb size (fofZ 50) = false -> fltb size (fofZ 80) = true ->
      label_of size name
      = (if (6 <? length name)%nat then firstn 5 name ++ lit "..." else name, 10%Z))
  /\ (fltb size (fofZ 50) = false -> fltb size (fofZ 80) = false ->
      label_of size name = (name, 12%Z)).
Proof.
  unfold label_of. split; [|split].
  - intros ->. reflexivity.
  - intros -> ->. reflexivity.
  - intros -> ->. reflexivity.
Qed.
End ChartFacts.

(** ** The colour scale in exact arithmetic *)

Section ExactChart.
Local Open Scope Q_scope.

Lemma abs_opp_binary64 (v : float) : PrimFloat.abs (PrimFloat.opp v) = PrimFloat.abs v.
Proof.
  apply Prim2SF_inj. rewrite !FloatAxioms.abs_spec, FloatAxioms.opp_spec.
  now destruct (Prim2SF v).
Qed.

Lemma bubble_size_exact (q : Q) :
  exists d, bubble_size (Rat q) = Rat d /\ d == Qabs q * 500 + 20.
Proof.
  eexists. split; [reflexivity|]. rewrite !Qred_correct. reflexivity.
Qed.

Lemma scale_spec (sv : list (Row rational)) :
  sv <> [] -> Forall (fun r => fisnan (return_on_assets r) = false) sv ->
  exists lo hi rg : Q,
    scale_min sv = Rat lo /\ scale_range sv = Rat rg
    /\ In (Rat lo) (map return_on_assets sv)
    /\ In (Rat hi) (map return_on_assets sv)
    /\ (forall q, In (Rat q) (map return_on_assets sv) -> lo <= q <= hi)
    /\ 0 < rg /\ (hi == lo -> rg == 1) /\ (~ hi == lo -> rg == hi - lo).
Proof.
  intros Hne Hna. unfold scale_min, scale_range.
  assert (Hne' : map return_on_assets sv <> []) by (destruct sv; [contradiction | discriminate]).
  assert (Hna' : Forall (fun v : rational => fisnan v = false) (map return_on_assets sv))
    by (apply Forall_map; exact Hna).
  destruct (min_val_of_spec Hne' Hna') as (lo & Elo & Ilo & Hlo).
  destruct (max_val_of_spec Hne' Hna') as (hi & Ehi & Ihi & Hhi).
  rewrite Elo, Ehi.
  destruct (val_range_of_spec (Hlo hi Ihi)) as (rg & Erg & Hpos & H1 & H2).
  exists lo, hi, rg. repeat split; auto.
Qed.

Lemma normalized_bounds (lo hi rg q t : Q) :
  lo <= q <= hi -> 0 < rg -> (hi == lo -> rg == 1) -> (~ hi == lo -> rg == hi - lo) ->
  t == (q - lo) / rg -> 0 <= t <= 1 /\ (hi == lo -> t == 0).
Proof.
  intros [Hl Hh] Hpos H1 H2 Et.
  destruct (Qeq_dec hi lo) as [E|N].
  - assert (Eq : q == lo) by (apply Qle_antisym; [rewrite <- E|]; assumption).
    assert (E0 : t == 0).
    { rewrite Et, Eq. unfold Qdiv. setoid_replace (lo - lo) with 0 by ring. ring. }
    split; [|intros _; exact E0]. rewrite E0. split; [apply Qle_refl | discriminate].
  - split; [|intros E; contradiction]. rewrite Et. split.
    + apply Qle_shift_div_l; [exact Hpos | lra].
    + apply Qle_shift_div_r; [exact Hpos|]. rewrite (H2 N). lra.
Qed.

Lemma fill_color_exact (r g b : Z) :
  fill_color (F := rational) (r, g, b) = rgba r g b (lit "0.70").
Proof. reflexivity. Qed.

(** The colours of one surviving row. *)
Lemma point_colour (sv : list (Row rational)) (lo hi rg : Q) (r : Row rational) :
  scale_min sv = Rat lo -> scale_range sv = Rat rg ->
  (forall q, In (Rat q) (map return_on_assets sv) -> lo <= q <= hi) ->
  0 < rg -> (hi == lo -> rg == 1) -> (~ hi == lo -> rg == hi - lo) ->
  In r sv -> fisnan (return_on_assets r) = false ->
  exists v t : Q,
    return_on_assets r = Rat v /\ normalized sv r = Rat t
    /\ t == (v - lo) / rg /\ 0 <= t <= 1 /\ (hi == lo -> t == 0)
    /\ color_of (scale_min sv) (scale_range sv) (return_on_assets r)
       = Ok (fill_color (F := rational) (spec_channels t),
             edge_color (spec_channels t)).
Proof.
  intros Elo Erg Hb Hpos H1 H2 Hin Hna.
  destruct (return_on_assets r) as [v|] eqn:Ev; [|discriminate].
  destruct (norm_of_spec lo v Hpos) as (t & Et & Ht).
  assert (Hv : lo <= v <= hi).
  { apply Hb. rewrite <- Ev. now apply in_map. }
  destruct (normalized_bounds Hv Hpos H1 H2 Ht) as [Hr H0].
  exists v, t. unfold normalized. rewrite Elo, Erg, Ev, Et.
  repeat split; try tauto.
  unfold color_of. cbn [fisnan rational_arith]. rewrite Et, channels_spec. reflexivity.
Qed.

(** In exact arithmetic the colour loop never raises on surviving rows. *)
Lemma colours_of_surviving (sv : list (Row rational)) :
  sv <> [] -> Forall (fun r => fisnan (return_on_assets r) = false) sv ->
  exists cs, mapM (fun r => color_of (scale_min sv) (scale_range sv) (return_on_assets r)) sv
             = Ok cs.
Proof.
  intros Hne Hna.
  destruct (scale_spec Hne Hna) as (lo & hi & rg & Elo & Erg & _ & _ & Hb & Hpos & H1 & H2).
  apply mapM_total. intros r Hr.
  destruct (@point_colour sv lo hi rg r Elo Erg Hb Hpos H1 H2 Hr) as (v & t & _ & _ & _ & _ & _ & Hc).
  - rewrite Forall_forall in Hna. now apply Hna.
  - eexists. exact Hc.
Qed.

Lemma encode_total (p : str) (sv : list (Row rational)) :
  sv <> [] -> Forall (fun r => fisnan (return_on_assets r) = false) sv ->
  exists fig, encode p sv = Ok (Some fig).
Proof.
  intros Hne Hna. destruct (colours_of_surviving Hne Hna) as (cs & Hcs).
  unfold encode. destruct sv as [|r sv']; [contradiction|].
  rewrite Hcs. cbn [bind]. eexists. reflexivity.
Qed.

Lemma chart_point_colours (df : DataFrame rational) (rs : list (Row rational))
    (p : str) (s : list str) (fig : Figure rational) :
  wf df -> rows_of df = Ok rs -> create_bubble_chart df p s = Ok (Some fig) ->
  let sv := surviving p s rs in
  exists lo hi rg : Q,
    In (Rat lo) (map return_on_assets sv) /\ In (Rat hi) (map return_on_assets sv)
    /\ (forall q, In (Rat q) (map return_on_assets sv) -> lo <= q <= hi)
    /\ (hi == lo -> rg == 1) /\ (~ hi == lo -> rg == hi - lo)
    /\ forall (i : nat) (r : Row rational), nth_error sv i = Some r ->
         exists v t : Q,
           return_on_assets r = Rat v /\ normalized sv r = Rat t
           /\ t == (v - lo) / rg /\ 0 <= t <= 1 /\ (hi == lo -> t == 0)
           /\ nth_error (marker_color fig) i = Some (fill_color (F := rational) (spec_channels t))
           /\ nth_error (marker_line_color fig) i = Some (edge_color (spec_channels t)).
Proof.
  intros Hwf Hrows Hfig. cbv zeta.
  destruct (create_bubble_chart_fields p s Hwf Hrows Hfig) as (Hne & cs & Hcs & ->).
  pose proof (surviving_notna p s rs) as Hna.
  destruct (scale_spec Hne Hna) as (lo & hi & rg & Elo & Erg & Ilo & Ihi & Hb & Hpos & H1 & H2).
  exists lo, hi, rg. repeat (split; [assumption|]).
  intros i r Hi.
  assert (Hin : In r (surviving p s rs)) by (eapply nth_error_In; exact Hi).
  assert (Hr : fisnan (return_on_assets r) = false)
    by (rewrite Forall_forall in Hna; now apply Hna).
  destruct (@point_colour _ lo hi rg r Elo Erg Hb Hpos H1 H2 Hin Hr)
    as (v & t & Ev & Et & Ht & Hr01 & H0 & Hc).
  destruct (mapM_nth _ _ _ Hcs Hi) as ([fill edge] & Hc' & Hn).
  rewrite Hc in Hc'. inversion Hc'; subst fill edge.
  exists v, t. repeat (split; [assumption|]).
  cbn [marker_color marker_line_color].
  split; [exact (map_nth_error fst _ _ Hn) | exact (map_nth_error snd _ _ Hn)].
Qed.

Lemma label_of_exact (d : Q) (name : str) :
  (d < 50 ->
   label_of (Rat d) name
   = (if (4 <? length name)%nat then firstn 3 name ++ lit "..." else name, 8%Z))
  /\ (50 <= d < 80 ->
      label_of (Rat d) name
      = (if (6 <? length name)%nat then firstn 5 name ++ lit "..." else name, 10%Z))
  /\ (80 <= d -> label_of (Rat d) name = (name, 12%Z)).
Proof.
  destruct (label_of_tiers (Rat d) name) as (T1 & T2 & T3).
  change (fltb (Rat d) (fofZ 50)) with (e_ltb (Rat d) (Rat 50)) in *.
  change (fltb (Rat d) (fofZ 80)) with (e_ltb (Rat d) (Rat 80)) in *.
  split; [|split].
  - intros H. apply T1. now apply e_ltb_true.
  - intros [H1 H2]. apply T2; [now apply e_ltb_false | now apply e_ltb_true].
  - intros H. apply T3; apply e_ltb_false; lra.
Qed.

Lemma mixed_frame_wf : wf (mixed_frame (F := rational)).
Proof. vm_compute. repeat split; reflexivity. Qed.

Lemma scenario_frame_wf : wf (scenario_frame (F := rational)).
Proof. vm_compute. repeat split; reflexivity. Qed.
End ExactChart.

(** ** The colour scale in binary64 when every return is the same *)

Section Binary64Chart.

Lemma SFcompare_refl (x : spec_float) : x <> S754_nan -> SFcompare x x = Some Eq.
Proof.
  destruct x as [b|b| |b m e]; simpl; intros H; try reflexivity.
  - now destruct b.
  - now elim H.
  - destruct b; rewrite Z.compare_refl, Pos.compare_cont_refl; reflexivity.
Qed.

Lemma is_nan_Prim2SF (v : float) :
  PrimFloat.is_nan v = match Prim2SF v with S754_nan => true | _ => false end.
Proof.
  unfold PrimFloat.is_nan. rewrite FloatAxioms.eqb_spec. unfold SFeqb.
  destruct (Prim2SF v) eqn:E; try (rewrite SFcompare_refl by discriminate; reflexivity).
  reflexivity.
Qed.

Lemma eqb_refl_notna (x : float) : PrimFloat.is_nan x = false -> PrimFloat.eqb x x = true.
Proof. unfold PrimFloat.is_nan. now destruct (PrimFloat.eqb x x). Qed.

(** [x - x] is +0 for a finite [x] and NaN for an infinite one. *)
Lemma sub_diag_binary64 (x : float) :
  PrimFloat.is_nan x = false ->
  PrimFloat.sub x x = 0%float \/ PrimFloat.sub x x = PrimFloat.nan.
Proof.
  intros H. rewrite is_nan_Prim2SF in H.
  pose proof (FloatAxioms.sub_spec x x) as E. unfold SF64sub, SFsub in E.
  destruct (Prim2SF x) as [b|b| |b m e]; try discriminate.
  - left. apply Prim2SF_inj. rewrite E. now destruct b.
  - right. apply Prim2SF_inj. rewrite E. now destruct b.
  - left. apply Prim2SF_inj. rewrite E. cbv zeta. rewrite Z.sub_diag. reflexivity.
Qed.

Lemma fold_left_const (A : Type) (f : A -> A -> A) (x : A) (l : list A) :
  f x x = x -> (forall v, In v l -> v = x) -> fold_left f l x = x.
Proof.
  intros Hf. induction l as [|v l IH]; intros H; cbn [fold_left]; [reflexivity|].
  rewrite (H v (or_introl eq_refl)), Hf. apply IH. intros w Hw. apply H. now right.
Qed.

Lemma filter_notna_const (l : list float) (x : float) :
  PrimFloat.is_nan x = false -> (forall v, In v l -> v = x) -> filter notna l = l.
Proof.
  intros Hx. induction l as [|v l IH]; intros H; cbn [filter]; [reflexivity|].
  rewrite (H v (or_introl eq_refl)) at 1. unfold notna at 1.
  cbn [fisnan binary64_arith]. rewrite Hx. cbn [negb].
  rewrite IH; [reflexivity|]. intros w Hw. apply H. now right.
Qed.

Lemma series_const (l : list float) (x : float) :
  l <> [] -> PrimFloat.is_nan x = false -> (forall v, In v l -> v = x) ->
  series_min l = x /\ series_max l = x.
Proof.
  intros Hne Hx H. unfold series_min, series_max. rewrite (@filter_notna_const l x Hx H).
  destruct l as [|v l]; [contradiction|].
  rewrite (H v (or_introl eq_refl)).
  split; (apply fold_left_const;
          [now destruct (fltb x x) | intros w Hw; apply H; now right]).
Qed.

(** When every surviving row has the same return on assets, every point
    of a returned chart has normalized value 0 and the blue end of the
    scale. *)
Lemma constant_returns_blue (df : DataFrame float) (rs : list (Row float))
    (p : str) (s : list str) (fig : Figure float) (x : float) :
  wf df -> rows_of df = Ok rs -> create_bubble_chart df p s = Ok (Some fig) ->
  (forall r, In r (surviving p s rs) -> return_on_assets r = x) ->
  forall (i : nat) (r : Row float), nth_error (surviving p s rs) i = Some r ->
    normalized (surviving p s rs) r = 0%float
    /\ nth_error (marker_color fig) i = Some (rgba 0 102 255 (lit "0.70"))
    /\ nth_error (marker_line_color fig) i = Some (rgba 0 62 215 (lit "0.95")).
Proof.
  intros Hwf Hrows Hfig Hall i r Hi.
  destruct (create_bubble_chart_fields p s Hwf Hrows Hfig) as (Hne & _).
  destruct (chart_points p s Hwf Hrows Hfig) as [_ Hpt].
  destruct (Hpt i r Hi) as (_ & (fill & edge & Hc & Hf & He) & _).
  pose proof (nth_error_In _ _ Hi) as Hin.
  assert (Hx : PrimFloat.is_nan x = false).
  { pose proof (surviving_notna p s rs) as H. rewrite Forall_forall in H.
    rewrite <- (Hall r Hin). exact (H r Hin). }
  assert (Hcol : forall v, In v (map return_on_assets (surviving p s rs)) -> v = x).
  { intros v Hv. apply in_map_iff in Hv. destruct Hv as (r' & <- & Hr'). now apply Hall. }
  assert (Hne' : map return_on_assets (surviving p s rs) <> []).
  { destruct (surviving p s rs); [contradiction | discriminate]. }
  destruct (@series_const _ x Hne' Hx Hcol) as [Emin Emax].
  assert (Smin : scale_min (surviving p s rs) = x).
  { unfold scale_min, min_val_of.
    destruct (map return_on_assets (surviving p s rs)); [contradiction | exact Emin]. }
  assert (Srg : scale_range (surviving p s rs) = fofZ 1).
  { unfold scale_range, val_range_of, min_val_of, max_val_of.
    destruct (map return_on_assets (surviving p s rs)); [contradiction|].
    rewrite Emin, Emax. cbn [feqb binary64_arith]. now rewrite (@eqb_refl_notna x Hx). }
  unfold normalized. rewrite Smin, Srg in *. rewrite (Hall r Hin) in *.
  unfold color_of in Hc. cbn [fisnan binary64_arith] in Hc. rewrite Hx in Hc.
  unfold norm_of in *. cbn [fsub binary64_arith] in *.
  destruct (@sub_diag_binary64 x Hx) as [E|E]; rewrite E in *.
  - vm_compute in Hc. inversion Hc; subst fill edge.
    split; [vm_compute; reflexivity|]. split; [exact Hf | exact He].
  - vm_compute in Hc. discriminate.
Qed.
End Binary64Chart.

(** ** Binary64 arithmetic: every operation rounds to nearest

    [binary_round_aux], through which [SFmul], [SFdiv], [SFadd] and [SFsub]
    produce their results, gives the exact result rounded to the nearest
    binary64 number, ties to even.  Rounding is monotone and leaves a
    binary64 number unchanged; that is what keeps the normalized value in
    [0,1] and the channels in their ranges. *)

Section Binary64Rounding.
Local Open Scope Q_scope.

Lemma pow2_pos (e : Z) : 0 < pow2 e.
Proof. apply Qpower_0_lt. reflexivity. Qed.

Lemma pow2_add (a b : Z) : pow2 (a + b) == pow2 a * pow2 b.
Proof. apply Qpower_plus. discriminate. Qed.

Lemma pow2_0 : pow2 0 == 1.
Proof. reflexivity. Qed.

Lemma pow2_1 : pow2 1 == 2.
Proof. reflexivity. Qed.

Lemma pow2_succ (a : Z) : pow2 (a + 1) == 2 * pow2 a.
Proof. rewrite pow2_add, pow2_1. ring. Qed.

Lemma pow2_opp (a : Z) : pow2 (- a) == / pow2 a.
Proof. apply Qpower_opp. Qed.

Lemma pow2_sub (a b : Z) : pow2 (a - b) == pow2 a / pow2 b.
Proof. unfold Z.sub. rewrite pow2_add, pow2_opp. reflexivity. Qed.

Lemma pow2_le (a b : Z) : (a <= b)%Z -> pow2 a <= pow2 b.
Proof. intros H. apply Qpower_le_compat_l; [exact H|]. discriminate. Qed.

Lemma pow2_lt (a b : Z) : (a < b)%Z -> pow2 a < pow2 b.
Proof. intros H. apply Qpower_lt_compat_l; [exact H|]. reflexivity. Qed.

Lemma pow2_lt_inv (a b : Z) : pow2 a < pow2 b -> (a < b)%Z.
Proof.
  intros H. destruct (Z_lt_le_dec a b) as [L|L]; [exact L|].
  pose proof (pow2_le L). lra.
Qed.

Lemma pow2_Z (n : Z) : (0 <= n)%Z -> pow2 n == inject_Z (2 ^ n).
Proof. intros H. rewrite Zpower_Qpower by exact H. reflexivity. Qed.

Lemma SFmag_pow2 (m : positive) (e : Z) : SFmag m e == inject_Z (Zpos m) * pow2 e.
Proof.
  destruct e as [|p|p]; unfold SFmag.
  - rewrite pow2_0. unfold inject_Z. ring.
  - rewrite pow2_Z by lia. rewrite <- inject_Z_mult. reflexivity.
  - change (Zneg p) with (- Zpos p)%Z. rewrite pow2_opp, pow2_Z by lia.
    rewrite <- Pos2Z.inj_pow. unfold Qeq, Qinv, inject_Z; cbn. lia.
Qed.

Lemma digits2_size (p : positive) : digits2_pos p = Pos.size p.
Proof. induction p; simpl; congruence. Qed.

Lemma digits2_bounds (p : positive) :
  (2 ^ (Zpos (digits2_pos p) - 1) <= Zpos p < 2 ^ Zpos (digits2_pos p))%Z.
Proof.
  rewrite digits2_size. split.
  - pose proof (Pos.size_le p) as H.
    assert (E : (2 ^ Zpos (Pos.size p) = 2 * 2 ^ (Zpos (Pos.size p) - 1))%Z).
    { rewrite <- Z.pow_succ_r by lia. f_equal. lia. }
    assert (H' : (2 ^ Zpos (Pos.size p) <= 2 * Zpos p)%Z).
    { rewrite <- Pos2Z.inj_pow. change (2 * Zpos p)%Z with (Zpos p~0).
      apply Pos2Z.pos_le_pos. exact H. }
    lia.
  - pose proof (Pos.size_gt p) as H. rewrite <- Pos2Z.inj_pow. apply Pos2Z.pos_lt_pos. exact H.
Qed.

Lemma digits2_unique (p : positive) (d : Z) :
  (2 ^ (d - 1) <= Zpos p < 2 ^ d)%Z -> (0 < d)%Z -> d = Zpos (digits2_pos p).
Proof.
  intros [H1 H2] Hd. pose proof (digits2_bounds p) as [B1 B2].
  destruct (Z.lt_trichotomy d (Zpos (digits2_pos p))) as [L|[L|L]]; [|exact L|].
  - assert (2 ^ d <= 2 ^ (Zpos (digits2_pos p) - 1))%Z by (apply Z.pow_le_mono_r; lia). lia.
  - assert (2 ^ Zpos (digits2_pos p) <= 2 ^ (d - 1))%Z by (apply Z.pow_le_mono_r; lia). lia.
Qed.

Lemma digits2_pow2 (p : positive) :
  pow2 (Zpos (digits2_pos p) - 1) <= inject_Z (Zpos p) < pow2 (Zpos (digits2_pos p)).
Proof.
  pose proof (digits2_bounds p) as [B1 B2].
  rewrite !pow2_Z by lia. rewrite <- !Zle_Qle, <- Zlt_Qlt. split; assumption.
Qed.

(** *** Valid binary64 numbers and their order *)

Lemma bounded_facts (m : positive) (e : Z) :
  bounded prec emax m e = true ->
  (-1074 <= e <= 971)%Z /\ (Zpos (digits2_pos m) <= 53)%Z
  /\ ((-1074 < e)%Z -> Zpos (digits2_pos m) = 53%Z).
Proof.
  unfold bounded, canonical_mantissa, fexp, emin, prec, emax. intros H.
  apply andb_true_iff in H. destruct H as [H1 H2].
  apply Z.eqb_eq in H1. apply Z.leb_le in H2. lia.
Qed.

Lemma SFmag_pos (m : positive) (e : Z) : 0 < SFmag m e.
Proof.
  rewrite SFmag_pow2. apply Qmult_lt_0_compat; [|apply pow2_pos].
  change 0 with (inject_Z 0). rewrite <- Zlt_Qlt. lia.
Qed.

Lemma SFmag_upper (m : positive) (e : Z) :
  SFmag m e < pow2 (Zpos (digits2_pos m) + e).
Proof.
  rewrite SFmag_pow2, pow2_add. apply Qmult_lt_compat_r; [apply pow2_pos|].
  apply digits2_pow2.
Qed.

Lemma SFmag_lower (m : positive) (e : Z) :
  pow2 (Zpos (digits2_pos m) - 1 + e) <= SFmag m e.
Proof.
  rewrite SFmag_pow2, pow2_add. apply Qmult_le_compat_r; [|apply Qlt_le_weak, pow2_pos].
  apply digits2_pow2.
Qed.

Lemma SFmag_lt_exp (m1 m2 : positive) (e1 e2 : Z) :
  bounded prec emax m1 e1 = true -> bounded prec emax m2 e2 = true ->
  (e1 < e2)%Z -> SFmag m1 e1 < SFmag m2 e2.
Proof.
  intros B1 B2 H.
  destruct (bounded_facts _ _ B1) as (R1 & D1 & _).
  destruct (bounded_facts _ _ B2) as (R2 & _ & N2).
  eapply Qlt_le_trans; [apply SFmag_upper|].
  eapply Qle_trans; [|apply SFmag_lower].
  apply pow2_le. rewrite N2 by lia. lia.
Qed.

Lemma SFmag_bound (m : positive) (e : Z) :
  bounded prec emax m e = true -> SFmag m e < pow2 1024.
Proof.
  intros B. destruct (bounded_facts _ _ B) as (R & D & _).
  eapply Qlt_le_trans; [apply SFmag_upper|]. apply pow2_le. lia.
Qed.

Lemma Qcompare_Lt (a b : Q) : a < b -> (a ?= b) = Lt.
Proof. intros H. now apply Qlt_alt. Qed.

Lemma Qcompare_Gt (a b : Q) : b < a -> (a ?= b) = Gt.
Proof. intros H. now apply Qgt_alt. Qed.

Lemma Qcompare_Eq (a b : Q) : a == b -> (a ?= b) = Eq.
Proof. intros H. now apply Qeq_alt. Qed.

Lemma Qcompare_opp (a b : Q) : (- a ?= - b) = CompOpp (a ?= b).
Proof.
  destruct (Qcompare_spec a b) as [H|H|H]; simpl.
  - apply Qcompare_Eq. now rewrite H.
  - apply Qcompare_Gt. lra.
  - apply Qcompare_Lt. lra.
Qed.

Lemma SFmag_compare (m1 m2 : positive) (e1 e2 : Z) :
  bounded prec emax m1 e1 = true -> bounded prec emax m2 e2 = true ->
  (SFmag m1 e1 ?= SFmag m2 e2)
  = match (e1 ?= e2)%Z with
    | Lt => Lt
    | Gt => Gt
    | Eq => Pos.compare_cont Eq m1 m2
    end.
Proof.
  intros B1 B2. destruct (Z.compare_spec e1 e2) as [E|L|G].
  - subst e2. change (Pos.compare_cont Eq m1 m2) with (Pos.compare m1 m2).
    rewrite !SFmag_pow2.
    destruct (Pos.compare_spec m1 m2) as [E|L|G].
    + subst. now apply Qcompare_Eq.
    + apply Qcompare_Lt. apply Qmult_lt_compat_r; [apply pow2_pos|].
      rewrite <- Zlt_Qlt. lia.
    + apply Qcompare_Gt. apply Qmult_lt_compat_r; [apply pow2_pos|].
      rewrite <- Zlt_Qlt. lia.
  - apply Qcompare_Lt. now apply SFmag_lt_exp.
  - apply Qcompare_Gt. apply SFmag_lt_exp; [assumption..|lia].
Qed.

Lemma SFcompare_key (x y : spec_float) :
  valid_binary x = true -> valid_binary y = true ->
  x <> S754_nan -> y <> S754_nan ->
  SFcompare x y = Some (SFkey x ?= SFkey y).
Proof.
  intros Vx Vy Nx Ny.
  pose proof (pow2_pos 1024) as HP.
  destruct x as [sx|sx| |sx mx ex]; [| |now elim Nx|];
  destruct y as [sy|sy| |sy my ey]; try (now elim Ny); cbn [valid_binary] in Vx, Vy;
    try (pose proof (SFmag_pos mx ex) as Px; pose proof (SFmag_bound _ _ Vx) as Bx);
    try (pose proof (SFmag_pos my ey) as Py; pose proof (SFmag_bound _ _ Vy) as By);
    cbn [SFcompare SFkey SF2Q]; f_equal; symmetry;
    try (destruct sx); try (destruct sy);
    try (apply Qcompare_Eq; reflexivity);
    try (apply Qcompare_Lt; lra); try (apply Qcompare_Gt; lra).
  - rewrite Qcompare_opp, (SFmag_compare _ _ _ _ Vx Vy).
    destruct (ex ?= ey)%Z; reflexivity.
  - apply SFmag_compare; assumption.
Qed.


Lemma not_nan_Prim2SF (x : float) : PrimFloat.is_nan x = false -> Prim2SF x <> S754_nan.
Proof. rewrite is_nan_Prim2SF. intros H E. rewrite E in H. discriminate. Qed.

Lemma compare_key (x y : float) :
  PrimFloat.is_nan x = false -> PrimFloat.is_nan y = false ->
  SFcompare (Prim2SF x) (Prim2SF y) = Some (float_key x ?= float_key y).
Proof.
  intros Hx Hy. apply SFcompare_key; try apply Prim2SF_valid; now apply not_nan_Prim2SF.
Qed.

Lemma ltb_key (x y : float) :
  PrimFloat.is_nan x = false -> PrimFloat.is_nan y = false ->
  PrimFloat.ltb x y = true <-> float_key x < float_key y.
Proof.
  intros Hx Hy. rewrite FloatAxioms.ltb_spec. unfold SFltb.
  rewrite (compare_key _ _ Hx Hy). rewrite Qlt_alt.
  destruct (float_key x ?= float_key y); split; congruence.
Qed.

Lemma ltb_key_false (x y : float) :
  PrimFloat.is_nan x = false -> PrimFloat.is_nan y = false ->
  PrimFloat.ltb x y = false <-> float_key y <= float_key x.
Proof.
  intros Hx Hy. pose proof (ltb_key _ _ Hx Hy) as H.
  destruct (PrimFloat.ltb x y).
  - split; [discriminate|]. intros L. assert (float_key x < float_key y) by now apply H. lra.
  - split; [|reflexivity]. intros _. apply Qnot_lt_le. intros L. apply H in L. discriminate.
Qed.

Lemma eqb_key (x y : float) :
  PrimFloat.is_nan x = false -> PrimFloat.is_nan y = false ->
  PrimFloat.eqb x y = true <-> float_key x == float_key y.
Proof.
  intros Hx Hy. rewrite FloatAxioms.eqb_spec. unfold SFeqb.
  rewrite (compare_key _ _ Hx Hy). rewrite Qeq_alt.
  destruct (float_key x ?= float_key y); split; congruence.
Qed.

(** *** [series.min()] and [series.max()] on binary64 numbers *)

Lemma fold_min_key (t : list float) (x : float) :
  PrimFloat.is_nan x = false -> (forall v, In v t -> PrimFloat.is_nan v = false) ->
  let m := fold_left (fun m v => if PrimFloat.ltb v m then v else m) t x in
  In m (x :: t) /\ float_key m <= float_key x /\ forall v, In v t -> float_key m <= float_key v.
Proof.
  revert x. induction t as [|a t IH]; intros x Hx Ht; cbn [fold_left].
  - split; [now left|]. split; [lra|]. intros v [].
  - assert (Ha : PrimFloat.is_nan a = false) by (apply Ht; now left).
    assert (Ht' : forall v, In v t -> PrimFloat.is_nan v = false)
      by (intros v Hv; apply Ht; now right).
    destruct (PrimFloat.ltb a x) eqn:E.
    + destruct (IH a Ha Ht') as (I & L & A). apply (ltb_key _ _ Ha Hx) in E.
      split; [right; exact I|]. split; [lra|].
      intros v [<-|Hv]; [exact L | now apply A].
    + destruct (IH x Hx Ht') as (I & L & A). apply (ltb_key_false _ _ Ha Hx) in E.
      split; [destruct I as [I|I]; [now left | right; now right]|]. split; [exact L|].
      intros v [<-|Hv]; [lra | now apply A].
Qed.

Lemma fold_max_key (t : list float) (x : float) :
  PrimFloat.is_nan x = false -> (forall v, In v t -> PrimFloat.is_nan v = false) ->
  let m := fold_left (fun m v => if PrimFloat.ltb m v then v else m) t x in
  In m (x :: t) /\ float_key x <= float_key m /\ forall v, In v t -> float_key v <= float_key m.
Proof.
  revert x. induction t as [|a t IH]; intros x Hx Ht; cbn [fold_left].
  - split; [now left|]. split; [lra|]. intros v [].
  - assert (Ha : PrimFloat.is_nan a = false) by (apply Ht; now left).
    assert (Ht' : forall v, In v t -> PrimFloat.is_nan v = false)
      by (intros v Hv; apply Ht; now right).
    destruct (PrimFloat.ltb x a) eqn:E.
    + destruct (IH a Ha Ht') as (I & L & A). apply (ltb_key _ _ Hx Ha) in E.
      split; [right; exact I|]. split; [lra|].
      intros v [<-|Hv]; [exact L | now apply A].
    + destruct (IH x Hx Ht') as (I & L & A). apply (ltb_key_false _ _ Hx Ha) in E.
      split; [destruct I as [I|I]; [now left | right; now right]|]. split; [exact L|].
      intros v [<-|Hv]; [lra | now apply A].
Qed.

Lemma filter_notna_binary64 (l : list float) :
  (forall v, In v l -> PrimFloat.is_nan v = false) -> filter notna l = l.
Proof.
  induction l as [|a l IH]; intros H; cbn [filter]; [reflexivity|].
  unfold notna at 1. cbn [fisnan binary64_arith]. rewrite (H a (or_introl eq_refl)).
  cbn [negb]. rewrite IH; [reflexivity|]. intros v Hv. apply H. now right.
Qed.

Lemma series_min_key (l : list float) :
  l <> [] -> (forall v, In v l -> PrimFloat.is_nan v = false) ->
  In (series_min l) l /\ forall v, In v l -> float_key (series_min l) <= float_key v.
Proof.
  intros Hne H. unfold series_min. rewrite (filter_notna_binary64 _ H).
  destruct l as [|x t]; [contradiction|].
  destruct (@fold_min_key t x (H x (or_introl eq_refl)) (fun v Hv => H v (or_intror Hv)))
    as (I & L & A).
  split; [exact I|]. intros v [<-|Hv]; [exact L | now apply A].
Qed.

Lemma series_max_key (l : list float) :
  l <> [] -> (forall v, In v l -> PrimFloat.is_nan v = false) ->
  In (series_max l) l /\ forall v, In v l -> float_key v <= float_key (series_max l).
Proof.
  intros Hne H. unfold series_max. rewrite (filter_notna_binary64 _ H).
  destruct l as [|x t]; [contradiction|].
  destruct (@fold_max_key t x (H x (or_introl eq_refl)) (fun v Hv => H v (or_intror Hv)))
    as (I & L & A).
  split; [exact I|]. intros v [<-|Hv]; [exact L | now apply A].
Qed.

Lemma round_half_even_floor (x : Q) :
  round_half_even x
  = match x ?= inject_Z (Qfloor x) + (1 # 2) with
    | Lt => Qfloor x
    | Gt => (Qfloor x + 1)%Z
    | Eq => if Z.even (Qfloor x) then Qfloor x else (Qfloor x + 1)%Z
    end.
Proof.
  destruct x as [n d]. unfold round_half_even, Qfloor. cbn [Qnum Qden].
  pose proof (Z.div_mod n (Zpos d) ltac:(lia)) as Dm.
  pose proof (Z.mod_pos_bound n (Zpos d) ltac:(lia)) as Bm.
  set (f := (n / Zpos d)%Z) in *. set (r := (n mod Zpos d)%Z) in *. clearbody f r.
  assert (E : ((n # d) ?= inject_Z f + (1 # 2)) = (2 * r ?= Zpos d)%Z).
  { unfold Qcompare, Qplus, inject_Z. cbn [Qnum Qden]. subst n.
    destruct (Z.compare_spec (2 * r) (Zpos d)) as [C|C|C].
    - apply Z.compare_eq_iff. nia.
    - apply Z.compare_lt_iff. nia.
    - apply Z.compare_gt_iff. nia. }
  rewrite E. reflexivity.
Qed.

Lemma Qfloor_unique (m : Z) (x : Q) : inject_Z m <= x -> x < inject_Z m + 1 -> Qfloor x = m.
Proof.
  intros H1 H2. pose proof (Qfloor_le x) as F1. pose proof (Qlt_floor x) as F2.
  rewrite inject_Z_plus in F2. change (inject_Z 1) with 1 in F2.
  assert (A : (m < Qfloor x + 1)%Z).
  { rewrite Zlt_Qlt, inject_Z_plus. change (inject_Z 1) with 1. lra. }
  assert (B : (Qfloor x < m + 1)%Z).
  { rewrite Zlt_Qlt, inject_Z_plus. change (inject_Z 1) with 1. lra. }
  lia.
Qed.

Lemma inbetween_bounds (m : Z) (l : location) (x : Q) :
  inbetween m l x -> inject_Z m <= x /\ x < inject_Z m + 1.
Proof. destruct l as [|[]]; unfold inbetween; intros H; lra. Qed.

Lemma round_half_even_inbetween (m : Z) (l : location) (x : Q) :
  inbetween m l x -> round_half_even x = round_nearest_even m l.
Proof.
  intros H. destruct (@inbetween_bounds m l x H) as [B1 B2].
  rewrite round_half_even_floor, (@Qfloor_unique m x B1 B2).
  destruct l as [|[]]; unfold inbetween in H; cbn [round_nearest_even].
  - rewrite (@Qcompare_Lt x (inject_Z m + (1 # 2))) by lra. reflexivity.
  - rewrite (@Qcompare_Eq x (inject_Z m + (1 # 2))) by lra. reflexivity.
  - rewrite (@Qcompare_Lt x (inject_Z m + (1 # 2))) by lra. reflexivity.
  - rewrite (@Qcompare_Gt x (inject_Z m + (1 # 2))) by lra. reflexivity.
Qed.

Lemma round_half_even_Z (z : Z) (x : Q) : x == inject_Z z -> round_half_even x = z.
Proof. intros H. apply (@round_half_even_inbetween z loc_Exact x). exact H. Qed.

Lemma round_half_even_near (x : Q) :
  inject_Z (round_half_even x) - (1 # 2) <= x <= inject_Z (round_half_even x) + (1 # 2).
Proof.
  rewrite round_half_even_floor.
  pose proof (Qfloor_le x) as F1. pose proof (Qlt_floor x) as F2.
  rewrite inject_Z_plus in F2. change (inject_Z 1) with 1 in F2.
  destruct (Qcompare_spec x (inject_Z (Qfloor x) + (1 # 2))) as [C|C|C];
    try destruct (Z.even (Qfloor x));
    rewrite ?inject_Z_plus; change (inject_Z 1) with 1; lra.
Qed.

Lemma round_half_even_comp (x y : Q) : x == y -> round_half_even x = round_half_even y.
Proof.
  intros E. rewrite !round_half_even_floor.
  assert (F : Qfloor x = Qfloor y) by now rewrite E.
  rewrite F. rewrite E. reflexivity.
Qed.

Lemma round_half_even_mono (x y : Q) : x <= y -> (round_half_even x <= round_half_even y)%Z.
Proof.
  intros H. destruct (Qeq_dec x y) as [E|N].
  - rewrite (@round_half_even_comp x y E). lia.
  - pose proof (round_half_even_near x) as Nx. pose proof (round_half_even_near y) as Ny.
    destruct (Z_le_gt_dec (round_half_even x) (round_half_even y)) as [L|G]; [exact L|].
    exfalso. assert (G' : (round_half_even y + 1 <= round_half_even x)%Z) by lia.
    rewrite Zle_Qle, inject_Z_plus in G'. change (inject_Z 1) with 1 in G'.
    apply N. lra.
Qed.

(** Shifting right by one binary place. *)

Lemma inject_Z_xO (p : positive) : inject_Z (Zpos p~0) == 2 * inject_Z (Zpos p).
Proof. rewrite Pos2Z.inj_xO, inject_Z_mult. reflexivity. Qed.

Lemma inject_Z_xI (p : positive) : inject_Z (Zpos p~1) == 2 * inject_Z (Zpos p) + 1.
Proof. rewrite Pos2Z.inj_xI, inject_Z_plus, inject_Z_mult. reflexivity. Qed.

Lemma shr_1_inbetween (mrs : shr_record) (x : Q) :
  (0 <= shr_m mrs)%Z ->
  inbetween (shr_m mrs) (loc_of_shr_record mrs) x ->
  (0 <= shr_m (shr_1 mrs))%Z
  /\ inbetween (shr_m (shr_1 mrs)) (loc_of_shr_record (shr_1 mrs)) (x * (1 # 2)).
Proof.
  destruct mrs as [m r s]. cbn [shr_m]. intros Hm H.
  destruct m as [|[p|p|]|p]; [| | | |lia];
    destruct r, s; cbn [shr_1 shr_m loc_of_shr_record orb inbetween] in *;
    (split; [lia|]);
    rewrite ?inject_Z_xO, ?inject_Z_xI in H;
    change (inject_Z 0) with 0 in *; change (inject_Z 1) with 1 in *;
    lra.
Qed.

Lemma pow2_xO (p : positive) : pow2 (Zpos p~0) == pow2 (Zpos p) * pow2 (Zpos p).
Proof. rewrite Pos2Z.inj_xO, <- pow2_add. f_equiv. lia. Qed.

Lemma pow2_xI (p : positive) : pow2 (Zpos p~1) == 2 * (pow2 (Zpos p) * pow2 (Zpos p)).
Proof.
  rewrite Pos2Z.inj_xI, <- pow2_add, <- pow2_succ. f_equiv. lia.
Qed.

Lemma inbetween_comp (m : Z) (l : location) (x y : Q) :
  x == y -> inbetween m l x -> inbetween m l y.
Proof. intros E. destruct l as [|[]]; unfold inbetween; rewrite E; tauto. Qed.

Lemma iter_shr_1_inbetween (p : positive) (mrs : shr_record) (x : Q) :
  (0 <= shr_m mrs)%Z ->
  inbetween (shr_m mrs) (loc_of_shr_record mrs) x ->
  (0 <= shr_m (iter_pos shr_1 p mrs))%Z
  /\ inbetween (shr_m (iter_pos shr_1 p mrs)) (loc_of_shr_record (iter_pos shr_1 p mrs))
       (x / pow2 (Zpos p)).
Proof.
  revert mrs x. induction p as [p IH|p IH|]; intros mrs x Hm H; cbn [iter_pos].
  - destruct (@shr_1_inbetween mrs x Hm H) as [H1 H2].
    destruct (IH _ _ H1 H2) as [H3 H4]. destruct (IH _ _ H3 H4) as [H5 H6].
    split; [exact H5|].
    assert (E : x / pow2 (Zpos p~1) == x * (1 # 2) / pow2 (Zpos p) / pow2 (Zpos p)).
    { rewrite pow2_xI. pose proof (pow2_pos (Zpos p)). field. lra. }
    eapply inbetween_comp; [symmetry; exact E | exact H6].
  - destruct (IH _ _ Hm H) as [H3 H4]. destruct (IH _ _ H3 H4) as [H5 H6].
    split; [exact H5|].
    assert (E : x / pow2 (Zpos p~0) == x / pow2 (Zpos p) / pow2 (Zpos p)).
    { rewrite pow2_xO. pose proof (pow2_pos (Zpos p)). field. lra. }
    eapply inbetween_comp; [symmetry; exact E | exact H6].
  - destruct (@shr_1_inbetween mrs x Hm H) as [H1 H2]. split; [exact H1|].
    assert (E : x / pow2 1 == x * (1 # 2)) by (rewrite pow2_1; field).
    eapply inbetween_comp; [symmetry; exact E | exact H2].
Qed.

Lemma shr_record_of_loc_m (m : Z) (l : location) : shr_m (shr_record_of_loc m l) = m.
Proof. now destruct l as [|[]]. Qed.

Lemma loc_of_shr_record_of_loc (m : Z) (l : location) :
  loc_of_shr_record (shr_record_of_loc m l) = l.
Proof. now destruct l as [|[]]. Qed.

(** [shr_fexp] brings a mantissa to the exponent [c]. *)
Lemma shr_inbetween (m e n : Z) (l : location) (X : Q) :
  (0 <= m)%Z -> (0 <= n)%Z -> inbetween m l (X / pow2 e) ->
  let '(mrs, e') := shr (shr_record_of_loc m l) e n in
  e' = (e + n)%Z /\ (0 <= shr_m mrs)%Z
  /\ inbetween (shr_m mrs) (loc_of_shr_record mrs) (X / pow2 e').
Proof.
  intros Hm Hn H. unfold shr. destruct n as [|p|p]; [| |lia].
  - rewrite shr_record_of_loc_m, loc_of_shr_record_of_loc. split; [lia|]. split; assumption.
  - assert (H0 : inbetween (shr_m (shr_record_of_loc m l))
                   (loc_of_shr_record (shr_record_of_loc m l)) (X / pow2 e)).
    { now rewrite shr_record_of_loc_m, loc_of_shr_record_of_loc. }
    assert (Hm0 : (0 <= shr_m (shr_record_of_loc m l))%Z) by now rewrite shr_record_of_loc_m.
    destruct (@iter_shr_1_inbetween p _ _ Hm0 H0) as [H1 H2].
    split; [reflexivity|]. split; [exact H1|].
    eapply inbetween_comp; [|exact H2].
    rewrite pow2_add. pose proof (pow2_pos e). pose proof (pow2_pos (Zpos p)). field. lra.
Qed.

(** *** [binary_round_aux] rounds to nearest, ties to even *)

Lemma unscale (X : Q) (e : Z) : X == X / pow2 e * pow2 e.
Proof. pose proof (pow2_pos e). field. lra. Qed.

Lemma scaled_le (a X : Q) (e : Z) : a <= X / pow2 e -> a * pow2 e <= X.
Proof.
  intros H. pose proof (unscale X e) as E. pose proof (pow2_pos e) as P.
  assert (L : a * pow2 e <= X / pow2 e * pow2 e) by (apply Qmult_le_compat_r; lra).
  rewrite <- E in L. exact L.
Qed.

Lemma scaled_lt (a X : Q) (e : Z) : X / pow2 e < a -> X < a * pow2 e.
Proof.
  intros H. pose proof (unscale X e) as E. pose proof (pow2_pos e) as P.
  assert (L : X / pow2 e * pow2 e < a * pow2 e) by (apply Qmult_lt_compat_r; lra).
  rewrite <- E in L. exact L.
Qed.

Lemma scale_le (a X : Q) (e : Z) : a * pow2 e <= X -> a <= X / pow2 e.
Proof. intros H. apply Qle_shift_div_l; [apply pow2_pos | exact H]. Qed.

Lemma scale_lt (a X : Q) (e : Z) : X < a * pow2 e -> X / pow2 e < a.
Proof. intros H. apply Qlt_shift_div_r; [apply pow2_pos | exact H]. Qed.

Lemma fexp_53 (k : Z) : fexp prec emax k = Z.max (k - 53) (-1074).
Proof. reflexivity. Qed.

Lemma fexp_digits (m e c : Z) (l : location) (X : Q) :
  (0 <= m)%Z -> inbetween m l (X / pow2 e) -> cexp_ok c X -> (e <= c)%Z ->
  fexp prec emax (Zdigits2 m + e) = c.
Proof.
  intros Hm H (C1 & C2 & C3) Hec. rewrite fexp_53.
  destruct (@inbetween_bounds m l _ H) as [B1 B2].
  apply scaled_le in B1. apply scaled_lt in B2.
  destruct m as [|p|p]; [| |lia].
  - cbn [Zdigits2]. change (inject_Z 0 + 1) with 1 in B2. rewrite Qmult_1_l in B2.
    destruct (Z_le_gt_dec c (-1074)) as [L|G]; [lia|]. exfalso.
    assert (P : pow2 (c + 53 - 1) < pow2 e) by (eapply Qle_lt_trans; [apply C3; lia | exact B2]).
    apply pow2_lt_inv in P. lia.
  - cbn [Zdigits2]. set (d := Zpos (digits2_pos p)).
    destruct (digits2_pow2 p) as [D1 D2]. fold d in D1, D2.
    assert (L1 : pow2 (d - 1 + e) <= X).
    { rewrite pow2_add. eapply Qle_trans; [|exact B1].
      apply Qmult_le_compat_r; [exact D1 | apply Qlt_le_weak, pow2_pos]. }
    assert (L2 : X < pow2 (d + e)).
    { rewrite pow2_add. eapply Qlt_le_trans; [exact B2|].
      apply Qmult_le_compat_r; [|apply Qlt_le_weak, pow2_pos].
      pose proof (digits2_bounds p) as [_ Hb]. fold d in Hb.
      rewrite pow2_Z by (unfold d; lia).
      change (inject_Z (Zpos p) + 1) with (inject_Z (Zpos p) + inject_Z 1).
      rewrite <- inject_Z_plus, <- Zle_Qle. lia. }
    assert (U : (d - 1 + e < c + 53)%Z).
    { apply pow2_lt_inv. eapply Qle_lt_trans; [exact L1 | exact C2]. }
    destruct (Z_le_gt_dec c (-1074)) as [L|G]; [lia|].
    assert (V : (c + 53 - 1 < d + e)%Z).
    { apply pow2_lt_inv. eapply Qle_lt_trans; [apply C3; lia | exact L2]. }
    lia.
Qed.

Lemma digits2_le (p : positive) (k : Z) : (Zpos p < 2 ^ k)%Z -> (0 <= k)%Z ->
  (Zpos (digits2_pos p) <= k)%Z.
Proof.
  intros H Hk. pose proof (digits2_bounds p) as [B _].
  assert (L : (2 ^ (Zpos (digits2_pos p) - 1) < 2 ^ k)%Z) by lia.
  apply Z.pow_lt_mono_r_iff in L; lia.
Qed.

Lemma shr_1_zero (mrs : shr_record) : shr_m mrs = 0%Z -> shr_m (shr_1 mrs) = 0%Z.
Proof. destruct mrs as [m r s]. cbn [shr_m]. intros ->. reflexivity. Qed.

Lemma iter_shr_1_zero (p : positive) (mrs : shr_record) :
  shr_m mrs = 0%Z -> shr_m (iter_pos shr_1 p mrs) = 0%Z.
Proof.
  revert mrs. induction p as [p IH|p IH|]; intros mrs H; cbn [iter_pos].
  - apply IH, IH, shr_1_zero, H.
  - apply IH, IH, H.
  - apply shr_1_zero, H.
Qed.

Lemma binary_round_aux_value (sx : bool) (m e c : Z) (l : location) (X : Q) :
  (0 <= m)%Z -> inbetween m l (X / pow2 e) -> cexp_ok c X -> (e <= c)%Z ->
  let r := binary_round_aux prec emax sx m e l in
  let z := round_half_even (X / pow2 c) in
  (z = 0%Z /\ r = S754_zero sx)
  \/ ((0 < z)%Z
      /\ exists (m' : positive) (e' : Z),
           inject_Z (Zpos m') * pow2 e' == inject_Z z * pow2 c
           /\ (r = S754_finite sx m' e' \/ r = S754_infinity sx)).
Proof.
  intros Hm H Hc Hec. cbv zeta. set (z := round_half_even (X / pow2 c)).
  remember (binary_round_aux prec emax sx m e l) as r eqn:Er.
  pose proof (@fexp_digits m e c l X Hm H Hc Hec) as Hf.
  destruct Hc as (C1 & C2 & C3).
  unfold binary_round_aux, shr_fexp in Er. rewrite Hf in Er.
  pose proof (@shr_inbetween m e (c - e) l X Hm ltac:(lia) H) as S1.
  destruct (shr (shr_record_of_loc m l) e (c - e)) as [mrs' e'] eqn:E1.
  destruct S1 as (Ee' & Hm' & H').
  assert (Ee : e' = c) by lia. clear Ee'. subst e'.
  assert (Hz : round_nearest_even (shr_m mrs') (loc_of_shr_record mrs') = z).
  { symmetry. apply round_half_even_inbetween. exact H'. }
  rewrite Hz in Er.
  destruct (@inbetween_bounds _ _ _ H') as [B1 B2].
  assert (Z0 : (0 <= z)%Z).
  { unfold z. rewrite <- (@round_half_even_Z 0%Z 0 ltac:(reflexivity)).
    apply round_half_even_mono. eapply Qle_trans; [|exact B1].
    change 0 with (inject_Z 0). rewrite <- Zle_Qle. exact Hm'. }
  assert (Z1 : (z <= 2 ^ 53)%Z).
  { unfold z. rewrite <- (@round_half_even_Z (2 ^ 53)%Z (pow2 53)) by (apply pow2_Z; lia).
    apply round_half_even_mono. apply Qlt_le_weak, scale_lt.
    rewrite <- pow2_add. rewrite Z.add_comm. exact C2. }
  clearbody z. clear Hz.
  destruct (Z.eq_dec z 0) as [E0|N0].
  - left. split; [exact E0|]. subst r. rewrite E0. cbn [Zdigits2 Z.add].
    unfold shr. destruct (fexp prec emax c - c)%Z as [|n|n]; try reflexivity.
    cbn [shr_record_of_loc].
    rewrite (@iter_shr_1_zero n {| shr_m := 0; shr_r := false; shr_s := false |} eq_refl).
    reflexivity.
  - right. split; [lia|].
    destruct z as [|pz|pz] eqn:Ez; [lia| |lia]. cbn [Zdigits2] in Er.
    destruct (Z.eq_dec (Zpos pz) (2 ^ 53)) as [E53|N53].
    + exists (4503599627370496%positive), (c + 1)%Z. split.
      * rewrite E53. rewrite pow2_succ.
        change (inject_Z (2 ^ 53)) with (2 * inject_Z 4503599627370496). ring.
      * assert (Ep : pz = 9007199254740992%positive) by (apply Pos2Z.inj; exact E53).
        subst pz. subst r. rewrite fexp_53.
        change (Zpos (digits2_pos 9007199254740992)) with 54%Z.
        replace (Z.max (54 + c - 53) (-1074) - c)%Z with 1%Z by lia.
        cbn [shr shr_record_of_loc iter_pos shr_1 shr_m].
        destruct (c + 1 <=? emax - prec)%Z; [left | right]; reflexivity.
    + exists pz, c. split; [reflexivity|].
      assert (D : (Zpos (digits2_pos pz) <= 53)%Z) by (apply digits2_le; lia).
      subst r. rewrite fexp_53. unfold shr.
      destruct (Z.max (Zpos (digits2_pos pz) + c - 53) (-1074) - c)%Z as [|n|n] eqn:En;
        [| lia |]; cbn [shr_record_of_loc shr_m];
        (destruct (c <=? emax - prec)%Z; [left | right]; reflexivity).
Qed.

Lemma rounded_nonneg (c : Z) (x : Q) : 0 <= x -> 0 <= rounded c x.
Proof.
  intros H. unfold rounded. apply Qmult_le_0_compat; [|apply Qlt_le_weak, pow2_pos].
  change 0 with (inject_Z 0). rewrite <- Zle_Qle.
  rewrite <- (@round_half_even_Z 0%Z 0 ltac:(reflexivity)).
  apply round_half_even_mono. apply scale_le. lra.
Qed.

Lemma rounded_upper (c : Z) (x : Q) : x < pow2 (c + 53) -> rounded c x <= pow2 (c + 53).
Proof.
  intros H. unfold rounded. rewrite (Z.add_comm c 53), pow2_add.
  apply Qmult_le_compat_r; [|apply Qlt_le_weak, pow2_pos].
  rewrite (@pow2_Z 53 ltac:(lia)). rewrite <- Zle_Qle.
  rewrite <- (@round_half_even_Z (2 ^ 53)%Z (pow2 53) (@pow2_Z 53 ltac:(lia))).
  apply round_half_even_mono. apply Qlt_le_weak, scale_lt.
  rewrite <- pow2_add, Z.add_comm. exact H.
Qed.

Lemma rounded_lower (c : Z) (x : Q) : pow2 (c + 53 - 1) <= x -> pow2 (c + 53 - 1) <= rounded c x.
Proof.
  intros H. unfold rounded. replace (c + 53 - 1)%Z with (52 + c)%Z in * by lia.
  rewrite pow2_add. apply Qmult_le_compat_r; [|apply Qlt_le_weak, pow2_pos].
  rewrite (@pow2_Z 52 ltac:(lia)). rewrite <- Zle_Qle.
  rewrite <- (@round_half_even_Z (2 ^ 52)%Z (pow2 52) (@pow2_Z 52 ltac:(lia))).
  apply round_half_even_mono. apply scale_le. rewrite <- pow2_add. exact H.
Qed.

Lemma rounded_mono (cx cy : Z) (x y : Q) :
  cexp_ok cx x -> cexp_ok cy y -> x <= y -> rounded cx x <= rounded cy y.
Proof.
  intros (A1 & A2 & A3) (B1 & B2 & B3) H.
  destruct (Z.lt_trichotomy cx cy) as [L|[E|G]].
  - eapply Qle_trans; [apply rounded_upper; exact A2|].
    eapply Qle_trans; [|apply rounded_lower; apply B3; lia].
    apply pow2_le. lia.
  - subst cy. unfold rounded. apply Qmult_le_compat_r; [|apply Qlt_le_weak, pow2_pos].
    rewrite <- Zle_Qle. apply round_half_even_mono.
    apply scale_le. rewrite <- unscale. exact H.
  - exfalso. assert (P : pow2 (cx + 53 - 1) < pow2 (cy + 53)).
    { eapply Qle_lt_trans; [apply A3; lia|]. eapply Qle_lt_trans; [exact H | exact B2]. }
    apply pow2_lt_inv in P. lia.
Qed.

Lemma rounds_to_mono (x y r s : Q) : rounds_to x r -> rounds_to y s -> x <= y -> r <= s.
Proof.
  intros [(X0 & R0)|[(Xp & c & Hc & R)|(Xn & c & Hc & R)]]
         [(Y0 & S0)|[(Yp & d & Hd & S)|(Yn & d & Hd & S)]] H;
    try (exfalso; lra).
  - lra.
  - pose proof (@rounded_nonneg d y ltac:(lra)). lra.
  - pose proof (@rounded_mono c d x y Hc Hd H). lra.
  - pose proof (@rounded_nonneg c (- x) ltac:(lra)). lra.
  - pose proof (@rounded_nonneg c (- x) ltac:(lra)).
    pose proof (@rounded_nonneg d y ltac:(lra)). lra.
  - pose proof (@rounded_mono d c (- y) (- x) Hd Hc ltac:(lra)). lra.
Qed.

Lemma rounds_to_comp (x x' r r' : Q) : x == x' -> r == r' -> rounds_to x r -> rounds_to x' r'.
Proof.
  intros Ex Er [(X0 & R0)|[(Xp & c & Hc & R)|(Xn & c & Hc & R)]].
  - left. split; lra.
  - right; left. split; [lra|]. exists c. split.
    + destruct Hc as (A1 & A2 & A3). split; [exact A1|]. split; [lra|].
      intros L. specialize (A3 L). lra.
    + rewrite <- Er, R. unfold rounded.
      rewrite (@round_half_even_comp (x / pow2 c) (x' / pow2 c)) by (now rewrite Ex).
      reflexivity.
  - right; right. split; [lra|]. exists c. split.
    + destruct Hc as (A1 & A2 & A3). split; [exact A1|]. split; [lra|].
      intros L. specialize (A3 L). lra.
    + rewrite <- Er, R. unfold rounded.
      rewrite (@round_half_even_comp (- x / pow2 c) (- x' / pow2 c)) by (now rewrite Ex).
      reflexivity.
Qed.

(** A valid binary64 number is its own rounding. *)

Lemma cexp_ok_bounded (m : positive) (e : Z) :
  bounded prec emax m e = true -> cexp_ok e (SFmag m e).
Proof.
  intros B. destruct (@bounded_facts m e B) as (R & D & N).
  split; [lia|]. split.
  - eapply Qlt_le_trans; [apply SFmag_upper|]. apply pow2_le. lia.
  - intros L. eapply Qle_trans; [|apply SFmag_lower]. apply pow2_le. rewrite (N L). lia.
Qed.

Lemma rounded_SFmag (m : positive) (e : Z) : rounded e (SFmag m e) == SFmag m e.
Proof.
  unfold rounded.
  rewrite (@round_half_even_Z (Zpos m) (SFmag m e / pow2 e)).
  - symmetry. apply SFmag_pow2.
  - rewrite SFmag_pow2. pose proof (pow2_pos e). field. lra.
Qed.

Lemma rounds_to_exact (f : spec_float) :
  valid_binary f = true -> rounds_to (SF2Q f) (SF2Q f).
Proof.
  intros V. destruct f as [s|s| |s m e]; try (left; split; reflexivity).
  cbn [valid_binary] in V. cbn [SF2Q]. pose proof (SFmag_pos m e) as P.
  destruct s.
  - right; right. split; [lra|]. exists e. split.
    + destruct (@cexp_ok_bounded m e V) as (A1 & A2 & A3).
      split; [exact A1|]. split; [lra|]. intros L. specialize (A3 L). lra.
    + unfold rounded.
      rewrite (@round_half_even_comp (- - SFmag m e / pow2 e) (SFmag m e / pow2 e))
        by (pose proof (pow2_pos e); field; lra).
      fold (rounded e (SFmag m e)). rewrite rounded_SFmag. reflexivity.
  - right; left. split; [lra|]. exists e. split; [now apply cexp_ok_bounded|].
    now rewrite rounded_SFmag.
Qed.

(** Rounding fixes what binary64 holds, so it is determined. *)
Lemma rounds_to_unique (x r s : Q) : rounds_to x r -> rounds_to x s -> r == s.
Proof.
  intros H1 H2.
  pose proof (@rounds_to_mono x x r s H1 H2 ltac:(lra)).
  pose proof (@rounds_to_mono x x s r H2 H1 ltac:(lra)). lra.
Qed.

Lemma cexp_ok_digits (p : positive) (e : Z) :
  cexp_ok (fexp prec emax (Zpos (digits2_pos p) + e)) (inject_Z (Zpos p) * pow2 e).
Proof.
  rewrite fexp_53. unfold cexp_ok.
  pose proof (SFmag_upper p e) as U. pose proof (SFmag_lower p e) as L.
  rewrite SFmag_pow2 in U, L.
  split; [lia|]. split.
  - eapply Qlt_le_trans; [exact U|]. apply pow2_le. lia.
  - intros G. eapply Qle_trans; [|exact L]. apply pow2_le. lia.
Qed.

(** The outcome of [binary_round_aux], as a rounding of the exact value. *)
Lemma binary_round_aux_rounds (s : bool) (m e c : Z) (l : location) (X : Q) :
  (0 <= m)%Z -> inbetween m l (X / pow2 e) -> cexp_ok c X -> (e <= c)%Z -> 0 < X ->
  finite_or_zero (binary_round_aux prec emax s m e l) = true ->
  rounds_to (if s then - X else X) (SF2Q (binary_round_aux prec emax s m e l)).
Proof.
  intros Hm H Hc Hec HX Hfz.
  destruct (@binary_round_aux_value s m e c l X Hm H Hc Hec)
    as [(Z0 & R)|(Zp & m' & e' & V & [R|R])].
  - rewrite R. cbn [SF2Q]. destruct s.
    + right; right. split; [lra|]. exists c. split.
      * destruct Hc as (A1 & A2 & A3). split; [exact A1|]. split; [lra|].
        intros L. specialize (A3 L). lra.
      * unfold rounded.
        rewrite (@round_half_even_comp (- - X / pow2 c) (X / pow2 c))
          by (pose proof (pow2_pos c); field; lra).
        rewrite Z0. change (inject_Z 0) with 0. ring.
    + right; left. split; [exact HX|]. exists c. split; [exact Hc|].
      unfold rounded. rewrite Z0. change (inject_Z 0) with 0. ring.
  - rewrite R. cbn [SF2Q]. destruct s.
    + right; right. split; [lra|]. exists c. split.
      * destruct Hc as (A1 & A2 & A3). split; [exact A1|]. split; [lra|].
        intros L. specialize (A3 L). lra.
      * rewrite SFmag_pow2, V. unfold rounded.
        rewrite (@round_half_even_comp (- - X / pow2 c) (X / pow2 c))
          by (pose proof (pow2_pos c); field; lra).
        reflexivity.
    + right; left. split; [exact HX|]. exists c. split; [exact Hc|].
      rewrite SFmag_pow2, V. reflexivity.
  - rewrite R in Hfz. discriminate.
Qed.

(** *** The four operations round the exact result *)

Lemma cexp_ok_comp (c : Z) (x y : Q) : x == y -> cexp_ok c x -> cexp_ok c y.
Proof.
  intros E (A1 & A2 & A3). split; [exact A1|]. split; [lra|].
  intros L. specialize (A3 L). lra.
Qed.

Lemma cexp_ok_binade (d : Z) (X : Q) :
  pow2 (d - 1) <= X -> X < pow2 d -> cexp_ok (fexp prec emax d) X.
Proof.
  intros L U. rewrite fexp_53. split; [lia|]. split.
  - eapply Qlt_le_trans; [exact U|]. apply pow2_le. lia.
  - intros G. eapply Qle_trans; [|exact L]. apply pow2_le. lia.
Qed.

Lemma inbetween_exact (m : Z) (e : Z) (X : Q) :
  X == inject_Z m * pow2 e -> inbetween m loc_Exact (X / pow2 e).
Proof.
  intros E. unfold inbetween. rewrite E. pose proof (pow2_pos e). field. lra.
Qed.

Lemma digits2_ge_53 (p : positive) : (2 ^ 52 <= Zpos p)%Z -> (53 <= Zpos (digits2_pos p))%Z.
Proof.
  intros H. pose proof (digits2_bounds p) as [_ U].
  assert (L : (2 ^ 52 < 2 ^ Zpos (digits2_pos p))%Z) by lia.
  apply Z.pow_lt_mono_r_iff in L; lia.
Qed.

Lemma bounded_normal (m : positive) (e : Z) :
  bounded prec emax m e = true -> (-1074 < e)%Z -> (2 ^ 52 <= Zpos m)%Z.
Proof.
  intros B L. destruct (@bounded_facts m e B) as (_ & _ & N).
  pose proof (digits2_bounds m) as [D _]. rewrite (N L) in D. exact D.
Qed.

Lemma SFmul_rounds (x y : spec_float) :
  valid_binary x = true -> valid_binary y = true ->
  finite_or_zero (SFmul prec emax x y) = true ->
  finite_or_zero x = true /\ finite_or_zero y = true
  /\ rounds_to (SF2Q x * SF2Q y) (SF2Q (SFmul prec emax x y)).
Proof.
  intros Vx Vy.
  destruct x as [sx|sx| |sx mx ex], y as [sy|sy| |sy my ey];
    cbn [SFmul finite_or_zero]; try discriminate; intros Hfz;
    (split; [reflexivity|]); (split; [reflexivity|]);
    try (left; split; cbn [SF2Q]; ring).
  cbn [valid_binary] in Vx, Vy.
  set (X := SFmag mx ex * SFmag my ey).
  assert (EX : X == inject_Z (Zpos (mx * my)) * pow2 (ex + ey)).
  { unfold X. rewrite !SFmag_pow2, Pos2Z.inj_mul, inject_Z_mult, pow2_add. ring. }
  assert (HX : 0 < X).
  { unfold X. apply Qmult_lt_0_compat; apply SFmag_pos. }
  assert (Hc : cexp_ok (fexp prec emax (Zpos (digits2_pos (mx * my)) + (ex + ey))) X).
  { apply (@cexp_ok_comp _ (inject_Z (Zpos (mx * my)) * pow2 (ex + ey)) X);
      [symmetry; exact EX | apply cexp_ok_digits]. }
  assert (Hec : (ex + ey <= fexp prec emax (Zpos (digits2_pos (mx * my)) + (ex + ey)))%Z).
  { rewrite fexp_53.
    destruct (@bounded_facts mx ex Vx) as (Rx & _ & _).
    destruct (@bounded_facts my ey Vy) as (Ry & _ & _).
    destruct (Z_le_gt_dec ex (-1074)) as [Lx|Gx];
      [destruct (Z_le_gt_dec ey (-1074)) as [Ly|Gy]; [lia|]|].
    - pose proof (@bounded_normal my ey Vy ltac:(lia)) as N.
      assert (53 <= Zpos (digits2_pos (mx * my)))%Z by (apply digits2_ge_53; nia). lia.
    - pose proof (@bounded_normal mx ex Vx ltac:(lia)) as N.
      assert (53 <= Zpos (digits2_pos (mx * my)))%Z by (apply digits2_ge_53; nia). lia. }
  pose proof (@binary_round_aux_rounds (xorb sx sy) (Zpos (mx * my)) (ex + ey) _ loc_Exact X
                ltac:(lia) (@inbetween_exact _ _ X EX) Hc Hec HX Hfz) as R.
  eapply rounds_to_comp; [|reflexivity|exact R].
  cbn [SF2Q]. unfold X. destruct sx, sy; cbn [xorb]; ring.
Qed.

(** Division. *)

Lemma new_location_cases (n r : Z) :
  new_location n r
  = if (r =? 0)%Z then loc_Exact
    else if Z.even n then loc_Inexact (2 * r ?= n)%Z
    else loc_Inexact match (2 * r + 1 ?= n)%Z with Gt => Gt | _ => Lt end.
Proof.
  unfold new_location, new_location_even, new_location_odd.
  destruct (Z.even n); destruct r; reflexivity.
Qed.

Lemma new_location_inbetween (n q r : Z) :
  (0 < n)%Z -> (0 <= r < n)%Z ->
  inbetween q (new_location n r) (inject_Z q + inject_Z r / inject_Z n).
Proof.
  intros Hn Hr.
  assert (Pn : 0 < inject_Z n) by (change 0 with (inject_Z 0); rewrite <- Zlt_Qlt; lia).
  set (f := inject_Z r / inject_Z n).
  assert (Ef : f * inject_Z n == inject_Z r) by (unfold f; field; lra).
  assert (H2 : forall c, (2 * r ?= n)%Z = c -> (f ?= 1 # 2) = c).
  { intros c Hc.
    assert (E2 : inject_Z (2 * r) == 2 * f * inject_Z n)
      by (rewrite inject_Z_mult; change (inject_Z 2) with 2; rewrite <- Ef; ring).
    destruct c.
    - apply Z.compare_eq_iff in Hc. apply Qcompare_Eq.
      assert (A : inject_Z (2 * r) == inject_Z n) by (rewrite Hc; reflexivity).
      rewrite E2 in A. 
      assert (B : (2 * f - 1) * inject_Z n == 0) by lra.
      apply Qmult_integral in B. destruct B as [B|B]; lra.
    - assert (Hc' : (2 * r < n)%Z) by (apply Z.compare_lt_iff; exact Hc).
      clear Hc. rename Hc' into Hc. apply Qcompare_Lt.
      rewrite Zlt_Qlt, E2 in Hc.
      apply Qnot_le_lt. intros L.
      assert (B : inject_Z n <= 2 * f * inject_Z n).
      { rewrite <- (Qmult_1_l (inject_Z n)) at 1.
        apply Qmult_le_compat_r; lra. }
      lra.
    - assert (Hc' : (n < 2 * r)%Z) by (apply Z.compare_gt_iff; exact Hc).
      clear Hc. rename Hc' into Hc. apply Qcompare_Gt.
      rewrite Zlt_Qlt, E2 in Hc.
      apply Qnot_le_lt. intros L.
      assert (B : 2 * f * inject_Z n <= inject_Z n).
      { rewrite <- (Qmult_1_l (inject_Z n)) at 2.
        apply Qmult_le_compat_r; lra. }
      lra. }
  assert (F0 : r = 0%Z -> f == 0).
  { intros ->. unfold f. change (inject_Z 0) with 0. unfold Qdiv. ring. }
  assert (F1 : (0 < r)%Z -> 0 < f /\ f < 1).
  { intros Pr. split.
    - unfold f. apply Qlt_shift_div_l; [exact Pn|]. rewrite Qmult_0_l.
      change 0 with (inject_Z 0). rewrite <- Zlt_Qlt. exact Pr.
    - unfold f. apply Qlt_shift_div_r; [exact Pn|]. rewrite Qmult_1_l.
      rewrite <- Zlt_Qlt. lia. }
  rewrite new_location_cases.
  destruct (Z.eqb_spec r 0) as [E0|N0].
  - unfold inbetween; rewrite (F0 E0); ring.
  - destruct (F1 ltac:(lia)) as [Fa Fb].
    destruct (Z.even n) eqn:Ev.
    + pose proof (H2 _ eq_refl) as C.
      destruct (2 * r ?= n)%Z; unfold inbetween.
      * apply Qeq_alt in C. lra.
      * apply Qlt_alt in C. lra.
      * apply Qgt_alt in C. lra.
    + assert (Od : Z.odd n = true) by (rewrite <- Z.negb_even, Ev; reflexivity).
      apply Z.odd_spec in Od. destruct Od as [k Ek].
      destruct (Z.compare_spec (2 * r + 1) n) as [C|C|C]; unfold inbetween.
      * assert (C' : (2 * r ?= n)%Z = Lt) by (apply Z.compare_lt_iff; lia).
        apply H2 in C'. apply Qlt_alt in C'. lra.
      * assert (C' : (2 * r ?= n)%Z = Lt) by (apply Z.compare_lt_iff; lia).
        apply H2 in C'. apply Qlt_alt in C'. lra.
      * assert (C' : (2 * r ?= n)%Z = Gt) by (apply Z.compare_gt_iff; lia).
        apply H2 in C'. apply Qgt_alt in C'. lra.
Qed.

Lemma SFdiv_rounds (sx sy : bool) (mx my : positive) (ex ey : Z) :
  bounded prec emax mx ex = true -> bounded prec emax my ey = true ->
  let r := SFdiv prec emax (S754_finite sx mx ex) (S754_finite sy my ey) in
  finite_or_zero r = true ->
  rounds_to (SF2Q (S754_finite sx mx ex) / SF2Q (S754_finite sy my ey)) (SF2Q r).
Proof.
  intros Vx Vy. cbv zeta. cbn [SFdiv]. unfold SFdiv_core_binary.
  cbn [Zdigits2].
  set (d1 := Zpos (digits2_pos mx)). set (d2 := Zpos (digits2_pos my)).
  set (k := (d1 + ex - (d2 + ey))%Z).
  set (e' := Z.min (fexp prec emax k) (ex - ey)).
  set (s := (ex - ey - e')%Z).
  assert (Hs : (0 <= s)%Z) by (unfold s, e'; lia).
  set (m' := match s with Zpos _ => Z.shiftl (Zpos mx) s | Z0 => Zpos mx | Zneg _ => 0%Z end).
  assert (Em : m' = (Zpos mx * 2 ^ s)%Z).
  { unfold m'. destruct s as [|p|p]; [lia | | lia]. now rewrite Z.shiftl_mul_pow2 by lia. }
  clearbody m'.
  pose proof (Z_div_mod m' (Zpos my) ltac:(lia)) as Dm.
  destruct (Z.div_eucl m' (Zpos my)) as [q r]. destruct Dm as [Dm Br].
  assert (Hq : (0 <= q)%Z) by nia.
  set (X := SFmag mx ex / SFmag my ey).
  pose proof (SFmag_pos mx ex) as Px. pose proof (SFmag_pos my ey) as Py.
  assert (HX : 0 < X) by (unfold X; apply Qlt_shift_div_l; lra).
  assert (Pmy : 0 < inject_Z (Zpos my)) by (change 0 with (inject_Z 0); rewrite <- Zlt_Qlt; lia).
  assert (EX : X / pow2 e' == inject_Z q + inject_Z r / inject_Z (Zpos my)).
  { assert (E1 : inject_Z m' == inject_Z (Zpos my) * inject_Z q + inject_Z r).
    { rewrite Dm, inject_Z_plus, inject_Z_mult. reflexivity. }
    assert (E2 : inject_Z m' == inject_Z (Zpos mx) * pow2 s).
    { rewrite Em, inject_Z_mult, (@pow2_Z s Hs). reflexivity. }
    assert (E3 : pow2 ex == pow2 s * pow2 ey * pow2 e').
    { rewrite <- !pow2_add. f_equiv. unfold s. lia. }
    unfold X. rewrite !SFmag_pow2, E3.
    pose proof (pow2_pos ey). pose proof (pow2_pos e'). pose proof (pow2_pos s).
    transitivity (inject_Z m' / inject_Z (Zpos my)).
    - rewrite E2. field. repeat split; lra.
    - rewrite E1. field. lra. }
  assert (Hin : inbetween q (new_location (Zpos my) r) (X / pow2 e')).
  { eapply inbetween_comp; [symmetry; exact EX|].
    apply new_location_inbetween; lia. }
  assert (LX : pow2 (k - 1) <= X /\ X < pow2 (k + 1)).
  { pose proof (SFmag_lower mx ex) as L1. pose proof (SFmag_upper mx ex) as U1.
    pose proof (SFmag_lower my ey) as L2. pose proof (SFmag_upper my ey) as U2.
    fold d1 in L1, U1. fold d2 in L2, U2.
    assert (Ea : pow2 (d1 - 1 + ex) == pow2 (k - 1) * pow2 (d2 + ey)).
    { rewrite <- pow2_add. f_equiv. unfold k. lia. }
    assert (Eb : pow2 (d1 + ex) == pow2 (k + 1) * pow2 (d2 - 1 + ey)).
    { rewrite <- pow2_add. f_equiv. unfold k. lia. }
    pose proof (pow2_pos (k - 1)) as Pk1. pose proof (pow2_pos (k + 1)) as Pk2.
    split.
    - unfold X. apply Qle_shift_div_l; [exact Py|].
      apply Qle_trans with (pow2 (k - 1) * pow2 (d2 + ey)); [|lra].
      apply Qmult_le_l; [exact Pk1 | lra].
    - unfold X. apply Qlt_shift_div_r; [exact Py|].
      apply Qlt_le_trans with (pow2 (k + 1) * pow2 (d2 - 1 + ey)); [lra|].
      apply Qmult_le_l; [exact Pk2 | lra]. }
  destruct LX as [LX UX].
  assert (Hc : exists c, cexp_ok c X /\ (e' <= c)%Z).
  { destruct (Qlt_le_dec X (pow2 k)) as [Lk|Gk].
    - exists (fexp prec emax k). split; [apply cexp_ok_binade; assumption | unfold e'; lia].
    - exists (fexp prec emax (k + 1)). split.
      + apply cexp_ok_binade; [|exact UX]. now replace (k + 1 - 1)%Z with k by lia.
      + unfold e'. rewrite !fexp_53. lia. }
  destruct Hc as (c & Hc & Hec).
  intros Hfz.
  pose proof (@binary_round_aux_rounds (xorb sx sy) q e' c _ X Hq Hin Hc Hec HX Hfz) as R.
  eapply rounds_to_comp; [|reflexivity|exact R].
  cbn [SF2Q]. unfold X. destruct sx, sy; cbn [xorb]; field; lra.
Qed.

(** Addition and subtraction. *)

Lemma iter_xO (m d : positive) : Zpos (Pos.iter xO m d) = (Zpos m * 2 ^ Zpos d)%Z.
Proof.
  induction d as [|d IH] using Pos.peano_ind.
  - cbn [Pos.iter]. rewrite Pos2Z.inj_xO. lia.
  - rewrite Pos.iter_succ, Pos2Z.inj_xO, IH, Pos2Z.inj_succ, Z.pow_succ_r by lia. lia.
Qed.

Lemma shl_align_value (m : positive) (e e' : Z) :
  let '(mz, ez) := shl_align m e e' in
  inject_Z (Zpos mz) * pow2 ez == inject_Z (Zpos m) * pow2 e
  /\ (ez <= e')%Z /\ (ez <= e)%Z /\ ((e' <= e)%Z -> ez = e').
Proof.
  unfold shl_align. destruct (e' - e)%Z as [|d|d] eqn:E.
  - split; [reflexivity|]. lia.
  - split; [reflexivity|]. lia.
  - split; [|lia]. rewrite iter_xO, inject_Z_mult, <- (@pow2_Z (Zpos d) ltac:(lia)).
    rewrite <- Qmult_assoc, <- pow2_add. replace (Zpos d + e')%Z with e by lia. reflexivity.
Qed.

Lemma shl_align_fst (m : positive) (e e' : Z) :
  (e' <= e)%Z ->
  inject_Z (Zpos (fst (shl_align m e e'))) * pow2 e' == inject_Z (Zpos m) * pow2 e.
Proof.
  intros H. pose proof (shl_align_value m e e') as V.
  destruct (shl_align m e e') as [mz ez]. destruct V as (V & _ & _ & Ee).
  rewrite (Ee H) in V. exact V.
Qed.

Lemma binary_round_rounds (s : bool) (m : positive) (e : Z) :
  finite_or_zero (binary_round prec emax s m e) = true ->
  rounds_to (if s then - (inject_Z (Zpos m) * pow2 e) else inject_Z (Zpos m) * pow2 e)
            (SF2Q (binary_round prec emax s m e)).
Proof.
  unfold binary_round.
  pose proof (shl_align_value m e (fexp prec emax (Zpos (digits2_pos m) + e))) as V.
  destruct (shl_align m e (fexp prec emax (Zpos (digits2_pos m) + e))) as [mz ez].
  destruct V as (V & Le & _). intros Hfz.
  set (X := inject_Z (Zpos m) * pow2 e) in *.
  assert (HX : 0 < X).
  { unfold X. apply Qmult_lt_0_compat; [|apply pow2_pos].
    change 0 with (inject_Z 0). rewrite <- Zlt_Qlt. lia. }
  apply (@binary_round_aux_rounds s (Zpos mz) ez
           (fexp prec emax (Zpos (digits2_pos m) + e)) loc_Exact X); try assumption.
  - lia.
  - apply inbetween_exact. symmetry. exact V.
  - apply cexp_ok_digits.
Qed.

Lemma binary_normalize_rounds (m e : Z) :
  finite_or_zero (binary_normalize prec emax m e false) = true ->
  rounds_to (inject_Z m * pow2 e) (SF2Q (binary_normalize prec emax m e false)).
Proof.
  destruct m as [|p|p]; cbn [binary_normalize]; intros Hfz.
  - left. split; [change (inject_Z 0) with 0; ring | reflexivity].
  - apply (@binary_round_rounds false p e Hfz).
  - pose proof (@binary_round_rounds true p e Hfz) as R.
    eapply rounds_to_comp; [|reflexivity|exact R].
    change (Zneg p) with (- Zpos p)%Z. rewrite inject_Z_opp. ring.
Qed.

Lemma cond_Zopp_value (s : bool) (m : positive) (e ez : Z) :
  (ez <= e)%Z ->
  inject_Z (cond_Zopp s (Zpos (fst (shl_align m e ez)))) * pow2 ez
  == SF2Q (S754_finite s m e).
Proof.
  intros H. pose proof (@shl_align_fst m e ez H) as V. cbn [SF2Q].
  destruct s; cbn [cond_Zopp]; rewrite SFmag_pow2.
  - rewrite inject_Z_opp. lra.
  - exact V.
Qed.

Lemma SFadd_rounds (x y : spec_float) :
  valid_binary x = true -> valid_binary y = true ->
  finite_or_zero (SFadd prec emax x y) = true ->
  finite_or_zero x = true /\ finite_or_zero y = true
  /\ rounds_to (SF2Q x + SF2Q y) (SF2Q (SFadd prec emax x y)).
Proof.
  intros Vx Vy.
  destruct x as [sx|sx| |sx mx ex], y as [sy|sy| |sy my ey];
    cbn [SFadd finite_or_zero]; try discriminate;
    try (destruct sx, sy; discriminate); intros Hfz;
    (split; [reflexivity|]); (split; [reflexivity|]).
  - left. split; [cbn [SF2Q]; ring|]. now destruct sx, sy.
  - eapply rounds_to_comp; [|reflexivity|exact (@rounds_to_exact _ Vy)]. cbn [SF2Q]. ring.
  - eapply rounds_to_comp; [|reflexivity|exact (@rounds_to_exact _ Vx)]. cbn [SF2Q]. ring.
  - pose proof (@binary_normalize_rounds _ _ Hfz) as R.
    eapply rounds_to_comp; [|reflexivity|exact R].
    rewrite inject_Z_plus, Qmult_plus_distr_l.
    rewrite !cond_Zopp_value by lia. reflexivity.
Qed.

Lemma SFsub_rounds (x y : spec_float) :
  valid_binary x = true -> valid_binary y = true ->
  finite_or_zero (SFsub prec emax x y) = true ->
  finite_or_zero x = true /\ finite_or_zero y = true
  /\ rounds_to (SF2Q x - SF2Q y) (SF2Q (SFsub prec emax x y)).
Proof.
  intros Vx Vy.
  destruct x as [sx|sx| |sx mx ex], y as [sy|sy| |sy my ey];
    cbn [SFsub finite_or_zero]; try discriminate;
    try (destruct sx, sy; discriminate); intros Hfz;
    (split; [reflexivity|]); (split; [reflexivity|]).
  - left. split; [cbn [SF2Q]; ring|]. now destruct sx, sy.
  - assert (V' : valid_binary (S754_finite (negb sy) my ey) = true) by exact Vy.
    eapply rounds_to_comp; [|reflexivity|exact (@rounds_to_exact _ V')].
    cbn [SF2Q]. destruct sy; cbn [negb]; ring.
  - eapply rounds_to_comp; [|reflexivity|exact (@rounds_to_exact _ Vx)]. cbn [SF2Q]. ring.
  - pose proof (@binary_normalize_rounds _ _ Hfz) as R.
    eapply rounds_to_comp; [|reflexivity|exact R].
    pose proof (@cond_Zopp_value sx mx ex (Z.min ex ey) ltac:(lia)) as Ea.
    pose proof (@cond_Zopp_value sy my ey (Z.min ex ey) ltac:(lia)) as Eb.
    rewrite <- Ea, <- Eb. unfold Z.sub. rewrite inject_Z_plus, inject_Z_opp. ring.
Qed.

(** *** Binary64 operations of the encoder *)

Lemma mul_rounds (x y : float) :
  is_finite (PrimFloat.mul x y) = true ->
  is_finite x = true /\ is_finite y = true
  /\ rounds_to (float_val x * float_val y) (float_val (PrimFloat.mul x y)).
Proof.
  unfold is_finite, float_val. rewrite FloatAxioms.mul_spec.
  apply SFmul_rounds; apply Prim2SF_valid.
Qed.

Lemma add_rounds (x y : float) :
  is_finite (PrimFloat.add x y) = true ->
  is_finite x = true /\ is_finite y = true
  /\ rounds_to (float_val x + float_val y) (float_val (PrimFloat.add x y)).
Proof.
  unfold is_finite, float_val. rewrite FloatAxioms.add_spec.
  apply SFadd_rounds; apply Prim2SF_valid.
Qed.

Lemma sub_rounds (x y : float) :
  is_finite (PrimFloat.sub x y) = true ->
  is_finite x = true /\ is_finite y = true
  /\ rounds_to (float_val x - float_val y) (float_val (PrimFloat.sub x y)).
Proof.
  unfold is_finite, float_val. rewrite FloatAxioms.sub_spec.
  apply SFsub_rounds; apply Prim2SF_valid.
Qed.

Lemma div_rounds (x y : float) :
  is_finite (PrimFloat.div x y) = true ->
  is_finite x = true
  /\ ((is_finite y = false /\ float_val (PrimFloat.div x y) == 0)
      \/ (is_finite y = true /\ ~ float_val y == 0
          /\ rounds_to (float_val x / float_val y) (float_val (PrimFloat.div x y)))).
Proof.
  unfold is_finite, float_val. rewrite FloatAxioms.div_spec.
  pose proof (Prim2SF_valid x) as Vx. pose proof (Prim2SF_valid y) as Vy.
  unfold SF64div.
  destruct (Prim2SF x) as [sx|sx| |sx mx ex], (Prim2SF y) as [sy|sy| |sy my ey];
    try (cbn [SFdiv finite_or_zero]; discriminate).
  - cbn [SFdiv finite_or_zero SF2Q]. intros _. split; [reflexivity|]. left.
    split; reflexivity.
  - cbn [SFdiv finite_or_zero SF2Q]. intros _. split; [reflexivity|]. right.
    pose proof (SFmag_pos my ey). split; [reflexivity|]. split; [destruct sy; lra|].
    left. split; [unfold Qdiv; ring | reflexivity].
  - cbn [SFdiv finite_or_zero SF2Q]. intros _. split; [reflexivity|]. left.
    split; reflexivity.
  - intros Hfz. split; [reflexivity|]. right. split; [reflexivity|].
    pose proof (SFmag_pos my ey). split; [cbn [SF2Q]; destruct sy; lra|].
    exact (@SFdiv_rounds sx sy mx my ex ey Vx Vy Hfz).
Qed.

Lemma Qtrunc_opp (q : Q) : Qtrunc (- q) = (- Qtrunc q)%Z.
Proof. unfold Qtrunc. cbn [Qopp Qnum Qden]. apply Z.quot_opp_l. lia. Qed.

Lemma fint_binary64 (x : float) :
  (is_finite x = true -> fint x = Ok (Qtrunc (float_val x)))
  /\ (forall z, fint x = Ok z -> is_finite x = true).
Proof.
  cbn [fint binary64_arith]. unfold b_int, is_finite, float_val.
  destruct (Prim2SF x) as [s|s| |s m e]; cbn [finite_or_zero SF2Q]; split;
    try discriminate; try reflexivity.
  intros _. destruct s; [rewrite Qtrunc_opp|]; reflexivity.
Qed.

Lemma key_val (x : float) : is_finite x = true -> float_key x == float_val x.
Proof.
  unfold is_finite, float_key, float_val. destruct (Prim2SF x); cbn; try discriminate; reflexivity.
Qed.

Lemma is_finite_not_nan (x : float) : is_finite x = true -> PrimFloat.is_nan x = false.
Proof.
  unfold is_finite. rewrite is_nan_Prim2SF. destruct (Prim2SF x); cbn; congruence.
Qed.

Lemma rounds_to_val (x : float) (q : Q) : float_val x == q -> rounds_to q q.
Proof.
  intros E. eapply rounds_to_comp; [exact E | exact E|].
  apply rounds_to_exact. apply Prim2SF_valid.
Qed.

Lemma rounds_to_0 : rounds_to 0 0.
Proof. left. split; reflexivity. Qed.

Lemma rounds_1 : rounds_to 1 1.
Proof. apply (@rounds_to_val (b_ofZ 1) 1). vm_compute. reflexivity. Qed.

Lemma rounds_255 : rounds_to 255 255.
Proof. apply (@rounds_to_val (b_ofZ 255) 255). vm_compute. reflexivity. Qed.

Lemma rounds_102 : rounds_to 102 102.
Proof. apply (@rounds_to_val (b_ofZ 102) 102). vm_compute. reflexivity. Qed.

Lemma rounds_60 : rounds_to 60 60.
Proof. apply (@rounds_to_val (b_ofZ 60) 60). vm_compute. reflexivity. Qed.

Lemma rounds_m42 : rounds_to (-42) (-42).
Proof. apply (@rounds_to_val (b_ofZ (-42)) (-42)). vm_compute. reflexivity. Qed.

Lemma rounds_m195 : rounds_to (-195) (-195).
Proof. apply (@rounds_to_val (b_ofZ (-195)) (-195)). vm_compute. reflexivity. Qed.

(** One channel: [int(c + k * t)] for a finite [t], as a function of the value of [t]. *)
Lemma channel_value (c k : Z) (t : float) (z : Z) :
  float_val (b_ofZ c) == inject_Z c -> float_val (b_ofZ k) == inject_Z k ->
  fint (PrimFloat.add (b_ofZ c) (PrimFloat.mul (b_ofZ k) t)) = Ok z ->
  is_finite t = true
  /\ exists P S : Q,
       rounds_to (inject_Z k * float_val t) P /\ rounds_to (inject_Z c + P) S /\ z = Qtrunc S.
Proof.
  intros Ec Ek H.
  destruct (fint_binary64 (PrimFloat.add (b_ofZ c) (PrimFloat.mul (b_ofZ k) t))) as [F1 F2].
  pose proof (F2 z H) as Fs. rewrite (F1 Fs) in H. inversion H as [Ez].
  destruct (@add_rounds _ _ Fs) as (_ & Fp & Rs).
  destruct (@mul_rounds _ _ Fp) as (_ & Ft & Rp).
  split; [exact Ft|].
  exists (float_val (PrimFloat.mul (b_ofZ k) t)),
         (float_val (PrimFloat.add (b_ofZ c) (PrimFloat.mul (b_ofZ k) t))).
  split; [eapply rounds_to_comp; [|reflexivity|exact Rp]; now rewrite Ek|].
  split; [eapply rounds_to_comp; [|reflexivity|exact Rs]; now rewrite Ec|].
  reflexivity.
Qed.

(** *** The colour scale in binary64 *)

Lemma leb_key (x y : float) :
  PrimFloat.is_nan x = false -> PrimFloat.is_nan y = false ->
  PrimFloat.leb x y = true <-> float_key x <= float_key y.
Proof.
  intros Hx Hy. rewrite FloatAxioms.leb_spec. unfold SFleb.
  rewrite (@compare_key x y Hx Hy).
  destruct (Qcompare_spec (float_key x) (float_key y)) as [C|C|C]; split; intros H;
    try reflexivity; try discriminate; lra.
Qed.

Lemma SFcompare_Eq_cases (x y : spec_float) :
  SFcompare x y = Some Eq ->
  x = y \/ exists sx sy, x = S754_zero sx /\ y = S754_zero sy.
Proof.
  destruct x as [sx|sx| |sx mx ex], y as [sy|sy| |sy my ey]; cbn [SFcompare];
    try discriminate; try (destruct sx; discriminate); try (destruct sy; discriminate).
  - intros _. right. now exists sx, sy.
  - destruct sx, sy; try discriminate; now left.
  - destruct sx, sy; try discriminate;
      destruct (Z.compare_spec ex ey) as [E|L|G]; try discriminate; subst ey;
      change (Pos.compare_cont Eq mx my) with (Pos.compare mx my);
      destruct (Pos.compare_spec mx my) as [E|L|G]; try discriminate; subst my;
      intros _; now left.
Qed.

(** Two numbers that compare equal give the same difference with a third
    that is not equal to them. *)
Lemma sub_key_eq (x y m : float) :
  PrimFloat.is_nan x = false -> PrimFloat.is_nan y = false -> PrimFloat.is_nan m = false ->
  float_key x == float_key y -> ~ float_key x == float_key m ->
  PrimFloat.sub x m = PrimFloat.sub y m.
Proof.
  intros Hx Hy Hm E N.
  pose proof (@compare_key x y Hx Hy) as C. rewrite (@Qcompare_Eq _ _ E) in C.
  destruct (SFcompare_Eq_cases _ _ C) as [Exy|(sx & sy & Ex & Ey)].
  - apply Prim2SF_inj in Exy. now subst y.
  - apply Prim2SF_inj. rewrite !FloatAxioms.sub_spec, Ex, Ey. unfold SF64sub.
    pose proof (@not_nan_Prim2SF m Hm) as Nm.
    unfold float_key in N. rewrite Ex in N.
    destruct (Prim2SF m) as [sm|sm| |sm mm em]; cbn [SFsub]; try reflexivity.
    elim N. reflexivity.
Qed.

Lemma min_val_of_nonempty (l : list float) : l <> [] -> min_val_of l = series_min l.
Proof. destruct l; [contradiction | reflexivity]. Qed.

Lemma max_val_of_nonempty (l : list float) : l <> [] -> max_val_of l = series_max l.
Proof. destruct l; [contradiction | reflexivity]. Qed.

(** The minimum and the range of the scale. *)
Lemma scale_binary64 (sv : list (Row float)) :
  sv <> [] -> (forall r, In r sv -> PrimFloat.is_nan (return_on_assets r) = false) ->
  let m := scale_min sv in
  let rg := scale_range sv in
  PrimFloat.is_nan m = false
  /\ (forall r, In r sv -> float_key m <= float_key (return_on_assets r))
  /\ ((rg = b_ofZ 1 /\ forall r, In r sv -> float_key (return_on_assets r) == float_key m)
      \/ exists M, rg = PrimFloat.sub M m /\ PrimFloat.is_nan M = false
           /\ (forall r, In r sv -> float_key (return_on_assets r) <= float_key M)
           /\ ~ float_key M == float_key m).
Proof.
  intros Hne Hna. cbv zeta. unfold scale_range, scale_min.
  set (l := map return_on_assets sv).
  assert (Hl : l <> []) by (unfold l; destruct sv; [contradiction | discriminate]).
  assert (Hn : forall v, In v l -> PrimFloat.is_nan v = false).
  { intros v Hv. apply in_map_iff in Hv. destruct Hv as (r & <- & Hr). now apply Hna. }
  rewrite (min_val_of_nonempty Hl), (max_val_of_nonempty Hl).
  destruct (@series_min_key l Hl Hn) as [Imin Lmin].
  destruct (@series_max_key l Hl Hn) as [Imax Lmax].
  pose proof (Hn _ Imin) as Nmin. pose proof (Hn _ Imax) as Nmax.
  assert (Hin : forall r, In r sv -> In (return_on_assets r) l)
    by (intros r Hr; unfold l; now apply in_map).
  split; [exact Nmin|]. split; [intros r Hr; apply Lmin, Hin, Hr|].
  unfold val_range_of. cbn [feqb fsub fofZ binary64_arith].
  destruct (PrimFloat.eqb (series_max l) (series_min l)) eqn:E; cbn [negb].
  - left. split; [reflexivity|]. intros r Hr.
    apply (@eqb_key _ _ Nmax Nmin) in E.
    pose proof (Lmin _ (Hin r Hr)). pose proof (Lmax _ (Hin r Hr)). lra.
  - right. exists (series_max l). split; [reflexivity|]. split; [exact Nmax|].
    split; [intros r Hr; apply Lmax, Hin, Hr|].
    intros K. apply (@eqb_key _ _ Nmax Nmin) in K. congruence.
Qed.

Lemma Qdiv_unit (a b : Q) : 0 <= a -> a <= b -> 0 < b -> 0 <= a / b /\ a / b <= 1.
Proof.
  intros Ha Hab Hb. split.
  - apply Qle_shift_div_l; [exact Hb|]. lra.
  - apply Qle_shift_div_r; [exact Hb|]. lra.
Qed.

(** The value a finite normalized value has. *)
Lemma normalized_value (sv : list (Row float)) (r : Row float) :
  sv <> [] -> (forall r, In r sv -> PrimFloat.is_nan (return_on_assets r) = false) ->
  In r sv -> is_finite (normalized sv r) = true ->
  is_finite (return_on_assets r) = true /\ is_finite (scale_min sv) = true
  /\ exists A : Q,
       rounds_to (float_val (return_on_assets r) - float_val (scale_min sv)) A
       /\ ((is_finite (scale_range sv) = false /\ float_val (normalized sv r) == 0)
           \/ (is_finite (scale_range sv) = true /\ 0 < float_val (scale_range sv)
               /\ A <= float_val (scale_range sv)
               /\ rounds_to (A / float_val (scale_range sv)) (float_val (normalized sv r)))).
Proof.
  intros Hne Hna Hr Hfin.
  destruct (@scale_binary64 sv Hne Hna) as (Nm & Lm & Hrg).
  unfold normalized, norm_of in *. cbn [fsub fdiv binary64_arith] in *.
  set (v := return_on_assets r) in *. set (m := scale_min sv) in *.
  set (rg := scale_range sv) in *.
  destruct (@div_rounds _ _ Hfin) as (Fa & Hd).
  destruct (@sub_rounds _ _ Fa) as (Fv & Fm & Ra).
  split; [exact Fv|]. split; [exact Fm|].
  exists (float_val (PrimFloat.sub v m)). split; [exact Ra|].
  destruct Hd as [(Frg & Z)|(Frg & Nz & Rt)]; [left; split; assumption|].
  right. split; [exact Frg|].
  pose proof (Lm r Hr) as Lv. fold v in Lv.
  rewrite (@key_val v Fv), (@key_val m Fm) in Lv.
  assert (A0 : 0 <= float_val (PrimFloat.sub v m)).
  { apply (@rounds_to_mono 0 (float_val v - float_val m) 0 _ rounds_to_0 Ra). lra. }
  assert (Arg : float_val (PrimFloat.sub v m) <= float_val rg /\ 0 < float_val rg).
  { destruct Hrg as [(Erg & Heq)|(M & Erg & NM & LM & NE)].
    - assert (E1 : float_val rg == 1) by (rewrite Erg; vm_compute; reflexivity).
      pose proof (Heq r Hr) as Ev. fold v in Ev.
      rewrite (@key_val v Fv), (@key_val m Fm) in Ev.
      assert (Ea : float_val (PrimFloat.sub v m) == 0).
      { apply (@rounds_to_unique (float_val v - float_val m)); [exact Ra|].
        eapply rounds_to_comp; [|reflexivity|exact rounds_to_0]. lra. }
      lra.
    - rewrite Erg in Frg. destruct (@sub_rounds _ _ Frg) as (FM & _ & Rrg).
      pose proof (LM r Hr) as LvM. fold v in LvM.
      rewrite (@key_val v Fv), (@key_val M FM) in LvM.
      assert (L : float_val (PrimFloat.sub v m) <= float_val (PrimFloat.sub M m)).
      { apply (@rounds_to_mono (float_val v - float_val m) (float_val M - float_val m)
                 _ _ Ra Rrg). lra. }
      rewrite Erg. split; [exact L|].
      rewrite Erg in Nz. lra. }
  destruct Arg as [Arg Prg]. split; [exact Prg|]. split; [exact Arg|]. exact Rt.
Qed.

Lemma normalized_unit (sv : list (Row float)) (r : Row float) :
  sv <> [] -> (forall r, In r sv -> PrimFloat.is_nan (return_on_assets r) = false) ->
  In r sv -> is_finite (normalized sv r) = true ->
  0 <= float_val (normalized sv r) /\ float_val (normalized sv r) <= 1.
Proof.
  intros Hne Hna Hr Hfin.
  destruct (@normalized_value sv r Hne Hna Hr Hfin)
    as (Fv & Fm & A & Ra & [(_ & Z)|(Frg & Prg & Arg & Rt)]); [lra|].
  destruct (@scale_binary64 sv Hne Hna) as (_ & Lm & _).
  pose proof (Lm r Hr) as Lv.
  rewrite (@key_val _ Fv), (@key_val _ Fm) in Lv.
  assert (A0 : 0 <= A).
  { apply (@rounds_to_mono 0 (float_val (return_on_assets r) - float_val (scale_min sv)) 0 _
             rounds_to_0 Ra). lra. }
  destruct (@Qdiv_unit A (float_val (scale_range sv)) A0 Arg Prg) as [D0 D1].
  split.
  - apply (@rounds_to_mono 0 _ 0 _ rounds_to_0 Rt D0).
  - apply (@rounds_to_mono _ 1 _ 1 Rt rounds_1 D1).
Qed.

Lemma normalized_mono (sv : list (Row float)) (ri rj : Row float) :
  sv <> [] -> (forall r, In r sv -> PrimFloat.is_nan (return_on_assets r) = false) ->
  In ri sv -> In rj sv ->
  is_finite (normalized sv ri) = true -> is_finite (normalized sv rj) = true ->
  float_key (return_on_assets ri) <= float_key (return_on_assets rj) ->
  float_val (normalized sv ri) <= float_val (normalized sv rj).
Proof.
  intros Hne Hna Hi Hj Fi Fj L.
  destruct (@normalized_value sv ri Hne Hna Hi Fi)
    as (Fvi & Fm & Ai & Rai & [(Frg & Zi)|(Frg & Prg & _ & Rti)]);
  destruct (@normalized_value sv rj Hne Hna Hj Fj)
    as (Fvj & _ & Aj & Raj & [(Frg' & Zj)|(Frg' & _ & _ & Rtj)]);
    try congruence; [lra|].
  rewrite (@key_val _ Fvi), (@key_val _ Fvj) in L.
  assert (LA : Ai <= Aj) by (apply (@rounds_to_mono _ _ _ _ Rai Raj); lra).
  apply (@rounds_to_mono _ _ _ _ Rti Rtj).
  unfold Qdiv. apply Qmult_le_compat_r; [exact LA|]. apply Qinv_le_0_compat. lra.
Qed.

(** The channels of a normalized value. *)

Lemma channels_binary64 (t : float) (cr cg cb : Z) :
  channels t = Ok (cr, cg, cb) ->
  is_finite t = true
  /\ exists Pr Sr Pg Sg Pb Sb : Q,
       rounds_to (255 * float_val t) Pr /\ rounds_to (0 + Pr) Sr /\ cr = Qtrunc Sr
       /\ rounds_to (-42 * float_val t) Pg /\ rounds_to (102 + Pg) Sg /\ cg = Qtrunc Sg
       /\ rounds_to (-195 * float_val t) Pb /\ rounds_to (255 + Pb) Sb /\ cb = Qtrunc Sb.
Proof.
  unfold channels. cbn [fadd fmul fofZ binary64_arith].
  change (255 - 0)%Z with 255%Z. change (60 - 102)%Z with (-42)%Z.
  change (60 - 255)%Z with (-195)%Z.
  destruct (fint (PrimFloat.add (b_ofZ 0) (PrimFloat.mul (b_ofZ 255) t))) as [r|] eqn:Er;
    cbn [bind]; [|discriminate].
  destruct (fint (PrimFloat.add (b_ofZ 102) (PrimFloat.mul (b_ofZ (-42)) t))) as [g|] eqn:Eg;
    cbn [bind]; [|discriminate].
  destruct (fint (PrimFloat.add (b_ofZ 255) (PrimFloat.mul (b_ofZ (-195)) t))) as [b|] eqn:Eb;
    cbn [bind]; [|discriminate].
  intros H. inversion H; subst r g b.
  destruct (@channel_value 0 255 t cr ltac:(vm_compute; reflexivity)
              ltac:(vm_compute; reflexivity) Er) as (Ft & Pr & Sr & R1 & R2 & R3).
  destruct (@channel_value 102 (-42) t cg ltac:(vm_compute; reflexivity)
              ltac:(vm_compute; reflexivity) Eg) as (_ & Pg & Sg & G1 & G2 & G3).
  destruct (@channel_value 255 (-195) t cb ltac:(vm_compute; reflexivity)
              ltac:(vm_compute; reflexivity) Eb) as (_ & Pb & Sb & B1 & B2 & B3).
  split; [exact Ft|]. exists Pr, Sr, Pg, Sg, Pb, Sb.
  repeat split; assumption.
Qed.

Lemma channels_range (t : float) (cr cg cb : Z) :
  channels t = Ok (cr, cg, cb) -> 0 <= float_val t -> float_val t <= 1 ->
  (0 <= cr <= 255)%Z /\ (60 <= cg <= 102)%Z /\ (60 <= cb <= 255)%Z.
Proof.
  intros H T0 T1.
  destruct (@channels_binary64 t cr cg cb H)
    as (_ & Pr & Sr & Pg & Sg & Pb & Sb & R1 & R2 & -> & G1 & G2 & -> & B1 & B2 & ->).
  assert (Pr0 : 0 <= Pr) by (apply (@rounds_to_mono 0 _ 0 _ rounds_to_0 R1); lra).
  assert (Pr1 : Pr <= 255) by (apply (@rounds_to_mono _ 255 _ 255 R1 rounds_255); lra).
  assert (Sr0 : 0 <= Sr) by (apply (@rounds_to_mono 0 _ 0 _ rounds_to_0 R2); lra).
  assert (Sr1 : Sr <= 255) by (apply (@rounds_to_mono _ 255 _ 255 R2 rounds_255); lra).
  assert (Pg0 : -42 <= Pg) by (apply (@rounds_to_mono (-42) _ (-42) _ rounds_m42 G1); lra).
  assert (Pg1 : Pg <= 0) by (apply (@rounds_to_mono _ 0 _ 0 G1 rounds_to_0); lra).
  assert (Sg0 : 60 <= Sg) by (apply (@rounds_to_mono 60 _ 60 _ rounds_60 G2); lra).
  assert (Sg1 : Sg <= 102) by (apply (@rounds_to_mono _ 102 _ 102 G2 rounds_102); lra).
  assert (Pb0 : -195 <= Pb) by (apply (@rounds_to_mono (-195) _ (-195) _ rounds_m195 B1); lra).
  assert (Pb1 : Pb <= 0) by (apply (@rounds_to_mono _ 0 _ 0 B1 rounds_to_0); lra).
  assert (Sb0 : 60 <= Sb) by (apply (@rounds_to_mono 60 _ 60 _ rounds_60 B2); lra).
  assert (Sb1 : Sb <= 255) by (apply (@rounds_to_mono _ 255 _ 255 B2 rounds_255); lra).
  pose proof (@Qtrunc_mono 0 Sr Sr0). pose proof (@Qtrunc_mono Sr 255 Sr1).
  pose proof (@Qtrunc_mono 60 Sg Sg0). pose proof (@Qtrunc_mono Sg 102 Sg1).
  pose proof (@Qtrunc_mono 60 Sb Sb0). pose proof (@Qtrunc_mono Sb 255 Sb1).
  change (Qtrunc 0) with 0%Z in *. change (Qtrunc 255) with 255%Z in *.
  change (Qtrunc 60) with 60%Z in *. change (Qtrunc 102) with 102%Z in *.
  lia.
Qed.

Lemma channels_mono (ti tj : float) (ri gi bi rj gj bj : Z) :
  channels ti = Ok (ri, gi, bi) -> channels tj = Ok (rj, gj, bj) ->
  float_val ti <= float_val tj -> (ri <= rj)%Z /\ (gj <= gi)%Z /\ (bj <= bi)%Z.
Proof.
  intros Hi Hj L.
  destruct (@channels_binary64 ti ri gi bi Hi)
    as (_ & Pr & Sr & Pg & Sg & Pb & Sb & R1 & R2 & -> & G1 & G2 & -> & B1 & B2 & ->).
  destruct (@channels_binary64 tj rj gj bj Hj)
    as (_ & Pr' & Sr' & Pg' & Sg' & Pb' & Sb' & R1' & R2' & -> & G1' & G2' & -> & B1' & B2' & ->).
  assert (Lr : Pr <= Pr') by (apply (@rounds_to_mono _ _ _ _ R1 R1'); lra).
  assert (Lg : Pg' <= Pg) by (apply (@rounds_to_mono _ _ _ _ G1' G1); lra).
  assert (Lb : Pb' <= Pb) by (apply (@rounds_to_mono _ _ _ _ B1' B1); lra).
  split; [|split]; apply Qtrunc_mono.
  - apply (@rounds_to_mono _ _ _ _ R2 R2'). lra.
  - apply (@rounds_to_mono _ _ _ _ G2' G2). lra.
  - apply (@rounds_to_mono _ _ _ _ B2' B2). lra.
Qed.

Lemma channels_val (ti tj : float) (ci cj : Z * Z * Z) :
  channels ti = Ok ci -> channels tj = Ok cj -> float_val ti == float_val tj -> ci = cj.
Proof.
  destruct ci as [[ri gi] bi], cj as [[rj gj] bj]. intros Hi Hj E.
  destruct (@channels_mono ti tj ri gi bi rj gj bj Hi Hj ltac:(lra)) as (A & B & C).
  destruct (@channels_mono tj ti rj gj bj ri gi bi Hj Hi ltac:(lra)) as (A' & B' & C').
  repeat f_equal; lia.
Qed.

(** *** The points of a chart in binary64 *)

Lemma scale_attained (sv : list (Row float)) :
  sv <> [] -> (forall r, In r sv -> PrimFloat.is_nan (return_on_assets r) = false) ->
  (exists r, In r sv /\ return_on_assets r = scale_min sv)
  /\ ((forall r, In r sv -> float_key (return_on_assets r) == float_key (scale_min sv))
      \/ exists r, In r sv
           /\ scale_range sv = PrimFloat.sub (return_on_assets r) (scale_min sv)
           /\ (forall r', In r' sv ->
                 float_key (return_on_assets r') <= float_key (return_on_assets r))
           /\ ~ float_key (return_on_assets r) == float_key (scale_min sv)).
Proof.
  intros Hne Hna. unfold scale_range, scale_min.
  set (l := map return_on_assets sv).
  assert (Hl : l <> []) by (unfold l; destruct sv; [contradiction | discriminate]).
  assert (Hn : forall v, In v l -> PrimFloat.is_nan v = false).
  { intros v Hv. apply in_map_iff in Hv. destruct Hv as (r & <- & Hr). now apply Hna. }
  rewrite (min_val_of_nonempty Hl), (max_val_of_nonempty Hl).
  destruct (@series_min_key l Hl Hn) as [Imin Lmin].
  destruct (@series_max_key l Hl Hn) as [Imax Lmax].
  pose proof (Hn _ Imin) as Nmin. pose proof (Hn _ Imax) as Nmax.
  split.
  - apply in_map_iff in Imin. destruct Imin as (r & E & Hr). now exists r.
  - unfold val_range_of. cbn [feqb fsub fofZ binary64_arith].
    destruct (PrimFloat.eqb (series_max l) (series_min l)) eqn:E; cbn [negb]; [left|right].
    { intros r Hr. apply (@eqb_key _ _ Nmax Nmin) in E.
      assert (Hin : In (return_on_assets r) l) by (unfold l; now apply in_map).
      pose proof (Lmin _ Hin). pose proof (Lmax _ Hin). lra. }
    pose proof Imax as Imax'. apply in_map_iff in Imax'. destruct Imax' as (r & Er & Hr).
    exists r. rewrite Er. split; [exact Hr|]. split; [reflexivity|]. split.
    + intros r' Hr'. apply Lmax. unfold l. now apply in_map.
    + intros K. apply (@eqb_key _ _ Nmax Nmin) in K. congruence.
Qed.

(** A point of a returned chart: its channels and the two colour texts. *)
Lemma binary64_point (df : DataFrame float) (rs : list (Row float))
    (p : str) (s : list str) (fig : Figure float) :
  wf df -> rows_of df = Ok rs -> create_bubble_chart df p s = Ok (Some fig) ->
  let sv := surviving p s rs in
  sv <> []
  /\ (forall r, In r sv -> PrimFloat.is_nan (return_on_assets r) = false)
  /\ length (marker_color fig) = length sv
  /\ forall (i : nat) (r : Row float), nth_error sv i = Some r ->
       exists cr cg cb : Z,
         channels (normalized sv r) = Ok (cr, cg, cb)
         /\ is_finite (normalized sv r) = true
         /\ nth_error (marker_color fig) i
            = Some (lit "rgba(" ++ dec_Z cr ++ lit "," ++ dec_Z cg ++ lit ","
                    ++ dec_Z cb ++ lit ",0.70)")
         /\ nth_error (marker_line_color fig) i
            = Some (lit "rgba(" ++ dec_Z (Z.max (cr - 40) 0) ++ lit ","
                    ++ dec_Z (Z.max (cg - 40) 0) ++ lit ","
                    ++ dec_Z (Z.max (cb - 40) 0) ++ lit ",0.95)").
Proof.
  intros Hwf Hrows Hfig. cbv zeta.
  destruct (create_bubble_chart_fields p s Hwf Hrows Hfig) as (Hne & _).
  destruct (chart_points p s Hwf Hrows Hfig) as [(_ & Hlen & _) Hpt].
  pose proof (surviving_notna p s rs) as Hna. rewrite Forall_forall in Hna.
  split; [exact Hne|]. split; [exact Hna|]. split; [exact Hlen|].
  intros i r Hi. destruct (Hpt i r Hi) as (_ & (fill & edge & Hc & Hf & He) & _).
  pose proof (Hna r (nth_error_In _ _ Hi)) as Hv.
  unfold color_of in Hc. rewrite Hv in Hc.
  fold (normalized (surviving p s rs) r) in Hc.
  destruct (channels (normalized (surviving p s rs) r)) as [[[cr cg] cb]|e] eqn:Ec;
    cbn [bind] in Hc; [|discriminate].
  assert (Efill : fill = fill_color (cr, cg, cb)) by congruence.
  assert (Eedge : edge = edge_color (cr, cg, cb)) by congruence.
  clear Hc. rewrite Efill in Hf. rewrite Eedge in He. exists cr, cg, cb.
  split; [reflexivity|].
  split; [exact (proj1 (@channels_binary64 _ cr cg cb Ec))|].
  assert (Ea : fill_color (F := float) (cr, cg, cb) = rgba cr cg cb (lit "0.70")).
  { unfold fill_color. f_equal; vm_compute; reflexivity. }
  rewrite Ea in Hf.
  split; [exact Hf | exact He].
Qed.

(** The least return gives normalized value 0, the greatest 1. *)
Lemma normalized_least (sv : list (Row float)) (r : Row float) :
  sv <> [] -> (forall r, In r sv -> PrimFloat.is_nan (return_on_assets r) = false) ->
  In r sv -> is_finite (normalized sv r) = true ->
  (forall r', In r' sv -> PrimFloat.leb (return_on_assets r) (return_on_assets r') = true) ->
  float_val (normalized sv r) == 0.
Proof.
  intros Hne Hna Hr Hfin Hmin.
  destruct (@normalized_value sv r Hne Hna Hr Hfin)
    as (Fv & Fm & A & Ra & [(_ & Z)|(Frg & Prg & _ & Rt)]); [exact Z|].
  destruct (@scale_binary64 sv Hne Hna) as (Nm & Lm & _).
  destruct (@scale_attained sv Hne Hna) as ((r0 & Hr0 & E0) & _).
  pose proof (Hmin r0 Hr0) as L0. rewrite E0 in L0.
  apply (@leb_key _ _ (Hna r Hr) Nm) in L0.
  pose proof (Lm r Hr) as L1.
  rewrite (@key_val _ Fv), (@key_val _ Fm) in L0, L1.
  assert (EA : A == 0).
  { apply (@rounds_to_unique (float_val (return_on_assets r) - float_val (scale_min sv)));
      [exact Ra|].
    eapply rounds_to_comp; [|reflexivity|exact rounds_to_0]. lra. }
  apply (@rounds_to_unique (A / float_val (scale_range sv))); [exact Rt|].
  eapply rounds_to_comp; [|reflexivity|exact rounds_to_0].
  rewrite EA. unfold Qdiv. ring.
Qed.

Lemma normalized_greatest (sv : list (Row float)) (r : Row float) :
  sv <> [] -> (forall r, In r sv -> PrimFloat.is_nan (return_on_assets r) = false) ->
  In r sv -> is_finite (normalized sv r) = true ->
  (forall r', In r' sv -> PrimFloat.leb (return_on_assets r') (return_on_assets r) = true) ->
  (exists r', In r' sv /\ PrimFloat.ltb (return_on_assets r') (return_on_assets r) = true) ->
  float_val (normalized sv r) == 1.
Proof.
  intros Hne Hna Hr Hfin Hmax (r' & Hr' & Hlt).
  destruct (@scale_binary64 sv Hne Hna) as (Nm & Lm & _).
  destruct (@scale_attained sv Hne Hna) as (_ & [E1|(rM & HrM & Erg & LM & NE)]).
  - exfalso. apply (@ltb_key _ _ (Hna r' Hr') (Hna r Hr)) in Hlt.
    pose proof (E1 r Hr). pose proof (E1 r' Hr'). lra.
  - pose proof (Hmax rM HrM) as L0.
    apply (@leb_key _ _ (Hna rM HrM) (Hna r Hr)) in L0.
    pose proof (LM r Hr) as L1.
    assert (Ek : float_key (return_on_assets r) == float_key (return_on_assets rM)) by lra.
    assert (Nk : ~ float_key (return_on_assets r) == float_key (scale_min sv))
      by (rewrite Ek; exact NE).
    pose proof (@sub_key_eq _ _ (scale_min sv) (Hna r Hr) (Hna rM HrM) Nm Ek Nk) as Esub.
    unfold normalized, norm_of in *. cbn [fsub fdiv binary64_arith] in *.
    rewrite Erg in *. rewrite Esub in *.
    set (b := PrimFloat.sub (return_on_assets rM) (scale_min sv)) in *.
    destruct (@div_rounds b b Hfin) as (Fb & [(Fb' & _)|(_ & Nz & Rt)]); [congruence|].
    apply (@rounds_to_unique (float_val b / float_val b)); [exact Rt|].
    eapply rounds_to_comp; [|reflexivity|exact rounds_1].
    field. exact Nz.
Qed.

Lemma mixed_frame_wf_binary64 : wf (mixed_frame (F := float)).
Proof. vm_compute. repeat split; reflexivity. Qed.

Lemma scenario_frame_wf_binary64 : wf (scenario_frame (F := float)).
Proof. vm_compute. repeat split; reflexivity. Qed.
End Binary64Rounding.

(** ** The specification's properties of the Chart Encoder *)

Section EncoderClaims.
Local Open Scope Q_scope.

(** C10: the per-point sequences of a returned chart (diameters, fill
    colours, border colours, labels, font sizes, and with them the
    coordinates and the hover names) all have as many elements as there are
    rows that passed the period and selection filter and the missing-value
    drop, and the i-th element of each is computed from the i-th such row.
    Holds for every arithmetic. *)
Theorem per_point_sequences_aligned {F : Type} {arith : Arith F}
    (df : DataFrame F) (rs : list (Row F)) (p : str) (s : list str) (fig : Figure F) :
  wf df -> rows_of df = Ok rs -> create_bubble_chart df p s = Ok (Some fig) ->
  let sv := surviving p s rs in
  let n := length sv in
  (length (marker_size fig) = n /\ length (marker_color fig) = n
   /\ length (marker_line_color fig) = n /\ length (trace_text fig) = n
   /\ length (textfont_size fig) = n /\ length (trace_x fig) = n
   /\ length (trace_y fig) = n /\ length (customdata fig) = n)
  /\ forall (i : nat) (r : Row F), nth_error sv i = Some r ->
       nth_error (marker_size fig) i = Some (bubble_size (return_on_assets r))
       /\ (exists fill edge,
             color_of (scale_min sv) (scale_range sv) (return_on_assets r) = Ok (fill, edge)
             /\ nth_error (marker_color fig) i = Some fill
             /\ nth_error (marker_line_color fig) i = Some edge)
       /\ nth_error (trace_text fig) i
          = Some (fst (label_of (bubble_size (return_on_assets r)) (entity_name r)))
       /\ nth_error (textfont_size fig) i
          = Some (snd (label_of (bubble_size (return_on_assets r)) (entity_name r)))
       /\ nth_error (trace_x fig) i = Some (turnover r)
       /\ nth_error (trace_y fig) i = Some (fmul (net_profit_margin r) (fofZ 100))
       /\ nth_error (customdata fig) i = Some (entity_name r).
Proof. intros Hwf Hrows Hfig. exact (chart_points p s Hwf Hrows Hfig). Qed.

Lemma per_point_sequences_aligned_witness :
  wf (mixed_frame (F := rational))
  /\ rows_of mixed_frame = Ok mixed_rows
  /\ create_bubble_chart mixed_frame period_P1 all_names = Ok mixed_figure
  /\ exists fig, mixed_figure = Some fig
       /\ length (marker_size fig) = 2%nat
       /\ length (marker_color fig) = length (surviving period_P1 all_names mixed_rows).
Proof.
  split; [exact mixed_frame_wf|]. split; [reflexivity|]. split; [reflexivity|].
  eexists. split; [reflexivity|]. split; [reflexivity|].
  exact (proj1 (proj2 (proj1
    (per_point_sequences_aligned (df := mixed_frame) (rs := mixed_rows)
       period_P1 all_names mixed_frame_wf eq_refl eq_refl)))).
Defined.

(** C2: every diameter of a returned chart is [abs(return_on_assets) * 500
    + 20], computed from the row of the point, in every arithmetic; in exact
    arithmetic that is the rational |q| * 500 + 20; the sign of the return
    does not change it, and a return of 0 gives 20. *)
Theorem diameter_formula :
  (forall (F : Type) (arith : Arith F) (df : DataFrame F) (rs : list (Row F))
          (p : str) (s : list str) (fig : Figure F),
      wf df -> rows_of df = Ok rs -> create_bubble_chart df p s = Ok (Some fig) ->
      length (marker_size fig) = length (surviving p s rs)
      /\ forall (i : nat) (r : Row F), nth_error (surviving p s rs) i = Some r ->
           nth_error (marker_size fig) i
           = Some (fadd (fmul (fabs (return_on_assets r)) (fofZ 500)) (fofZ 20)))
  /\ (forall q : Q,
        exists d : Q, bubble_size (Rat q) = Rat d
                      /\ d == Qabs q * 500 + 20
                      /\ bubble_size (Rat (- q)) = Rat d)
  /\ (forall v : float, bubble_size (PrimFloat.opp v) = bubble_size v)
  /\ bubble_size (fofZ 0 : rational) = Rat 20
  /\ bubble_size (fofZ 0 : float) = 20%float.
Proof.
  split.
  { intros F arith df rs p s fig Hwf Hrows Hfig.
    destruct (chart_points p s Hwf Hrows Hfig) as [(Hlen & _) Hpt].
    split; [exact Hlen|]. intros i r Hi. exact (proj1 (Hpt i r Hi)). }
  split.
  { intros q. destruct (bubble_size_exact q) as (d & Hd & Hv).
    exists d. split; [exact Hd|]. split; [exact Hv|].
    rewrite <- Hd. unfold bubble_size. destruct q as [n d']. cbn [fabs rational_arith].
    unfold Qabs, Qopp; simpl Qnum; simpl Qden. now rewrite Z.abs_opp. }
  split.
  { intros v. unfold bubble_size. cbn [fabs binary64_arith].
    now rewrite abs_opp_binary64. }
  split; reflexivity.
Qed.

Lemma diameter_formula_witness :
  wf (mixed_frame (F := rational))
  /\ rows_of mixed_frame = Ok mixed_rows
  /\ create_bubble_chart mixed_frame period_P1 all_names = Ok mixed_figure
  /\ exists fig, mixed_figure = Some fig
       /\ marker_size fig = [Rat 40; Rat 30]
       /\ length (marker_size fig) = length (surviving period_P1 all_names mixed_rows).
Proof.
  split; [exact mixed_frame_wf|]. split; [reflexivity|]. split; [reflexivity|].
  eexists. split; [reflexivity|]. split; [reflexivity|].
  exact (proj1 (proj1 diameter_formula rational rational_arith mixed_frame mixed_rows
                  period_P1 all_names _ mixed_frame_wf eq_refl eq_refl)).
Defined.

(** The text of a colour. *)
Lemma rgba_text (r g b : Z) (a : str) :
  rgba r g b a
  = lit "rgba(" ++ dec_Z r ++ lit "," ++ dec_Z g ++ lit "," ++ dec_Z b
    ++ lit "," ++ a ++ lit ")".
Proof. reflexivity. Qed.

(** [dec_Z] writes the decimal numeral of its argument. *)
Lemma dec_Z_read (z : Z) : read_int (dec_Z z) = Some z.
Proof.
  unfold read_int, dec_Z, lit. rewrite map_map.
  rewrite (map_ext _ (fun a => a)) by apply Ascii.ascii_N_embedding.
  rewrite map_id, String.string_of_list_ascii_of_string.
  rewrite DecimalString.NilZero.isi.
  - cbn [option_map]. now rewrite DecimalZ.of_to.
  - destruct z; cbn; try discriminate. intros H. inversion H as [E].
    now apply DecimalPos.Unsigned.to_uint_nonnil in E.
  - destruct z; cbn; try discriminate. intros H. inversion H as [E].
    now apply DecimalPos.Unsigned.to_uint_nonnil in E.
Qed.

(** The colours of the points of a returned chart, written with [rgba];
    the theorem below spells the texts out. *)
Lemma point_colours_rgba :
  (forall (F : Type) (arith : Arith F) (df : DataFrame F) (rs : list (Row F))
          (p : str) (s : list str) (fig : Figure F),
      wf df -> rows_of df = Ok rs -> create_bubble_chart df p s = Ok (Some fig) ->
      let sv := surviving p s rs in
      let min_val := series_min (map return_on_assets sv) in
      let max_val := series_max (map return_on_assets sv) in
      let val_range :=
        if negb (feqb max_val min_val) then fsub max_val min_val else fofZ 1 in
      forall (i : nat) (r : Row F), nth_error sv i = Some r ->
        let t := fdiv (fsub (return_on_assets r) min_val) val_range in
        normalized sv r = t
        /\ exists cr cg cb : Z,
             fint (fadd (fofZ 0) (fmul (fofZ 255) t)) = Ok cr
             /\ fint (fadd (fofZ 102) (fmul (fofZ (-42)) t)) = Ok cg
             /\ fint (fadd (fofZ 255) (fmul (fofZ (-195)) t)) = Ok cb
             /\ nth_error (marker_color fig) i
                = Some (rgba cr cg cb (ffixed 2 (fdiv (fofZ 7) (fofZ 10))))
             /\ nth_error (marker_line_color fig) i
                = Some (rgba (Z.max (cr - 40) 0) (Z.max (cg - 40) 0) (Z.max (cb - 40) 0)
                             (lit "0.95")))
  /\ (forall (df : DataFrame rational) (rs : list (Row rational)) (p : str) (s : list str)
             (fig : Figure rational),
        wf df -> rows_of df = Ok rs -> create_bubble_chart df p s = Ok (Some fig) ->
        let sv := surviving p s rs in
        exists lo hi rg : Q,
          In (Rat lo) (map return_on_assets sv) /\ In (Rat hi) (map return_on_assets sv)
          /\ (forall q, In (Rat q) (map return_on_assets sv) -> lo <= q <= hi)
          /\ (hi == lo -> rg == 1) /\ (~ hi == lo -> rg == hi - lo)
          /\ forall (i : nat) (r : Row rational), nth_error sv i = Some r ->
               exists (v t : Q) (cr cg cb : Z),
                 return_on_assets r = Rat v /\ normalized sv r = Rat t
                 /\ t == (v - lo) / rg
                 /\ (hi == lo -> t == 0 /\ cr = 0%Z /\ cg = 102%Z /\ cb = 255%Z)
                 /\ cr = Qtrunc (255 * t) /\ cg = Qtrunc (102 - 42 * t)
                 /\ cb = Qtrunc (255 - 195 * t)
                 /\ nth_error (marker_color fig) i = Some (rgba cr cg cb (lit "0.70"))
                 /\ nth_error (marker_line_color fig) i
                    = Some (rgba (Z.max (cr - 40) 0) (Z.max (cg - 40) 0)
                                 (Z.max (cb - 40) 0) (lit "0.95")))
  /\ scenario_normalized (F := rational) = [Rat 0; Rat (1 # 2); Rat 1]
  /\ scenario_normalized (F := float) = [0%float; 0.5%float; 1%float]
  /\ (exists fig : Figure float,
        scenario_chart = Ok (Some fig)
        /\ marker_color fig = [rgba 0 102 255 (lit "0.70"); rgba 127 81 157 (lit "0.70");
                               rgba 255 60 60 (lit "0.70")]
        /\ marker_line_color fig = [rgba 0 62 215 (lit "0.95"); rgba 87 41 117 (lit "0.95");
                                    rgba 215 20 20 (lit "0.95")])
  /\ (exists fig : Figure float,
        create_bubble_chart mixed_frame period_P2 all_names = Ok (Some fig)
        /\ marker_color fig = [rgba 0 102 255 (lit "0.70")])
  /\ (forall (df : DataFrame float) (rs : list (Row float)) (p : str) (s : list str)
             (fig : Figure float) (x : float),
        wf df -> rows_of df = Ok rs -> create_bubble_chart df p s = Ok (Some fig) ->
        (forall r, In r (surviving p s rs) -> return_on_assets r = x) ->
        forall (i : nat) (r : Row float), nth_error (surviving p s rs) i = Some r ->
          normalized (surviving p s rs) r = 0%float
          /\ nth_error (marker_color fig) i = Some (rgba 0 102 255 (lit "0.70"))
          /\ nth_error (marker_line_color fig) i = Some (rgba 0 62 215 (lit "0.95"))).
Proof.
  split.
  { intros F arith df rs p s fig Hwf Hrows Hfig. cbv zeta. intros i r Hi.
    destruct (create_bubble_chart_fields p s Hwf Hrows Hfig) as (Hne & _).
    destruct (chart_points p s Hwf Hrows Hfig) as [_ Hpt].
    destruct (Hpt i r Hi) as (_ & (fill & edge & Hc & Hf & He) & _).
    assert (Hna : fisnan (return_on_assets r) = false).
    { pose proof (surviving_notna p s rs) as H. rewrite Forall_forall in H.
      apply H. eapply nth_error_In; exact Hi. }
    assert (Emin : scale_min (surviving p s rs)
                   = series_min (map return_on_assets (surviving p s rs))).
    { unfold scale_min, min_val_of. destruct (surviving p s rs); [contradiction | reflexivity]. }
    assert (Erg : scale_range (surviving p s rs)
                  = if negb (feqb (series_max (map return_on_assets (surviving p s rs)))
                                  (series_min (map return_on_assets (surviving p s rs))))
                    then fsub (series_max (map return_on_assets (surviving p s rs)))
                              (series_min (map return_on_assets (surviving p s rs)))
                    else fofZ 1).
    { unfold scale_range, val_range_of, min_val_of, max_val_of.
      destruct (surviving p s rs); [contradiction | reflexivity]. }
    split.
    - unfold normalized, norm_of. now rewrite Emin, Erg.
    - destruct (color_of_channels _ _ _ Hna Hc) as (cr & cg & cb & Hr & Hg & Hb & -> & ->).
      unfold norm_of in Hr, Hg, Hb. rewrite Emin, Erg in Hr, Hg, Hb.
      exists cr, cg, cb. repeat split; assumption. }
  split.
  { intros df rs p s fig Hwf Hrows Hfig.
    destruct (chart_point_colours p s Hwf Hrows Hfig)
      as (lo & hi & rg & Ilo & Ihi & Hb & H1 & H2 & Hpt).
    exists lo, hi, rg. repeat (split; [assumption|]).
    intros i r Hi. destruct (Hpt i r Hi) as (v & t & Ev & Et & Ht & _ & H0 & Hf & He).
    exists v, t, (Qtrunc (255 * t)), (Qtrunc (102 - 42 * t)), (Qtrunc (255 - 195 * t)).
    split; [exact Ev|]. split; [exact Et|]. split; [exact Ht|].
    split.
    { intros E. pose proof (H0 E) as E0. split; [exact E0|].
      split; [|split].
      - rewrite (Qtrunc_comp (p := 255 * t) (q := 0)); [reflexivity | rewrite E0; ring].
      - rewrite (Qtrunc_comp (p := 102 - 42 * t) (q := 102)); [reflexivity | rewrite E0; ring].
      - rewrite (Qtrunc_comp (p := 255 - 195 * t) (q := 255)); [reflexivity | rewrite E0; ring]. }
    repeat (split; [reflexivity|]). split; [exact Hf | exact He]. }
  split; [reflexivity|]. split; [vm_compute; reflexivity|].
  split.
  { eexists. split; [vm_compute; reflexivity|]. split; vm_compute; reflexivity. }
  split.
  { eexists. split; [vm_compute; reflexivity|]. vm_compute; reflexivity. }
  exact (@constant_returns_blue).
Qed.

(** C1: in every arithmetic, the colours of the i-th point of a returned
    chart are the texts "rgba(r,g,b,a)" and
    "rgba(max(r-40,0),max(g-40,0),max(b-40,0),0.95)", where r, g, b are
    the decimal numerals of [int(0 + 255 t)], [int(102 - 42 t)],
    [int(255 - 195 t)] for t = (value - min_val) / val_range, min_val and
    max_val being the least and greatest return on assets of the surviving
    rows and val_range their difference, or 1 when they are equal, and a
    is [f'{0.7:.2f}'], which is "0.70" in exact arithmetic and in
    binary64.  In exact arithmetic t is that quotient of rationals, it is
    0 for every point when minimum and maximum coincide (a single row
    included), which gives the blue "rgba(0,102,255,0.70)", and the
    channels are the truncations of 255 t, 102 - 42 t and 255 - 195 t.
    For returns of 1%, 5% and 9% the normalized values are 0, 1/2 and 1,
    in exact arithmetic and in binary64, where the three colours are
    "rgba(0,102,255,0.70)", "rgba(127,81,157,0.70)" and
    "rgba(255,60,60,0.70)".  In binary64 too, when all surviving rows have
    the same return, every point of a returned chart has normalized value
    0 and the colour "rgba(0,102,255,0.70)". *)
Theorem fill_color_normalized :
  (forall (F : Type) (arith : Arith F) (df : DataFrame F) (rs : list (Row F))
          (p : str) (s : list str) (fig : Figure F),
      wf df -> rows_of df = Ok rs -> create_bubble_chart df p s = Ok (Some fig) ->
      let sv := surviving p s rs in
      let min_val := series_min (map return_on_assets sv) in
      let max_val := series_max (map return_on_assets sv) in
      let val_range :=
        if negb (feqb max_val min_val) then fsub max_val min_val else fofZ 1 in
      forall (i : nat) (r : Row F), nth_error sv i = Some r ->
        let t := fdiv (fsub (return_on_assets r) min_val) val_range in
        normalized sv r = t
        /\ exists cr cg cb : Z,
             fint (fadd (fofZ 0) (fmul (fofZ 255) t)) = Ok cr
             /\ fint (fadd (fofZ 102) (fmul (fofZ (-42)) t)) = Ok cg
             /\ fint (fadd (fofZ 255) (fmul (fofZ (-195)) t)) = Ok cb
             /\ nth_error (marker_color fig) i
                = Some (lit "rgba(" ++ dec_Z cr ++ lit "," ++ dec_Z cg ++ lit ","
                        ++ dec_Z cb ++ lit ","
                        ++ ffixed 2 (fdiv (fofZ 7) (fofZ 10)) ++ lit ")")
             /\ nth_error (marker_line_color fig) i
                = Some (lit "rgba(" ++ dec_Z (Z.max (cr - 40) 0) ++ lit ","
                        ++ dec_Z (Z.max (cg - 40) 0) ++ lit ","
                        ++ dec_Z (Z.max (cb - 40) 0) ++ lit ",0.95)"))
  /\ (forall (df : DataFrame rational) (rs : list (Row rational)) (p : str) (s : list str)
             (fig : Figure rational),
        wf df -> rows_of df = Ok rs -> create_bubble_chart df p s = Ok (Some fig) ->
        let sv := surviving p s rs in
        exists lo hi rg : Q,
          In (Rat lo) (map return_on_assets sv) /\ In (Rat hi) (map return_on_assets sv)
          /\ (forall q, In (Rat q) (map return_on_assets sv) -> lo <= q <= hi)
          /\ (hi == lo -> rg == 1) /\ (~ hi == lo -> rg == hi - lo)
          /\ forall (i : nat) (r : Row rational), nth_error sv i = Some r ->
               exists (v t : Q) (cr cg cb : Z),
                 return_on_assets r = Rat v /\ normalized sv r = Rat t
                 /\ t == (v - lo) / rg
                 /\ (hi == lo -> t == 0 /\ cr = 0%Z /\ cg = 102%Z /\ cb = 255%Z)
                 /\ cr = Qtrunc (255 * t) /\ cg = Qtrunc (102 - 42 * t)
                 /\ cb = Qtrunc (255 - 195 * t)
                 /\ nth_error (marker_color fig) i
                    = Some (lit "rgba(" ++ dec_Z cr ++ lit "," ++ dec_Z cg ++ lit ","
                            ++ dec_Z cb ++ lit ",0.70)")
                 /\ nth_error (marker_line_color fig) i
                    = Some (lit "rgba(" ++ dec_Z (Z.max (cr - 40) 0) ++ lit ","
                            ++ dec_Z (Z.max (cg - 40) 0) ++ lit ","
                            ++ dec_Z (Z.max (cb - 40) 0) ++ lit ",0.95)"))
  /\ scenario_normalized (F := rational) = [Rat 0; Rat (1 # 2); Rat 1]
  /\ scenario_normalized (F := float) = [0%float; 0.5%float; 1%float]
  /\ (exists fig : Figure float,
        scenario_chart = Ok (Some fig)
        /\ marker_color fig = [lit "rgba(0,102,255,0.70)"; lit "rgba(127,81,157,0.70)";
                               lit "rgba(255,60,60,0.70)"]
        /\ marker_line_color fig = [lit "rgba(0,62,215,0.95)"; lit "rgba(87,41,117,0.95)";
                                    lit "rgba(215,20,20,0.95)"])
  /\ (exists fig : Figure float,
        create_bubble_chart mixed_frame period_P2 all_names = Ok (Some fig)
        /\ marker_color fig = [lit "rgba(0,102,255,0.70)"])
  /\ (forall (df : DataFrame float) (rs : list (Row float)) (p : str) (s : list str)
             (fig : Figure float) (x : float),
        wf df -> rows_of df = Ok rs -> create_bubble_chart df p s = Ok (Some fig) ->
        (forall r, In r (surviving p s rs) -> return_on_assets r = x) ->
        forall (i : nat) (r : Row float), nth_error (surviving p s rs) i = Some r ->
          normalized (surviving p s rs) r = 0%float
          /\ nth_error (marker_color fig) i = Some (lit "rgba(0,102,255,0.70)")
          /\ nth_error (marker_line_color fig) i = Some (lit "rgba(0,62,215,0.95)"))
  /\ ffixed 2 (fdiv (fofZ 7) (fofZ 10) : rational) = lit "0.70"
  /\ ffixed 2 (fdiv (fofZ 7) (fofZ 10) : float) = lit "0.70"
  /\ (forall z : Z, read_int (dec_Z z) = Some z).
Proof.
  destruct point_colours_rgba as (G & R & S1 & S2 & S3 & S4 & S5).
  split.
  { intros F arith df rs p s fig Hwf Hrows Hfig.
    pose proof (G F arith df rs p s fig Hwf Hrows Hfig) as G'. cbv zeta in G' |- *.
    intros i r Hi. destruct (G' i r Hi) as (Hn & cr & cg & cb & Hr & Hg & Hb & Hf & He).
    split; [exact Hn|]. exists cr, cg, cb.
    split; [exact Hr|]. split; [exact Hg|]. split; [exact Hb|].
    split; [exact Hf | exact He]. }
  split.
  { intros df rs p s fig Hwf Hrows Hfig.
    pose proof (R df rs p s fig Hwf Hrows Hfig) as R'. cbv zeta in R' |- *.
    destruct R' as (lo & hi & rg & Ilo & Ihi & Hb & H1 & H2 & Hpt).
    exists lo, hi, rg. repeat (split; [assumption|]).
    intros i r Hi.
    destruct (Hpt i r Hi) as (v & t & cr & cg & cb & Ev & Et & Ht & H0 & Er & Eg & Eb & Hf & He).
    exists v, t, cr, cg, cb.
    split; [exact Ev|]. split; [exact Et|]. split; [exact Ht|]. split; [exact H0|].
    split; [exact Er|]. split; [exact Eg|]. split; [exact Eb|].
    split; [exact Hf | exact He]. }
  split; [exact S1|]. split; [exact S2|].
  split.
  { eexists. split; [vm_compute; reflexivity|]. split; vm_compute; reflexivity. }
  split.
  { eexists. split; [vm_compute; reflexivity|]. vm_compute; reflexivity. }
  split.
  { intros df rs p s fig x Hwf Hrows Hfig Hall i r Hi.
    destruct (S5 df rs p s fig x Hwf Hrows Hfig Hall i r Hi) as (A & B & C).
    split; [exact A|]. split; [exact B | exact C]. }
  split; [reflexivity|]. split; [vm_compute; reflexivity|]. exact dec_Z_read.
Qed.

Lemma fill_color_normalized_witness :
  wf (scenario_frame (F := rational))
  /\ rows_of scenario_frame = Ok scenario_rows
  /\ create_bubble_chart scenario_frame period_P1 all_names = Ok scenario_figure
  /\ exists (fig : Figure rational) (lo hi rg : Q),
       scenario_figure = Some fig
       /\ In (Rat lo) (map return_on_assets (surviving period_P1 all_names scenario_rows))
       /\ In (Rat hi) (map return_on_assets (surviving period_P1 all_names scenario_rows))
       /\ (~ hi == lo -> rg == hi - lo).
Proof.
  split; [exact scenario_frame_wf|]. split; [reflexivity|]. split; [reflexivity|].
  destruct (proj1 (proj2 fill_color_normalized) scenario_frame scenario_rows period_P1
              all_names _ scenario_frame_wf eq_refl eq_refl)
    as (lo & hi & rg & Ilo & Ihi & _ & _ & H2 & _).
  eexists. exists lo, hi, rg. split; [reflexivity|]. repeat split; assumption.
Defined.

(** The ranges in exact arithmetic, the colours written with [rgba]. *)
Lemma channels_in_range_exact (df : DataFrame rational) (rs : list (Row rational))
    (p : str) (s : list str) (fig : Figure rational) :
  wf df -> rows_of df = Ok rs -> create_bubble_chart df p s = Ok (Some fig) ->
  let sv := surviving p s rs in
  (forall r : Row rational, In r sv -> exists t : Q, normalized sv r = Rat t /\ 0 <= t <= 1)
  /\ forall (i : nat) (fill : str), nth_error (marker_color fig) i = Some fill ->
       exists cr cg cb : Z,
         fill = rgba cr cg cb (lit "0.70")
         /\ nth_error (marker_line_color fig) i
            = Some (rgba (Z.max (cr - 40) 0) (Z.max (cg - 40) 0) (Z.max (cb - 40) 0)
                         (lit "0.95"))
         /\ (0 <= cr <= 255)%Z /\ (60 <= cg <= 102)%Z /\ (60 <= cb <= 255)%Z
         /\ in_byte (Z.max (cr - 40) 0) /\ in_byte (Z.max (cg - 40) 0)
         /\ in_byte (Z.max (cb - 40) 0).
Proof.
  intros Hwf Hrows Hfig. cbv zeta.
  destruct (chart_point_colours p s Hwf Hrows Hfig)
    as (lo & hi & rg & _ & _ & _ & _ & _ & Hpt).
  destruct (chart_points p s Hwf Hrows Hfig) as [(_ & Hlen & _) _].
  split.
  - intros r Hr. destruct (In_nth_error _ _ Hr) as [i Hi].
    destruct (Hpt i r Hi) as (v & t & _ & Et & _ & H01 & _). now exists t.
  - intros i fill Hi.
    assert (Hlt : (i < length (surviving p s rs))%nat).
    { rewrite <- Hlen. apply nth_error_Some. now rewrite Hi. }
    destruct (nth_error (surviving p s rs) i) as [r|] eqn:Er;
      [|apply nth_error_None in Er; lia].
    destruct (Hpt i r Er) as (v & t & _ & _ & _ & H01 & _ & Hf & He).
    rewrite Hf in Hi. inversion Hi; subst fill.
    destruct (channel_bounds H01) as (Br & Bg & Bb).
    exists (Qtrunc (255 * t)), (Qtrunc (102 - 42 * t)), (Qtrunc (255 - 195 * t)).
    split; [reflexivity|]. split; [exact He|].
    unfold in_byte. repeat split; lia.
Qed.

(** C9: in a returned chart every fill colour is the text
    "rgba(r,g,b,0.70)" with the decimal numerals of r in [0,255], g in
    [60,102] and b in [60,255], every border colour is the text
    "rgba(r',g',b',0.95)" with r' = max(r - 40, 0) and likewise g' and b',
    all in [0,255], and the normalized value of every surviving row lies in
    [0,1].  This holds in binary64, the arithmetic of the program, where
    the subtraction, the division, the products and the sums all round,
    and in exact arithmetic. *)
Theorem color_channels_in_range :
  (forall (df : DataFrame float) (rs : list (Row float)) (p : str) (s : list str)
          (fig : Figure float),
      wf df -> rows_of df = Ok rs -> create_bubble_chart df p s = Ok (Some fig) ->
      let sv := surviving p s rs in
      (forall r : Row float, In r sv ->
         PrimFloat.leb 0 (normalized sv r) = true
         /\ PrimFloat.leb (normalized sv r) 1 = true)
      /\ forall (i : nat) (fill : str), nth_error (marker_color fig) i = Some fill ->
           exists cr cg cb : Z,
             fill = lit "rgba(" ++ dec_Z cr ++ lit "," ++ dec_Z cg ++ lit ","
                    ++ dec_Z cb ++ lit ",0.70)"
             /\ nth_error (marker_line_color fig) i
                = Some (lit "rgba(" ++ dec_Z (Z.max (cr - 40) 0) ++ lit ","
                        ++ dec_Z (Z.max (cg - 40) 0) ++ lit ","
                        ++ dec_Z (Z.max (cb - 40) 0) ++ lit ",0.95)")
             /\ (0 <= cr <= 255)%Z /\ (60 <= cg <= 102)%Z /\ (60 <= cb <= 255)%Z
             /\ in_byte (Z.max (cr - 40) 0) /\ in_byte (Z.max (cg - 40) 0)
             /\ in_byte (Z.max (cb - 40) 0))
  /\ (forall (df : DataFrame rational) (rs : list (Row rational)) (p : str) (s : list str)
             (fig : Figure rational),
        wf df -> rows_of df = Ok rs -> create_bubble_chart df p s = Ok (Some fig) ->
        let sv := surviving p s rs in
        (forall r : Row rational, In r sv ->
           exists t : Q, normalized sv r = Rat t /\ 0 <= t <= 1)
        /\ forall (i : nat) (fill : str), nth_error (marker_color fig) i = Some fill ->
             exists cr cg cb : Z,
               fill = lit "rgba(" ++ dec_Z cr ++ lit "," ++ dec_Z cg ++ lit ","
                      ++ dec_Z cb ++ lit ",0.70)"
               /\ nth_error (marker_line_color fig) i
                  = Some (lit "rgba(" ++ dec_Z (Z.max (cr - 40) 0) ++ lit ","
                          ++ dec_Z (Z.max (cg - 40) 0) ++ lit ","
                          ++ dec_Z (Z.max (cb - 40) 0) ++ lit ",0.95)")
               /\ (0 <= cr <= 255)%Z /\ (60 <= cg <= 102)%Z /\ (60 <= cb <= 255)%Z
               /\ in_byte (Z.max (cr - 40) 0) /\ in_byte (Z.max (cg - 40) 0)
               /\ in_byte (Z.max (cb - 40) 0))
  /\ (forall z : Z, read_int (dec_Z z) = Some z).
Proof.
  split; [|split; [|exact dec_Z_read]].
  - intros df rs p s fig Hwf Hrows Hfig. cbv zeta.
    destruct (@binary64_point df rs p s fig Hwf Hrows Hfig) as (Hne & Hna & Hlen & Hpt).
    assert (K0 : float_key 0%float == 0) by (vm_compute; reflexivity).
    assert (K1 : float_key 1%float == 1) by (vm_compute; reflexivity).
    split.
    + intros r Hr. destruct (In_nth_error _ _ Hr) as [i Hi].
      destruct (Hpt i r Hi) as (cr & cg & cb & _ & Fin & _).
      destruct (@normalized_unit _ r Hne Hna Hr Fin) as [T0 T1].
      pose proof (@is_finite_not_nan _ Fin) as Nt.
      pose proof (@key_val _ Fin) as Kt.
      split.
      * apply (@leb_key 0%float _ eq_refl Nt). lra.
      * apply (@leb_key _ 1%float Nt eq_refl). lra.
    + intros i fill Hi.
      assert (Hlt : (i < length (surviving p s rs))%nat).
      { rewrite <- Hlen. apply nth_error_Some. now rewrite Hi. }
      destruct (nth_error (surviving p s rs) i) as [r|] eqn:Er;
        [|apply nth_error_None in Er; lia].
      destruct (Hpt i r Er) as (cr & cg & cb & Ec & Fin & Hf & He).
      rewrite Hf in Hi. inversion Hi; subst fill.
      destruct (@normalized_unit _ r Hne Hna (nth_error_In _ _ Er) Fin) as [T0 T1].
      destruct (@channels_range _ cr cg cb Ec T0 T1) as (Br & Bg & Bb).
      exists cr, cg, cb. split; [reflexivity|]. split; [exact He|].
      unfold in_byte. repeat split; lia.
  - intros df rs p s fig Hwf Hrows Hfig.
    pose proof (@channels_in_range_exact df rs p s fig Hwf Hrows Hfig) as H.
    cbv zeta in H |- *. destruct H as [H1 H2]. split; [exact H1|].
    intros i fill Hi. destruct (H2 i fill Hi) as (cr & cg & cb & E & Hb & R).
    exists cr, cg, cb. split; [exact E|]. split; [exact Hb | exact R].
Qed.

Lemma color_channels_in_range_witness :
  wf (mixed_frame (F := float))
  /\ rows_of mixed_frame = Ok mixed_rows_binary64
  /\ create_bubble_chart mixed_frame period_P1 all_names = Ok mixed_figure_binary64
  /\ exists fig : Figure float,
       mixed_figure_binary64 = Some fig
       /\ marker_color fig = [lit "rgba(255,60,60,0.70)"; lit "rgba(0,102,255,0.70)"]
       /\ forall r : Row float, In r (surviving period_P1 all_names mixed_rows_binary64) ->
            PrimFloat.leb 0 (normalized (surviving period_P1 all_names mixed_rows_binary64) r)
            = true
            /\ PrimFloat.leb (normalized (surviving period_P1 all_names mixed_rows_binary64) r) 1
               = true.
Proof.
  split; [exact mixed_frame_wf_binary64|]. split; [reflexivity|]. split; [reflexivity|].
  eexists. split; [reflexivity|]. split; [reflexivity|].
  exact (proj1 (proj1 color_channels_in_range mixed_frame mixed_rows_binary64
                  period_P1 all_names _ mixed_frame_wf_binary64 eq_refl eq_refl)).
Defined.

(** X1: when [create_bubble_chart] returns no data.  For a frame with the
    encoder's columns and every arithmetic, [create_bubble_chart] returns
    [None] (no data) exactly when every row that matches the period and the
    selection lacks one of asset turnover, net profit margin and return on
    assets, in particular when the selection is empty and when no row
    matches; a chart that is returned has exactly the matching rows that
    have all three as its points, in order, so an incomplete row is left
    out and the others are encoded.  In exact arithmetic, where a present
    value is a finite number, a chart is returned whenever one such row
    exists. *)
Theorem encode_nodata_or_chart :
  (forall (F : Type) (arith : Arith F) (df : DataFrame F) (rs : list (Row F))
          (p : str) (s : list str),
      wf df -> rows_of df = Ok rs ->
      (create_bubble_chart df p s = Ok None <->
       forall r, In r rs -> matches p s r = true ->
         cell_notna (turnover r) = false \/ fisnan (net_profit_margin r) = true
         \/ fisnan (return_on_assets r) = true)
      /\ (s = [] -> create_bubble_chart df p s = Ok None)
      /\ ((forall r, In r rs -> matches p s r = false) ->
          create_bubble_chart df p s = Ok None)
      /\ (forall r, In r (surviving p s rs) <->
                    In r rs /\ matches p s r = true /\ cell_notna (turnover r) = true
                    /\ fisnan (net_profit_margin r) = false
                    /\ fisnan (return_on_assets r) = false)
      /\ (forall fig : Figure F, create_bubble_chart df p s = Ok (Some fig) ->
            customdata fig = map entity_name (surviving p s rs)
            /\ trace_x fig = map turnover (surviving p s rs)
            /\ trace_y fig
               = map (fun r => fmul (net_profit_margin r) (fofZ 100)) (surviving p s rs)
            /\ marker_size fig = map diameter (surviving p s rs)))
  /\ (forall (df : DataFrame rational) (rs : list (Row rational)) (p : str) (s : list str),
        wf df -> rows_of df = Ok rs ->
        (exists r, In r rs /\ matches p s r = true /\ cell_notna (turnover r) = true
                   /\ fisnan (net_profit_margin r) = false
                   /\ fisnan (return_on_assets r) = false) ->
        exists fig : Figure rational, create_bubble_chart df p s = Ok (Some fig)).
Proof.
  split.
  { intros F arith df rs p s Hwf Hrows.
    pose proof (create_bubble_chart_nodata p s Hwf Hrows) as Hnd.
    split; [now rewrite Hnd, surviving_nil|].
    split.
    { intros ->. apply Hnd, surviving_nil. intros r _ Hm.
      unfold matches in Hm. rewrite str_in_nil, andb_false_r in Hm. discriminate. }
    split.
    { intros H. apply Hnd, surviving_nil. intros r Hr Hm.
      rewrite (H r Hr) in Hm. discriminate. }
    split.
    { intros r. rewrite surviving_In, complete_iff. tauto. }
    intros fig Hfig.
    destruct (create_bubble_chart_fields p s Hwf Hrows Hfig) as (_ & cs & _ & ->).
    repeat split. }
  intros df rs p s Hwf Hrows (r & Hr & Hm & Hk).
  rewrite (create_bubble_chart_encode p s Hwf Hrows).
  apply encode_total; [|apply surviving_notna].
  assert (Hin : In r (surviving p s rs)).
  { apply surviving_In. split; [exact Hr|]. split; [exact Hm|]. now apply complete_iff. }
  intros E. rewrite E in Hin. exact Hin.
Qed.

Lemma encode_nodata_or_chart_witness :
  wf (mixed_frame (F := rational))
  /\ rows_of mixed_frame = Ok mixed_rows
  /\ create_bubble_chart (mixed_frame (F := rational)) period_P1 [] = Ok None
  /\ create_bubble_chart mixed_frame period_P1 all_names = Ok mixed_figure
  /\ (exists fig : Figure rational,
        mixed_figure = Some fig /\ customdata fig = [name_A; name_E]).
Proof.
  split; [exact mixed_frame_wf|]. split; [reflexivity|].
  split; [|split; [reflexivity | eexists; split; reflexivity]].
  exact (proj1 (proj2 (proj1 encode_nodata_or_chart rational rational_arith mixed_frame
                         mixed_rows period_P1 [] mixed_frame_wf eq_refl)) eq_refl).
Defined.

(** C3: the label and the font size of every point follow from its
    diameter d by the two tests d < 50 and d < 80 of the source, in every
    arithmetic: size 8 and the first 3 characters plus "..." for a name
    longer than 4; else size 10 and the first 5 characters plus "..." for a
    name longer than 6; else size 12 and the whole name.  In exact
    arithmetic the three cases are d < 50, 50 <= d < 80 and 80 <= d.  The
    hover name is always the whole entity name.  A name of 10 characters is
    cut to 3 characters plus "..." at diameter 40 and shown whole at
    diameter 100, in exact arithmetic and in binary64. *)
Theorem adaptive_label_tiers :
  (forall (F : Type) (arith : Arith F) (df : DataFrame F) (rs : list (Row F))
          (p : str) (s : list str) (fig : Figure F),
      wf df -> rows_of df = Ok rs -> create_bubble_chart df p s = Ok (Some fig) ->
      forall (i : nat) (r : Row F), nth_error (surviving p s rs) i = Some r ->
        exists (d : F) (label : str) (size : Z),
          nth_error (marker_size fig) i = Some d
          /\ nth_error (trace_text fig) i = Some label
          /\ nth_error (textfont_size fig) i = Some size
          /\ nth_error (customdata fig) i = Some (entity_name r)
          /\ (fltb d (fofZ 50) = true ->
              size = 8%Z
              /\ label = if (4 <? length (entity_name r))%nat
                         then firstn 3 (entity_name r) ++ lit "..."
                         else entity_name r)
          /\ (fltb d (fofZ 50) = false -> fltb d (fofZ 80) = true ->
              size = 10%Z
              /\ label = if (6 <? length (entity_name r))%nat
                         then firstn 5 (entity_name r) ++ lit "..."
                         else entity_name r)
          /\ (fltb d (fofZ 50) = false -> fltb d (fofZ 80) = false ->
              size = 12%Z /\ label = entity_name r))
  /\ (forall (df : DataFrame rational) (rs : list (Row rational)) (p : str) (s : list str)
             (fig : Figure rational),
        wf df -> rows_of df = Ok rs -> create_bubble_chart df p s = Ok (Some fig) ->
        forall (i : nat) (r : Row rational), nth_error (surviving p s rs) i = Some r ->
          exists (d : Q) (label : str) (size : Z),
            nth_error (marker_size fig) i = Some (Rat d)
            /\ nth_error (trace_text fig) i = Some label
            /\ nth_error (textfont_size fig) i = Some size
            /\ nth_error (customdata fig) i = Some (entity_name r)
            /\ (d < 50 ->
                size = 8%Z
                /\ label = if (4 <? length (entity_name r))%nat
                           then firstn 3 (entity_name r) ++ lit "..."
                           else entity_name r)
            /\ (50 <= d < 80 ->
                size = 10%Z
                /\ label = if (6 <? length (entity_name r))%nat
                           then firstn 5 (entity_name r) ++ lit "..."
                           else entity_name r)
            /\ (80 <= d -> size = 12%Z /\ label = entity_name r))
  /\ (forall name : str, length name = 10%nat ->
        label_of (fofZ 40 : rational) name = (firstn 3 name ++ lit "...", 8%Z)
        /\ label_of (fofZ 100 : rational) name = (name, 12%Z))
  /\ (forall name : str, length name = 10%nat ->
        label_of (fofZ 40 : float) name = (firstn 3 name ++ lit "...", 8%Z)
        /\ label_of (fofZ 100 : float) name = (name, 12%Z)).
Proof.
  split; [|split; [|split]].
  - intros F arith df rs p s fig Hwf Hrows Hfig i r Hi.
    destruct (chart_points p s Hwf Hrows Hfig) as [_ Hpt].
    destruct (Hpt i r Hi) as (Hs & _ & Ht & Hf & _ & _ & Hn).
    destruct (label_of_tiers (bubble_size (return_on_assets r)) (entity_name r))
      as (T1 & T2 & T3).
    exists (bubble_size (return_on_assets r)),
           (fst (label_of (bubble_size (return_on_assets r)) (entity_name r))),
           (snd (label_of (bubble_size (return_on_assets r)) (entity_name r))).
    repeat (split; [assumption|]).
    split; [|split].
    + intros H. now rewrite (T1 H).
    + intros H1 H2. now rewrite (T2 H1 H2).
    + intros H1 H2. now rewrite (T3 H1 H2).
  - intros df rs p s fig Hwf Hrows Hfig i r Hi.
    destruct (chart_points p s Hwf Hrows Hfig) as [_ Hpt].
    destruct (Hpt i r Hi) as (Hs & _ & Ht & Hf & _ & _ & Hn).
    assert (Hna : fisnan (return_on_assets r) = false).
    { pose proof (surviving_notna p s rs) as H. rewrite Forall_forall in H.
      apply H. eapply nth_error_In; exact Hi. }
    destruct (return_on_assets r) as [v|] eqn:Ev; [|discriminate].
    destruct (bubble_size_exact v) as (d & Ed & _). rewrite Ed in Hs, Ht, Hf.
    destruct (label_of_exact d (entity_name r)) as (T1 & T2 & T3).
    exists d, (fst (label_of (Rat d) (entity_name r))),
           (snd (label_of (Rat d) (entity_name r))).
    repeat (split; [assumption|]).
    split; [|split]; intros H.
    + now rewrite (T1 H).
    + now rewrite (T2 H).
    + now rewrite (T3 H).
  - intros name Hlen. unfold label_of.
    change (fltb (fofZ 40 : rational) (fofZ 50)) with true.
    change (fltb (fofZ 100 : rational) (fofZ 50)) with false.
    change (fltb (fofZ 100 : rational) (fofZ 80)) with false.
    now rewrite Hlen.
  - intros name Hlen. unfold label_of.
    replace (fltb (fofZ 40 : float) (fofZ 50)) with true by (vm_compute; reflexivity).
    replace (fltb (fofZ 100 : float) (fofZ 50)) with false by (vm_compute; reflexivity).
    replace (fltb (fofZ 100 : float) (fofZ 80)) with false by (vm_compute; reflexivity).
    now rewrite Hlen.
Qed.

Lemma adaptive_label_tiers_witness :
  wf (scenario_frame (F := rational))
  /\ rows_of scenario_frame = Ok scenario_rows
  /\ create_bubble_chart scenario_frame period_P1 all_names = Ok scenario_figure
  /\ exists (fig : Figure rational) (r : Row rational) (d : Q) (label : str) (size : Z),
       scenario_figure = Some fig
       /\ nth_error (surviving period_P1 all_names scenario_rows) 2 = Some r
       /\ nth_error (marker_size fig) 2 = Some (Rat d)
       /\ nth_error (trace_text fig) 2 = Some label
       /\ nth_error (textfont_size fig) 2 = Some size
       /\ (50 <= d < 80 -> size = 10%Z).
Proof.
  split; [exact scenario_frame_wf|]. split; [reflexivity|]. split; [reflexivity|].
  destruct (proj1 (proj2 adaptive_label_tiers) scenario_frame scenario_rows period_P1
              all_names _ scenario_frame_wf eq_refl eq_refl 2%nat _ eq_refl)
    as (d & label & size & Hs & Ht & Hf & _ & _ & T2 & _).
  eexists. eexists. exists d, label, size.
  split; [reflexivity|]. split; [reflexivity|].
  split; [exact Hs|]. split; [exact Ht|]. split; [exact Hf|].
  intros H. exact (proj1 (T2 H)).
Defined.

(** C4 does not hold in binary64 when a return on assets is infinite.  The
    one row of [infinite_frame] matches the period and the selection and
    has all three fields present, an infinity not being a missing value, so
    C4 promises a chart with that row.  Its minimum and maximum are the
    same infinity, the range is therefore 1, the normalized value
    (inf - inf) / 1 is NaN, and [int] raises [ValueError] on the first
    colour channel: [create_bubble_chart] returns neither a chart nor
    [None]. *)
Theorem infinite_return_raises :
  wf infinite_frame
  /\ (exists r : Row float,
        rows_of infinite_frame = Ok [r]
        /\ matches period_P1 all_names r = true
        /\ cell_notna (turnover r) = true
        /\ fisnan (net_profit_margin r) = false
        /\ fisnan (return_on_assets r) = false
        /\ surviving period_P1 all_names [r] = [r]
        /\ normalized [r] r = PrimFloat.nan)
  /\ create_bubble_chart infinite_frame period_P1 all_names = Raise ValueError.
Proof.
  split; [vm_compute; intuition reflexivity|].
  split; [|vm_compute; reflexivity].
  eexists. split; [reflexivity|].
  repeat (split; [vm_compute; reflexivity|]). vm_compute. reflexivity.
Qed.
End EncoderClaims.

(** ** The specification's properties of the Data Preparer *)

(** C6: [preprocess_data] is idempotent, for every parser and printer of
    numbers: a second pass derives the same fractions from the raw columns,
    which the first pass left as they were, finds asset turnover already
    numeric and the period already a text. *)
Theorem preprocess_data_idempotent {F : Type} {arith : Arith F}
    (parse_number : str -> F) (repr_number : F -> str) (df : DataFrame F) :
  preprocess_data parse_number repr_number (preprocess_data parse_number repr_number df)
  = preprocess_data parse_number repr_number df
  /\ npm_raw (preprocess_data parse_number repr_number df) = npm_raw df
  /\ roa_raw (preprocess_data parse_number repr_number df) = roa_raw df
  /\ (forall c : cell F,
        to_numeric parse_number (Num (to_numeric parse_number c))
        = to_numeric parse_number c)
  /\ (forall c : cell F,
        astype_str repr_number (astype_str repr_number c) = astype_str repr_number c).
Proof.
  split; [|split; [|split; [|split]]].
  - apply preprocess_data_twice.
  - exact (proj1 (proj2 (preprocess_data_columns parse_number repr_number df))).
  - exact (proj1 (proj2 (proj2 (preprocess_data_columns parse_number repr_number df)))).
  - intros c. apply to_numeric_Num.
  - intros c. apply astype_str_idem.
Qed.

Section Binary64Facts.

Lemma shr_1_nonneg (mrs : shr_record) : (0 <= shr_m mrs)%Z -> (0 <= shr_m (shr_1 mrs))%Z.
Proof.
  destruct mrs as [m r s]. simpl. destruct m as [|[p|p|]|p]; simpl; lia.
Qed.

Lemma iter_shr_1_nonneg (p : positive) (mrs : shr_record) :
  (0 <= shr_m mrs)%Z -> (0 <= shr_m (iter_pos shr_1 p mrs))%Z.
Proof.
  revert mrs. induction p as [p IH|p IH|]; intros mrs H; simpl.
  - apply IH, IH, shr_1_nonneg, H.
  - apply IH, IH, H.
  - apply shr_1_nonneg, H.
Qed.

Lemma shr_fexp_nonneg (prec emax m e : Z) (l : location) :
  (0 <= m)%Z -> (0 <= shr_m (fst (shr_fexp prec emax m e l)))%Z.
Proof.
  intros H. unfold shr_fexp, shr.
  assert (H0 : (0 <= shr_m (shr_record_of_loc m l))%Z).
  { destruct l as [|[]]; exact H. }
  destruct (_ - e)%Z; simpl; try exact H0. now apply iter_shr_1_nonneg.
Qed.

Lemma round_nearest_even_nonneg (m : Z) (l : location) :
  (0 <= m)%Z -> (0 <= round_nearest_even m l)%Z.
Proof.
  intros H. destruct l as [|[]]; simpl; try lia. destruct (Z.even m); lia.
Qed.

(** Rounding a non-negative mantissa never yields NaN. *)
Lemma binary_round_aux_not_nan (prec emax : Z) (s : bool) (m e : Z) (l : location) :
  (0 <= m)%Z -> binary_round_aux prec emax s m e l <> S754_nan.
Proof.
  intros H. unfold binary_round_aux.
  pose proof (@shr_fexp_nonneg prec emax m e l H) as H1.
  destruct (shr_fexp prec emax m e l) as [mrs' e']. simpl in H1.
  pose proof (@shr_fexp_nonneg prec emax _ e' loc_Exact
                (@round_nearest_even_nonneg _ (loc_of_shr_record mrs') H1)) as H2.
  destruct (shr_fexp prec emax _ e' loc_Exact) as [mrs'' e'']. simpl in H2.
  destruct (shr_m mrs'') as [|q|q]; try discriminate; [|lia].
  destruct (e'' <=? emax - prec)%Z; discriminate.
Qed.

Lemma SFdiv_core_nonneg (prec emax : Z) (m1 : positive) (e1 : Z) (m2 : positive) (e2 : Z) :
  (0 <= fst (fst (SFdiv_core_binary prec emax (Zpos m1) e1 (Zpos m2) e2)))%Z.
Proof.
  unfold SFdiv_core_binary.
  set (s := (e1 - e2 - _)%Z).
  set (m' := match s with
             | Zpos _ => Z.shiftl (Zpos m1) s
             | Z0 => Zpos m1
             | Zneg _ => 0%Z
             end).
  assert (Hm : (0 <= m')%Z).
  { unfold m'. destruct s; try lia. apply Z.shiftl_nonneg. lia. }
  pose proof (Z.div_pos m' (Zpos m2) Hm ltac:(lia)) as Hq.
  unfold Z.div in Hq. destruct (Z.div_eucl m' (Zpos m2)) as [q r]. exact Hq.
Qed.

(** A quotient by a finite non-zero float is NaN only for a NaN dividend. *)
Lemma SFdiv_finite_nan (prec emax : Z) (x : spec_float) (s : bool) (m : positive) (e : Z) :
  SFdiv prec emax x (S754_finite s m e) = S754_nan <-> x = S754_nan.
Proof.
  destruct x as [b|b| |b mx ex]; simpl; split; try discriminate; try reflexivity.
  intros H. exfalso.
  pose proof (SFdiv_core_nonneg prec emax mx ex m e) as Hq.
  destruct (SFdiv_core_binary prec emax (Zpos mx) ex (Zpos m) e) as [[mz ez] lz].
  simpl in Hq. exact (@binary_round_aux_not_nan prec emax _ mz ez lz Hq H).
Qed.

Lemma b_div_100_nan (v : float) :
  fisnan (fdiv v (fofZ 100)) = fisnan v.
Proof.
  cbn [fisnan fdiv fofZ binary64_arith]. rewrite !is_nan_Prim2SF, FloatAxioms.div_spec.
  replace (Prim2SF (b_ofZ 100)) with (S754_finite false 7036874417766400 (-46))
    by (vm_compute; reflexivity).
  unfold SF64div.
  pose proof (SFdiv_finite_nan prec emax (Prim2SF v) false 7036874417766400 (-46)) as H.
  destruct (SFdiv prec emax (Prim2SF v) _) eqn:E; destruct (Prim2SF v) eqn:Ev;
    try reflexivity; try (destruct H as [H _]; specialize (H eq_refl); discriminate);
    try (destruct H as [_ H]; specialize (H eq_refl); discriminate).
Qed.
End Binary64Facts.

Section DerivedFractions.
Local Open Scope Q_scope.

Lemma e_div_100_nan (v : rational) : fisnan (fdiv v (fofZ 100)) = fisnan v.
Proof. now destruct v. Qed.

Lemma e_div_100 (q : Q) :
  exists w : Q, fdiv (Rat q) (fofZ 100) = Rat w /\ w == q / 100.
Proof. eexists. split; [reflexivity|]. now rewrite Qred_correct. Qed.

Lemma derived_column {F : Type} {arith : Arith F} (parse_number : str -> F)
    (raw : list (cell F)) :
  (forall v : F, fisnan (fdiv v (fofZ 100)) = fisnan v) ->
  derives_fraction parse_number raw
    (map (fun c => fdiv (to_numeric parse_number c) (fofZ 100)) raw).
Proof.
  intros Hdiv. split; [apply length_map|]. intros i c Hi.
  exists (fdiv (to_numeric parse_number c) (fofZ 100)).
  split; [exact (map_nth_error _ _ _ Hi)|]. split; [reflexivity|].
  rewrite Hdiv. destruct c; simpl; tauto.
Qed.

Lemma preprocess_data_derives {F : Type} {arith : Arith F} (parse_number : str -> F)
    (repr_number : F -> str) (df : DataFrame F) :
  (forall v : F, fisnan (fdiv v (fofZ 100)) = fisnan v) ->
  let df' := preprocess_data parse_number repr_number df in
  stock_name df' = stock_name df
  /\ (forall raw : list (cell F), npm_raw df = Some raw ->
        exists derived : list F,
          npm_value df' = Some derived /\ derives_fraction parse_number raw derived)
  /\ (forall raw : list (cell F), roa_raw df = Some raw ->
        exists derived : list F,
          roa_value df' = Some derived /\ derives_fraction parse_number raw derived).
Proof.
  intros Hdiv.
  destruct (preprocess_data_columns parse_number repr_number df)
    as (E1 & _ & _ & _ & _ & E6 & E7).
  cbv zeta. split; [exact E1|]. split; intros raw Hraw.
  - rewrite E6, Hraw. eexists. split; [reflexivity|]. now apply derived_column.
  - rewrite E7, Hraw. eexists. split; [reflexivity|]. now apply derived_column.
Qed.

(** C5: after [preprocess_data] the rows are those of the input, and for
    each of the two percentage columns that the input has, the derived
    column holds in every row the number of the raw cell divided by 100,
    and NaN (never zero) exactly when the raw cell is blank or a text that
    does not parse; the other rows are unaffected and nothing is raised.
    This holds in exact arithmetic, where the quotient of the rational q is
    the rational q / 100, and in binary64. *)
Theorem derived_fraction :
  (forall (parse_number : str -> rational) (repr_number : rational -> str)
          (df : DataFrame rational),
      let df' := preprocess_data parse_number repr_number df in
      stock_name df' = stock_name df
      /\ (forall raw : list (cell rational), npm_raw df = Some raw ->
            exists derived : list rational,
              npm_value df' = Some derived /\ derives_fraction parse_number raw derived)
      /\ (forall raw : list (cell rational), roa_raw df = Some raw ->
            exists derived : list rational,
              roa_value df' = Some derived /\ derives_fraction parse_number raw derived))
  /\ (forall q : Q, exists w : Q, fdiv (Rat q) (fofZ 100) = Rat w /\ w == q / 100)
  /\ (forall (parse_number : str -> float) (repr_number : float -> str)
             (df : DataFrame float),
        let df' := preprocess_data parse_number repr_number df in
        stock_name df' = stock_name df
        /\ (forall raw : list (cell float), npm_raw df = Some raw ->
              exists derived : list float,
                npm_value df' = Some derived /\ derives_fraction parse_number raw derived)
        /\ (forall raw : list (cell float), roa_raw df = Some raw ->
              exists derived : list float,
                roa_value df' = Some derived /\ derives_fraction parse_number raw derived)).
Proof.
  split; [|split].
  - intros parse_number repr_number df.
    exact (preprocess_data_derives parse_number repr_number df e_div_100_nan).
  - exact e_div_100.
  - intros parse_number repr_number df.
    exact (preprocess_data_derives parse_number repr_number df b_div_100_nan).
Qed.
End DerivedFractions.

Lemma derived_fraction_witness :
  npm_raw (mixed_raw (F := rational))
  = Some [Text (lit "12"); Num (Rat 20); Text (lit "--"); Num (Rat 5); Num (Rat (-3))]
  /\ npm_value (mixed_frame (F := rational))
     = Some [Rat (3 # 25); Rat (1 # 5); NaN; Rat (1 # 20); Rat (-3 # 100)]
  /\ exists derived : list rational,
       npm_value (preprocess_data parse_digits repr_int (mixed_raw (F := rational)))
       = Some derived
       /\ derives_fraction parse_digits
            [Text (lit "12"); Num (Rat 20); Text (lit "--"); Num (Rat 5); Num (Rat (-3))]
            derived.
Proof.
  split; [reflexivity|]. split; [reflexivity|].
  exact (proj1 (proj2 (proj1 derived_fraction parse_digits repr_int mixed_raw))
           _ eq_refl).
Defined.

(** ** The period selector *)

Section PeriodFacts.

Lemma str_eqb_eq (a b : str) : str_eqb a b = true <-> a = b.
Proof.
  revert b. induction a as [|x a IH]; intros [|y b]; simpl;
    try (split; [discriminate || reflexivity | discriminate || reflexivity]).
  unfold char_eqb. rewrite andb_true_iff, N.eqb_eq, IH.
  split; [intros [-> ->]; reflexivity | intros E; now inversion E].
Qed.

Lemma str_eqb_refl (a : str) : str_eqb a a = true.
Proof. now apply str_eqb_eq. Qed.

Lemma str_in_In (x : str) (l : list str) : str_in x l = true <-> In x l.
Proof.
  unfold str_in. rewrite existsb_exists. split.
  - intros (y & Hy & E). apply str_eqb_eq in E. now subst.
  - intros H. exists x. split; [exact H | apply str_eqb_refl].
Qed.

Lemma str_ltb_irrefl (a : str) : str_ltb a a = false.
Proof.
  induction a as [|x a IH]; simpl; [reflexivity|].
  now rewrite N.ltb_irrefl.
Qed.

Lemma str_ltb_trans (a b c : str) :
  str_ltb a b = true -> str_ltb b c = true -> str_ltb a c = true.
Proof.
  revert b c. induction a as [|x a IH]; intros [|y b] [|z c]; simpl;
    try discriminate; try reflexivity.
  destruct (N.ltb_spec x y), (N.ltb_spec y x), (N.ltb_spec y z), (N.ltb_spec z y),
           (N.ltb_spec x z), (N.ltb_spec z x);
    try discriminate; try reflexivity; try lia; intros; try lia.
  eapply IH; eassumption.
Qed.

Lemma str_ltb_total (a b : str) :
  str_ltb a b = false -> str_ltb b a = false -> a = b.
Proof.
  revert b. induction a as [|x a IH]; intros [|y b]; simpl;
    try discriminate; try reflexivity.
  destruct (N.ltb_spec x y), (N.ltb_spec y x); try discriminate; try lia.
  intros H1 H2. assert (x = y) by lia. subst. f_equal. now apply IH.
Qed.

(** [a >= b] and [b >= c] give [a >= c]. *)
Lemma str_geb_trans (a b c : str) :
  str_ltb a b = false -> str_ltb b c = false -> str_ltb a c = false.
Proof.
  intros H1 H2. destruct (str_ltb a c) eqn:H3; [|reflexivity].
  destruct (str_ltb b a) eqn:H4.
  - rewrite (str_ltb_trans _ _ _ H4 H3) in H2. discriminate.
  - assert (a = b) by now apply str_ltb_total. subst. congruence.
Qed.

Lemma unique_In (x : str) (l : list str) : In x (unique l) <-> In x l.
Proof.
  induction l as [|a l IH]; simpl; [tauto|].
  rewrite filter_In, IH. split.
  - intros [E|[H _]]; [now left | now right].
  - intros [E|H]; [now left|].
    destruct (str_eqb a x) eqn:E.
    + apply str_eqb_eq in E. now left.
    + right. split; [exact H | reflexivity].
Qed.

Lemma insert_desc_In (x a : str) (l : list str) :
  In x (insert_desc a l) <-> x = a \/ In x l.
Proof.
  induction l as [|b l IH]; simpl; [intuition|].
  destruct (str_ltb a b); simpl; [rewrite IH|]; intuition.
Qed.

Lemma sorted_desc_In (x : str) (l : list str) : In x (sorted_desc l) <-> In x l.
Proof.
  induction l as [|a l IH]; simpl; [tauto|].
  rewrite insert_desc_In, IH. intuition.
Qed.

(** The first element of a list sorted downwards is its largest. *)
Lemma sorted_desc_head (l : list str) :
  match sorted_desc l with
  | [] => l = []
  | m :: _ => forall x, In x (sorted_desc l) -> str_ltb m x = false
  end.
Proof.
  induction l as [|a l IH]; simpl; [reflexivity|].
  destruct (sorted_desc l) as [|m t] eqn:E; simpl.
  - intros x [<-|[]]. apply str_ltb_irrefl.
  - destruct (str_ltb a m) eqn:L.
    + intros x [<-|H].
      * apply str_ltb_irrefl.
      * apply insert_desc_In in H. destruct H as [->|H].
        -- destruct (str_ltb m a) eqn:L'; [|reflexivity].
           pose proof (str_ltb_trans _ _ _ L L') as C.
           rewrite str_ltb_irrefl in C. discriminate.
        -- apply IH. now right.
    + intros x [<-|[<-|H]].
      * apply str_ltb_irrefl.
      * exact L.
      * apply str_geb_trans with m; [exact L|]. apply IH. now right.
Qed.

Lemma index_of_nth (p : str) (l : list str) :
  In p l -> nth_error l (index_of p l) = Some p.
Proof.
  induction l as [|a l IH]; simpl; [intros []|]. intros H.
  destruct (str_eqb a p) eqn:E.
  - apply str_eqb_eq in E. now subst.
  - destruct H as [->|H]; [now rewrite str_eqb_refl in E | now apply IH].
Qed.

Lemma periods_of_preprocessed {F : Type} {arith : Arith F}
    (parse_number : str -> F) (repr_number : F -> str) (df : DataFrame F)
    (col : list (cell F)) :
  report_period df = Some col ->
  periods_of repr_number (preprocess_data parse_number repr_number df)
  = Ok (sorted_desc (unique (map (cell_text repr_number) col))).
Proof.
  intros Hcol. unfold periods_of.
  destruct (preprocess_data_columns parse_number repr_number df)
    as (_ & _ & _ & E4 & _).
  rewrite E4, Hcol. cbn [option_map column bind]. rewrite map_map.
  do 3 f_equal. apply map_ext. intros c. now destruct c.
Qed.

Lemma offered_period_spec (periods : list str) :
  (In (lit "20241231") periods -> offered_period periods = Ok (lit "20241231"))
  /\ (~ In (lit "20241231") periods ->
      match periods with
      | [] => offered_period periods = Raise IndexError
      | m :: _ => offered_period periods = Ok m
      end).
Proof.
  unfold offered_period, default_period. split.
  - intros H. rewrite (proj2 (str_in_In _ _) H). cbn [bind].
    rewrite (proj2 (str_in_In _ _) H). now rewrite index_of_nth.
  - intros Hn. destruct (str_in (lit "20241231") periods) eqn:E.
    { apply str_in_In in E. contradiction. }
    destruct periods as [|m t]; [reflexivity|]. cbn [bind].
    assert (Hm : In m (m :: t)) by now left.
    rewrite (proj2 (str_in_In _ _) Hm). now rewrite index_of_nth.
Qed.

(** C8, as the code has it: the period [main] offers first is the fixed
    period 20241231 whenever the period column of the table holds it,
    whatever other periods there are, and otherwise the largest of the
    table's periods in the order of strings; an empty table raises. *)
Theorem default_period_offered {F : Type} {arith : Arith F}
    (parse_number : str -> F) (repr_number : F -> str) (df : DataFrame F)
    (col : list (cell F)) :
  report_period df = Some col ->
  let texts := map (cell_text repr_number) col in
  (In (lit "20241231") texts ->
   main_period parse_number repr_number df = Ok (lit "20241231"))
  /\ (~ In (lit "20241231") texts -> col <> [] ->
      exists m : str,
        main_period parse_number repr_number df = Ok m /\ In m texts
        /\ forall x : str, In x texts -> str_ltb m x = false)
  /\ (col = [] -> main_period parse_number repr_number df = Raise IndexError).
Proof.
  intros Hcol. cbv zeta. unfold main_period.
  rewrite (periods_of_preprocessed parse_number repr_number df Hcol). cbn [bind].
  set (texts := map (cell_text repr_number) col).
  destruct (offered_period_spec (sorted_desc (unique texts))) as [H1 H2].
  split; [|split].
  - intros H. apply H1. now rewrite sorted_desc_In, unique_In.
  - intros Hn Hne.
    assert (Hn' : ~ In (lit "20241231") (sorted_desc (unique texts)))
      by now rewrite sorted_desc_In, unique_In.
    specialize (H2 Hn'). pose proof (sorted_desc_head (unique texts)) as Hh.
    destruct (sorted_desc (unique texts)) as [|m t] eqn:E.
    + exfalso. destruct col as [|c col']; [now apply Hne|].
      unfold texts in Hh. discriminate.
    + exists m. split; [exact H2|].
      assert (Hm : In m texts).
      { apply unique_In, sorted_desc_In. rewrite E. now left. }
      split; [exact Hm|]. intros x Hx. apply Hh.
      rewrite <- E. now apply sorted_desc_In, unique_In.
  - intros ->. reflexivity.
Qed.

Lemma default_period_offered_witness :
  report_period (mixed_raw (F := rational))
  = Some [Text period_P1; Text period_P1; Text period_P1; Text period_P2; Text period_P1]
  /\ main_period parse_digits repr_int (mixed_raw (F := rational)) = Ok period_P2
  /\ exists m : str,
       main_period parse_digits repr_int (mixed_raw (F := rational)) = Ok m
       /\ In m [period_P1; period_P1; period_P1; period_P2; period_P1]
       /\ forall x : str,
            In x [period_P1; period_P1; period_P1; period_P2; period_P1] ->
            str_ltb m x = false.
Proof.
  split; [reflexivity|]. split; [reflexivity|].
  refine (proj1 (proj2
    (default_period_offered parse_digits repr_int (mixed_raw (F := rational)) eq_refl)) _ _).
  - intros H. repeat (destruct H as [H|H]; [discriminate|]). exact H.
  - discriminate.
Defined.

(** C8 as the specification words it fails: with the periods 20241231 and
    20250331 in the table, the period offered first is 20241231, which is
    neither the most recent nor the largest period of the table. *)
Lemma default_period_not_most_recent :
  main_period parse_digits repr_int (recent_raw (F := rational)) = Ok (lit "20241231")
  /\ report_period (recent_frame (F := rational))
     = Some [Text (lit "20241231"); Text (lit "20250331"); Text (lit "20241231")]
  /\ str_ltb (lit "20241231") (lit "20250331") = true
  /\ ~ (forall (df : DataFrame rational) (col : list (cell rational)) (m : str),
          report_period df = Some col ->
          main_period parse_digits repr_int df = Ok m ->
          forall x : str, In x (map (cell_text repr_int) col) -> str_ltb m x = false).
Proof.
  split; [reflexivity|]. split; [reflexivity|]. split; [reflexivity|].
  intros H.
  specialize (H recent_raw _ (lit "20241231") eq_refl eq_refl (lit "20250331")).
  assert (E : str_ltb (lit "20241231") (lit "20250331") = false).
  { apply H. right. left. reflexivity. }
  discriminate.
Qed.
End PeriodFacts.

(** ** The detail table *)

Section FormatFacts.
Local Open Scope Q_scope.

Lemma round_half_even_spec (q : Q) :
  0 <= q ->
  (0 <= round_half_even q)%Z /\ Qabs (inject_Z (round_half_even q) - q) <= 1 # 2.
Proof.
  destruct q as [n d]. intros Hn.
  assert (Hn' : (0 <= n)%Z) by (unfold Qle in Hn; simpl in Hn; lia).
  pose proof (Z.div_mod n (Zpos d) ltac:(lia)) as Dm.
  pose proof (Z.mod_pos_bound n (Zpos d) ltac:(lia)) as Bm.
  pose proof (Z.div_pos n (Zpos d) Hn' ltac:(lia)) as Dp.
  unfold round_half_even; simpl Qnum; simpl Qden.
  set (fl := (n / Zpos d)%Z) in *. set (r := (n mod Zpos d)%Z) in *.
  clearbody fl r. rewrite Qabs_Qle_condition.
  destruct (Z.compare_spec (2 * r) (Zpos d)) as [C|C|C].
  - destruct (Z.even fl); (split; [lia|]); unfold Qle, Qminus, Qplus, Qopp; simpl;
      split; subst n; nia.
  - split; [lia|]. unfold Qle, Qminus, Qplus, Qopp; simpl. split; subst n; nia.
  - split; [lia|]. unfold Qle, Qminus, Qplus, Qopp; simpl. split; subst n; nia.
Qed.

Lemma pad_digits_spec (w : nat) (n : Z) :
  length (pad_digits w n) = w /\ Forall is_digit (pad_digits w n).
Proof.
  revert n. induction w as [|w IH]; intros n; cbn [pad_digits];
    [split; [reflexivity | constructor]|].
  destruct (IH (n / 10)%Z) as [L D]. split.
  - rewrite length_app, L. cbn [length]. lia.
  - apply Forall_app. split; [exact D|]. constructor; [|constructor].
    pose proof (Z.mod_pos_bound n 10 ltac:(lia)). unfold is_digit. lia.
Qed.

Lemma fixed_digits_spec (places : nat) (neg : bool) (mag mag' : Q) :
  places <> O -> 0 <= mag -> mag == mag' ->
  fixed_point_string places neg mag' (fixed_digits places neg mag).
Proof.
  intros Hp Hm E. unfold fixed_digits.
  set (scale := (10 ^ Z.of_nat places)%Z).
  set (n := round_half_even (mag * inject_Z scale)).
  assert (Hs : (0 < scale)%Z) by (apply Z.pow_pos_nonneg; lia).
  assert (H0 : 0 <= mag * inject_Z scale).
  { apply Qmult_le_0_compat; [exact Hm|]. unfold Qle; simpl. lia. }
  destruct (round_half_even_spec H0) as [Hn Hr]. fold n in Hn, Hr.
  destruct (pad_digits_spec places (n mod scale)) as [L D].
  exists n, (pad_digits places (n mod scale)).
  split; [exact Hn|]. split; [now rewrite <- E|].
  split; [exact L|]. split; [exact D|]. split; [reflexivity|].
  destruct places as [|k]; [contradiction | reflexivity].
Qed.

Lemma Qnegative_comp (y q : Q) : y == q -> Qnegative y = Qnegative q.
Proof. intros E. unfold Qnegative. now rewrite E. Qed.

Lemma e_fixed_spec (places : nat) (y q : Q) :
  places <> O -> y == q ->
  fixed_point_string places (Qnegative q) (Qabs q) (ffixed places (Rat y)).
Proof.
  intros Hp E. cbn [ffixed rational_arith e_fixed]. rewrite (Qnegative_comp E).
  apply fixed_digits_spec; [exact Hp | apply Qabs_nonneg | now rewrite E].
Qed.

Lemma SFmag_nonneg (m : positive) (e : Z) : 0 <= SFmag m e.
Proof.
  destruct e as [|p|p]; unfold SFmag, Qle; cbn [Qnum Qden]; lia.
Qed.

Lemma b_fixed_spec (places : nat) (v : float) (sg : bool) (m : positive) (e : Z) :
  places <> O -> Prim2SF v = S754_finite sg m e ->
  fixed_point_string places sg (SFmag m e) (ffixed places v).
Proof.
  intros Hp E. cbn [ffixed binary64_arith]. unfold b_fixed. rewrite E.
  apply fixed_digits_spec; [exact Hp | apply SFmag_nonneg | reflexivity].
Qed.

Lemma is_nan_percent (v : float) :
  PrimFloat.is_nan v = true -> percent_display v = lit "N/A".
Proof. intros H. unfold percent_display, notna. cbn [fisnan binary64_arith]. now rewrite H. Qed.

Lemma mul_finite_notna (v w : float) (sg : bool) (m : positive) (e : Z) :
  Prim2SF (PrimFloat.mul v w) = S754_finite sg m e -> PrimFloat.is_nan v = false.
Proof.
  rewrite FloatAxioms.mul_spec, is_nan_Prim2SF. unfold SF64mul.
  destruct (Prim2SF v); try reflexivity. discriminate.
Qed.

Lemma mul_zero_notna (v w : float) (sg : bool) :
  Prim2SF (PrimFloat.mul v w) = S754_zero sg -> PrimFloat.is_nan v = false.
Proof.
  rewrite FloatAxioms.mul_spec, is_nan_Prim2SF. unfold SF64mul.
  destruct (Prim2SF v); try reflexivity. discriminate.
Qed.

Lemma detail_table_rows {F : Type} {arith : Arith F} (df : DataFrame F)
    (rs : list (Row F)) (p : str) (s : list str) (t : DetailTable) :
  wf df -> rows_of df = Ok rs -> detail_table df p s = Ok (Some t) ->
  let ms := filter (matches p s) rs in
  detail_name t = map entity_name ms
  /\ detail_npm t = map (fun r => percent_display (net_profit_margin r)) ms
  /\ detail_roa t = map (fun r => percent_display (return_on_assets r)) ms
  /\ mapM ratio_display (map turnover ms) = Ok (detail_turnover t).
Proof.
  intros Hwf Hrows.
  destruct (frame_of_rows Hwf Hrows) as (En & Ep & Ea & Ev & Er).
  clear Hwf Hrows. destruct df as [names pc rn rr ac nc rc].
  cbn [stock_name report_period asset_turnover npm_value roa_value] in *. subst.
  unfold detail_table, select_rows, empty.
  cbn [stock_name report_period asset_turnover npm_value roa_value column bind option_map].
  rewrite filter_mask_rows, !select_map.
  destruct (map entity_name (filter (matches p s) rs)) eqn:Ems; [discriminate|].
  rewrite <- Ems. cbn [column bind].
  destruct (mapM ratio_display (map turnover (filter (matches p s) rs))) as [tv|e];
    cbn [bind]; [|discriminate].
  intros E. inversion E; subst t. cbn. rewrite !map_map. repeat split.
Qed.

Lemma mul_100_not_nan (v : float) :
  PrimFloat.is_nan v = false -> Prim2SF (PrimFloat.mul v (fofZ 100)) <> S754_nan.
Proof.
  rewrite is_nan_Prim2SF, FloatAxioms.mul_spec.
  replace (Prim2SF (fofZ 100)) with (S754_finite false 7036874417766400 (-46))
    by (vm_compute; reflexivity).
  unfold SF64mul, SFmul. destruct (Prim2SF v) as [s|s| |s m e]; try discriminate.
  intros _. apply binary_round_aux_not_nan. lia.
Qed.

Lemma fixed_point_string_point (places : nat) (neg : bool) (mag : Q) (s : str) :
  fixed_point_string places neg mag s -> In 46%N s.
Proof.
  intros (n & frac & _ & _ & _ & _ & _ & ->).
  apply in_or_app. right. apply in_or_app. right. now left.
Qed.

Lemma percent_display_binary64 (v : float) :
  PrimFloat.is_nan v = false ->
  match Prim2SF (PrimFloat.mul v (fofZ 100)) with
  | S754_finite sg m e =>
      exists s : str,
        percent_display v = s ++ lit "%" /\ fixed_point_string 2 sg (SFmag m e) s
  | S754_zero sg => percent_display v = if sg then lit "-0.00%" else lit "0.00%"
  | S754_infinity sg => percent_display v = if sg then lit "-inf%" else lit "inf%"
  | S754_nan => False
  end.
Proof.
  intros Hv. pose proof (mul_100_not_nan v Hv) as Hn.
  assert (Hd : percent_display v = ffixed 2 (PrimFloat.mul v (fofZ 100)) ++ lit "%").
  { unfold percent_display, notna. cbn [fisnan fmul binary64_arith]. now rewrite Hv. }
  destruct (Prim2SF (PrimFloat.mul v (fofZ 100))) as [sg|sg| |sg m e] eqn:E.
  - rewrite Hd. cbn [ffixed binary64_arith]. unfold b_fixed. rewrite E. now destruct sg.
  - rewrite Hd. cbn [ffixed binary64_arith]. unfold b_fixed. rewrite E. now destruct sg.
  - now elim Hn.
  - eexists. split; [exact Hd|]. apply b_fixed_spec; [discriminate | exact E].
Qed.

Lemma ratio_display_binary64 (v : float) :
  PrimFloat.is_nan v = false ->
  match Prim2SF v with
  | S754_finite sg m e =>
      exists s : str,
        ratio_display (Num v) = Ok s /\ fixed_point_string 3 sg (SFmag m e) s
  | S754_zero sg => ratio_display (Num v) = Ok (if sg then lit "-0.000" else lit "0.000")
  | S754_infinity sg => ratio_display (Num v) = Ok (if sg then lit "-inf" else lit "inf")
  | S754_nan => False
  end.
Proof.
  intros Hv.
  assert (Hd : ratio_display (Num v) = Ok (ffixed 3 v)).
  { unfold ratio_display, notna. cbn [fisnan binary64_arith]. now rewrite Hv. }
  rewrite is_nan_Prim2SF in Hv.
  destruct (Prim2SF v) as [sg|sg| |sg m e] eqn:E.
  - rewrite Hd. cbn [ffixed binary64_arith]. unfold b_fixed. rewrite E. now destruct sg.
  - rewrite Hd. cbn [ffixed binary64_arith]. unfold b_fixed. rewrite E. now destruct sg.
  - discriminate.
  - eexists. split; [exact Hd|]. apply b_fixed_spec; [discriminate | exact E].
Qed.

(** C7, as amended: the detail table shows, for the rows of the selected
    period and entities, every present fraction x whose product x * 100
    is finite as that product written with exactly two decimals and
    followed by "%", and every present finite asset turnover with exactly
    three decimals; a present value whose product is infinite is shown as
    "inf%" or "-inf%", an infinite asset turnover as "inf" or "-inf"; every
    missing value is shown as "N/A".  The fraction 0.1234 is shown as
    "12.34%", in exact arithmetic and in binary64.  The binary64 clauses
    cover every float: a missing one, and a present one by the class of
    the product or of the value (finite, zero, infinite). *)
Theorem detail_table_format :
  (forall (F : Type) (arith : Arith F) (df : DataFrame F) (rs : list (Row F))
          (p : str) (s : list str) (t : DetailTable),
      wf df -> rows_of df = Ok rs -> detail_table df p s = Ok (Some t) ->
      detail_name t = map entity_name (filter (matches p s) rs)
      /\ detail_npm t
         = map (fun r => percent_display (net_profit_margin r)) (filter (matches p s) rs)
      /\ detail_roa t
         = map (fun r => percent_display (return_on_assets r)) (filter (matches p s) rs)
      /\ mapM ratio_display (map turnover (filter (matches p s) rs))
         = Ok (detail_turnover t))
  /\ (forall x : Q,
        exists s : str,
          percent_display (Rat x) = s ++ lit "%"
          /\ fixed_point_string 2 (Qnegative (x * 100)) (Qabs (x * 100)) s)
  /\ (forall x : Q,
        exists s : str,
          ratio_display (Num (Rat x)) = Ok s
          /\ fixed_point_string 3 (Qnegative x) (Qabs x) s)
  /\ (forall v : float, PrimFloat.is_nan v = false ->
        match Prim2SF (PrimFloat.mul v (fofZ 100)) with
        | S754_finite sg m e =>
            exists s : str,
              percent_display v = s ++ lit "%" /\ fixed_point_string 2 sg (SFmag m e) s
        | S754_zero sg => percent_display v = if sg then lit "-0.00%" else lit "0.00%"
        | S754_infinity sg => percent_display v = if sg then lit "-inf%" else lit "inf%"
        | S754_nan => False
        end)
  /\ (forall v : float, PrimFloat.is_nan v = false ->
        match Prim2SF v with
        | S754_finite sg m e =>
            exists s : str,
              ratio_display (Num v) = Ok s /\ fixed_point_string 3 sg (SFmag m e) s
        | S754_zero sg =>
            ratio_display (Num v) = Ok (if sg then lit "-0.000" else lit "0.000")
        | S754_infinity sg =>
            ratio_display (Num v) = Ok (if sg then lit "-inf" else lit "inf")
        | S754_nan => False
        end)
  /\ percent_display NaN = lit "N/A"
  /\ ratio_display (Num NaN) = Ok (lit "N/A")
  /\ percent_display (Rat (1234 # 10000)) = lit "12.34%"
  /\ percent_display (fdiv (fofZ 1234) (fofZ 10000) : float) = lit "12.34%"
  /\ (forall v : float, PrimFloat.is_nan v = true ->
        percent_display v = lit "N/A" /\ ratio_display (Num v) = Ok (lit "N/A")).
Proof.
  split; [intros F arith df rs p s t; apply detail_table_rows|].
  split.
  { intros x. eexists. split; [reflexivity|].
    apply e_fixed_spec; [discriminate|]. now rewrite Qred_correct. }
  split.
  { intros x. eexists. split; [reflexivity|].
    apply e_fixed_spec; [discriminate | reflexivity]. }
  split; [exact percent_display_binary64|].
  split; [exact ratio_display_binary64|].
  split; [reflexivity|]. split; [reflexivity|]. split; [reflexivity|].
  split; [vm_compute; reflexivity|].
  intros v Hv. split; [now apply is_nan_percent|].
  unfold ratio_display, notna. cbn [fisnan binary64_arith]. now rewrite Hv.
Qed.

Lemma detail_table_format_witness :
  wf (mixed_frame (F := rational))
  /\ rows_of mixed_frame = Ok mixed_rows
  /\ detail_table mixed_frame period_P1 all_names = Ok mixed_detail
  /\ exists t : DetailTable,
       mixed_detail = Some t
       /\ detail_npm t = [lit "12.00%"; lit "20.00%"; lit "N/A"; lit "-3.00%"]
       /\ detail_turnover t = [lit "1.000"; lit "N/A"; lit "3.000"; lit "0.500"]
       /\ detail_roa t
          = map (fun r => percent_display (return_on_assets r))
                (filter (matches period_P1 all_names) mixed_rows).
Proof.
  split; [exact mixed_frame_wf|]. split; [reflexivity|]. split; [reflexivity|].
  eexists. split; [reflexivity|]. split; [reflexivity|]. split; [reflexivity|].
  exact (proj1 (proj2 (proj2
    (proj1 detail_table_format rational rational_arith mixed_frame mixed_rows period_P1
       all_names _ mixed_frame_wf eq_refl eq_refl)))).
Defined.
(** C7 as first stated fails on a present value that is infinite, or whose
    product with 100 is: such a value is not missing, and its text is
    "inf%" (or "inf" for the asset turnover), which has no decimals. *)
Lemma infinite_percentage_no_decimals :
  fisnan PrimFloat.infinity = false
  /\ percent_display PrimFloat.infinity = lit "inf%"
  /\ fisnan 0x1p1020%float = false
  /\ percent_display 0x1p1020%float = lit "inf%"
  /\ ratio_display (Num PrimFloat.infinity) = Ok (lit "inf")
  /\ (forall (neg : bool) (mag : Q) (s : str),
        fixed_point_string 2 neg mag s ->
        percent_display PrimFloat.infinity <> s ++ lit "%")
  /\ (forall (neg : bool) (mag : Q) (s : str),
        fixed_point_string 3 neg mag s ->
        ratio_display (Num PrimFloat.infinity) <> Ok s).
Proof.
  split; [reflexivity|]. split; [vm_compute; reflexivity|].
  split; [reflexivity|].
  split; [vm_compute; reflexivity|]. split; [vm_compute; reflexivity|].
  split.
  - intros neg mag s Hs E. apply fixed_point_string_point in Hs.
    replace (percent_display PrimFloat.infinity) with (lit "inf" ++ lit "%") in E
      by (vm_compute; reflexivity).
    apply app_inj_tail in E. destruct E as [<- _].
    cbn in Hs. intuition discriminate.
  - intros neg mag s Hs E. apply fixed_point_string_point in Hs.
    replace (ratio_display (Num PrimFloat.infinity)) with (Ok (A := str) (lit "inf")) in E
      by (vm_compute; reflexivity).
    inversion E; subst s. cbn in Hs. intuition discriminate.
Qed.
End FormatFacts.

(** * Further properties of the code *)

(** ** The option lists of the two sidebar widgets *)

Section OptionLists.

Lemma unique_NoDup (l : list str) : NoDup (unique l).
Proof.
  induction l as [|a l IH]; cbn [unique]; constructor.
  - intros H. apply filter_In in H. destruct H as [_ H].
    now rewrite str_eqb_refl in H.
  - now apply NoDup_filter.
Qed.

Lemma insert_asc_In (x a : str) (l : list str) :
  In x (insert_asc a l) <-> x = a \/ In x l.
Proof.
  induction l as [|b l IH]; cbn [insert_asc].
  - cbn. intuition.
  - destruct (str_ltb a b); cbn [In]; [intuition|]. rewrite IH. intuition.
Qed.

Lemma sorted_asc_In (x : str) (l : list str) : In x (sorted_asc l) <-> In x l.
Proof.
  induction l as [|a l IH]; [reflexivity|].
  change (sorted_asc (a :: l)) with (insert_asc a (sorted_asc l)).
  rewrite insert_asc_In, IH. cbn [In]. intuition.
Qed.

Lemma str_ltb_connected (a b : str) : a <> b -> str_ltb a b = false -> str_ltb b a = true.
Proof.
  intros Hne Hab. destruct (str_ltb b a) eqn:Hba; [reflexivity|].
  elim Hne. now apply str_ltb_total.
Qed.

Lemma insert_desc_sorted (a : str) (l : list str) :
  StronglySorted descending l -> ~ In a l -> StronglySorted descending (insert_desc a l).
Proof.
  induction l as [|b l IH]; intros Hs Hn; cbn [insert_desc].
  - repeat constructor.
  - apply StronglySorted_inv in Hs. destruct Hs as [Hs Hb].
    rewrite Forall_forall in Hb.
    destruct (str_ltb a b) eqn:Hab.
    + constructor.
      * apply IH; [exact Hs|]. intros H. apply Hn. now right.
      * apply Forall_forall. intros x Hx. apply insert_desc_In in Hx.
        destruct Hx as [->|Hx]; [exact Hab | now apply Hb].
    + assert (Hba : str_ltb b a = true).
      { apply str_ltb_connected; [|exact Hab]. intros ->. apply Hn. now left. }
      constructor.
      * constructor; [exact Hs | now apply Forall_forall].
      * apply Forall_forall. intros x [<-|Hx]; [exact Hba|].
        unfold descending. eapply str_ltb_trans; [apply Hb, Hx | exact Hba].
Qed.

Lemma insert_asc_sorted (a : str) (l : list str) :
  StronglySorted ascending l -> ~ In a l -> StronglySorted ascending (insert_asc a l).
Proof.
  induction l as [|b l IH]; intros Hs Hn; cbn [insert_asc].
  - repeat constructor.
  - apply StronglySorted_inv in Hs. destruct Hs as [Hs Hb].
    rewrite Forall_forall in Hb.
    destruct (str_ltb a b) eqn:Hab.
    + constructor.
      * constructor; [exact Hs | now apply Forall_forall].
      * apply Forall_forall. intros x [<-|Hx]; [exact Hab|].
        unfold ascending. eapply str_ltb_trans; [exact Hab | apply Hb, Hx].
    + assert (Hba : str_ltb b a = true).
      { apply str_ltb_connected; [|exact Hab]. intros ->. apply Hn. now left. }
      constructor.
      * apply IH; [exact Hs|]. intros H. apply Hn. now right.
      * apply Forall_forall. intros x Hx. apply insert_asc_In in Hx.
        destruct Hx as [->|Hx]; [exact Hba | now apply Hb].
Qed.

Lemma sorted_desc_sorted (l : list str) :
  NoDup l -> StronglySorted descending (sorted_desc l).
Proof.
  induction 1 as [|a l Hn _ IH]; [constructor|].
  change (sorted_desc (a :: l)) with (insert_desc a (sorted_desc l)).
  apply insert_desc_sorted; [exact IH|]. now rewrite sorted_desc_In.
Qed.

Lemma sorted_asc_sorted (l : list str) :
  NoDup l -> StronglySorted ascending (sorted_asc l).
Proof.
  induction 1 as [|a l Hn _ IH]; [constructor|].
  change (sorted_asc (a :: l)) with (insert_asc a (sorted_asc l)).
  apply insert_asc_sorted; [exact IH|]. now rewrite sorted_asc_In.
Qed.

Lemma strictly_sorted_NoDup (R : str -> str -> Prop) (l : list str) :
  (forall a, ~ R a a) -> StronglySorted R l -> NoDup l.
Proof.
  intros Hirr. induction 1 as [|a l _ IH Ha]; constructor; [|exact IH].
  intros Hin. rewrite Forall_forall in Ha. exact (Hirr a (Ha a Hin)).
Qed.

Lemma descending_irrefl (a : str) : ~ descending a a.
Proof. unfold descending. now rewrite str_ltb_irrefl. Qed.

Lemma ascending_irrefl (a : str) : ~ ascending a a.
Proof. unfold ascending. now rewrite str_ltb_irrefl. Qed.

Lemma default_period_In (periods : list str) (d : str) :
  default_period periods = Ok d -> In d periods.
Proof.
  unfold default_period. destruct (str_in (lit "20241231") periods) eqn:E.
  - intros H. inversion H; subst d. now apply str_in_In.
  - destruct periods as [|p periods']; [discriminate|].
    intros H. inversion H; subst d. now left.
Qed.
End OptionLists.

(** X5: the options of the two sidebar widgets.  On a loaded table that
    has the period column, [periods] lists exactly the period texts of the
    table, each once, from the largest to the smallest in code-point order,
    and [stocks] lists exactly the entity names, each once, from the
    smallest to the largest.  The default period is always one of
    [periods]: the index handed to the select box is its position, and the
    fallback index 0 of the source is never used. *)
Theorem option_lists_sorted {F : Type} {arith : Arith F}
    (parse_number : str -> F) (repr_number : F -> str) (df : DataFrame F)
    (col : list (cell F)) :
  report_period df = Some col ->
  let prepared := preprocess_data parse_number repr_number df in
  exists periods : list str,
    periods_of repr_number prepared = Ok periods
    /\ (forall p, In p periods <-> In p (map (cell_text repr_number) col))
    /\ NoDup periods /\ StronglySorted descending periods
    /\ (forall n, In n (stocks_of prepared) <-> In n (stock_name df))
    /\ NoDup (stocks_of prepared) /\ StronglySorted ascending (stocks_of prepared)
    /\ (forall d, default_period periods = Ok d ->
          str_in d periods = true
          /\ nth_error periods (index_of d periods) = Some d
          /\ offered_period periods = Ok d).
Proof.
  intros Hcol prepared.
  exists (sorted_desc (unique (map (cell_text repr_number) col))).
  split; [now apply periods_of_preprocessed|].
  split; [intros p; now rewrite sorted_desc_In, unique_In|].
  assert (Sd : StronglySorted descending
                 (sorted_desc (unique (map (cell_text repr_number) col))))
    by apply sorted_desc_sorted, unique_NoDup.
  split; [exact (strictly_sorted_NoDup descending_irrefl Sd)|].
  split; [exact Sd|].
  assert (En : stock_name prepared = stock_name df)
    by exact (proj1 (preprocess_data_columns parse_number repr_number df)).
  unfold stocks_of. rewrite En.
  split; [intros n; now rewrite sorted_asc_In, unique_In|].
  assert (Sa : StronglySorted ascending (sorted_asc (unique (stock_name df))))
    by apply sorted_asc_sorted, unique_NoDup.
  split; [exact (strictly_sorted_NoDup ascending_irrefl Sa)|].
  split; [exact Sa|].
  intros d Hd. pose proof (default_period_In _ Hd) as Hin.
  assert (Hs : str_in d (sorted_desc (unique (map (cell_text repr_number) col))) = true)
    by now apply str_in_In.
  split; [exact Hs|]. split; [now apply index_of_nth|].
  unfold offered_period. rewrite Hd. cbn [bind]. rewrite Hs.
  now rewrite (index_of_nth _ _ Hin).
Qed.

Lemma option_lists_sorted_witness :
  exists periods : list str,
    periods_of repr_int (mixed_frame (F := rational)) = Ok periods
    /\ periods = [period_P2; period_P1]
    /\ StronglySorted descending periods
    /\ stocks_of (mixed_frame (F := rational)) = all_names
    /\ StronglySorted ascending (stocks_of (mixed_frame (F := rational))).
Proof.
  destruct (@option_lists_sorted rational _ parse_digits repr_int mixed_raw _ eq_refl)
    as (periods & Hp & _ & _ & Sd & _ & _ & Sa & _).
  exists periods. split; [exact Hp|].
  split; [vm_compute in Hp; now inversion Hp|].
  split; [exact Sd|]. split; [reflexivity | exact Sa].
Defined.

(** ** The selection is read as a set *)

Section Selection.
Context {F : Type} {arith : Arith F}.

Lemma str_in_ext (s s' : list str) :
  (forall n, In n s <-> In n s') -> forall n, str_in n s = str_in n s'.
Proof.
  intros H n. destruct (str_in n s') eqn:E.
  - apply str_in_In, H, str_in_In, E.
  - destruct (str_in n s) eqn:E'; [|reflexivity].
    apply str_in_In, H, str_in_In in E'. congruence.
Qed.

Lemma filter_mask_ext (pc : list (cell F)) (names : list str) (p : str) (s s' : list str) :
  (forall n, In n s <-> In n s') -> filter_mask pc names p s = filter_mask pc names p s'.
Proof.
  intros H. unfold filter_mask. apply map_ext. intros [c n]. cbn [fst snd].
  now rewrite (@str_in_ext s s' H).
Qed.

(** X2: [create_bubble_chart] and the detail table of [main] read the
    selected entities through [isin] only.  Two selections with the same
    members, in whatever order and with whatever repetitions, give the same
    chart (or the same exception) and the same table: the points stay in
    table order. *)
Theorem selection_is_a_set (df : DataFrame F) (p : str) (s s' : list str) :
  (forall n, In n s <-> In n s') ->
  create_bubble_chart df p s = create_bubble_chart df p s'
  /\ detail_table df p s = detail_table df p s'.
Proof.
  intros H. unfold create_bubble_chart, detail_table.
  destruct (report_period df) as [pc|]; cbn [column bind]; [|split; reflexivity].
  now rewrite (@filter_mask_ext pc (stock_name df) p s s' H).
Qed.
End Selection.

Lemma selection_is_a_set_witness :
  create_bubble_chart (mixed_frame (F := rational)) period_P1 [name_A; name_E]
  = create_bubble_chart mixed_frame period_P1 [name_E; name_A; name_E]
  /\ detail_table (mixed_frame (F := rational)) period_P1 [name_A; name_E]
     = detail_table mixed_frame period_P1 [name_E; name_A; name_E].
Proof.
  apply (@selection_is_a_set rational _ mixed_frame period_P1
           [name_A; name_E] [name_E; name_A; name_E]).
  intros n. cbn [In]. intuition.
Defined.

(** ** Columns that are absent *)

Section MissingColumns.
Context {F : Type} {arith : Arith F}.

Lemma select_filter_mask_nil (pc : list (cell F)) (names : list str) (p : str)
    (s : list str) :
  (forall i c n, nth_error pc i = Some c -> nth_error names i = Some n ->
                 cell_eq_str c p && str_in n s = false) ->
  select (filter_mask pc names p s) names = [].
Proof.
  unfold filter_mask. revert names.
  induction pc as [|c pc IH]; intros [|n names] H; try reflexivity.
  cbn [combine map select fst snd]. rewrite (H O c n eq_refl eq_refl).
  apply IH. intros i c' n' Hc Hn. exact (H (S i) c' n' Hc Hn).
Qed.

Lemma select_filter_mask_cons (pc : list (cell F)) (names : list str) (p : str)
    (s : list str) (i : nat) (c : cell F) (n : str) :
  nth_error pc i = Some c -> nth_error names i = Some n ->
  cell_eq_str c p = true -> str_in n s = true ->
  select (filter_mask pc names p s) names <> [].
Proof.
  unfold filter_mask. revert pc names.
  induction i as [|i IH]; intros [|c' pc] [|n' names] Hc Hn Hp Hs; try discriminate.
  - cbn in Hc, Hn. inversion Hc; inversion Hn; subst.
    cbn [combine map select fst snd]. rewrite Hp, Hs. discriminate.
  - cbn [combine map select fst snd].
    destruct (cell_eq_str c' p && str_in n' s); [discriminate|].
    exact (IH pc names Hc Hn Hp Hs).
Qed.

(** X3: columns that are absent.  Without the period column
    [create_bubble_chart] raises [KeyError] whatever the selection.  With
    it, a table in which no row matches the period and the selection gives
    [None] even when other columns are absent, because the first emptiness
    test comes before they are read; as soon as one row matches, an absent
    asset turnover or derived fraction column raises [KeyError].
    [preprocess_data] skips a percentage column that is absent without
    creating its derived column, so the exception is then raised by the
    encoder and not by the preparation. *)
Theorem missing_column_raises (df : DataFrame F) (p : str) (s : list str) :
  (report_period df = None -> create_bubble_chart df p s = Raise KeyError)
  /\ (forall pc : list (cell F), report_period df = Some pc ->
        (forall i c n, nth_error pc i = Some c -> nth_error (stock_name df) i = Some n ->
                       cell_eq_str c p && str_in n s = false) ->
        create_bubble_chart df p s = Ok None)
  /\ (forall (pc : list (cell F)) (i : nat) (c : cell F) (n : str),
        report_period df = Some pc ->
        nth_error pc i = Some c -> nth_error (stock_name df) i = Some n ->
        cell_eq_str c p = true -> str_in n s = true ->
        asset_turnover df = None \/ npm_value df = None \/ roa_value df = None ->
        create_bubble_chart df p s = Raise KeyError)
  /\ (forall (parse_number : str -> F) (repr_number : F -> str)
             (pc : list (cell F)) (i : nat) (c : cell F) (n : str),
        report_period df = Some pc ->
        nth_error pc i = Some c -> nth_error (stock_name df) i = Some n ->
        cell_text repr_number c = p -> In n s ->
        (npm_raw df = None /\ npm_value df = None)
        \/ (roa_raw df = None /\ roa_value df = None)
        \/ asset_turnover df = None ->
        create_bubble_chart (preprocess_data parse_number repr_number df) p s
        = Raise KeyError).
Proof.
  assert (H3 : forall (df : DataFrame F) (pc : list (cell F)) (i : nat) (c : cell F)
                      (n : str),
             report_period df = Some pc ->
             nth_error pc i = Some c -> nth_error (stock_name df) i = Some n ->
             cell_eq_str c p = true -> str_in n s = true ->
             asset_turnover df = None \/ npm_value df = None \/ roa_value df = None ->
             create_bubble_chart df p s = Raise KeyError).
  { clear df. intros df pc i c n Hpc Hc Hn Hp Hs Hmiss. unfold create_bubble_chart.
    rewrite Hpc. cbn [column bind]. unfold empty, select_rows.
    cbn [stock_name asset_turnover npm_value roa_value].
    pose proof (select_filter_mask_cons pc (stock_name df) p s i Hc Hn Hp Hs) as Hne.
    destruct (select (filter_mask pc (stock_name df) p s) (stock_name df));
      [contradiction|].
    destruct (asset_turnover df) as [ac|]; cbn [option_map column bind];
      [|reflexivity].
    destruct (npm_value df) as [nc|]; cbn [option_map column bind]; [|reflexivity].
    destruct (roa_value df) as [rc|]; cbn [option_map column bind]; [|reflexivity].
    destruct Hmiss as [H|[H|H]]; discriminate. }
  split.
  { intros H. unfold create_bubble_chart. now rewrite H. }
  split.
  { intros pc Hpc H. unfold create_bubble_chart. rewrite Hpc. cbn [column bind].
    unfold empty, select_rows. cbn [stock_name].
    now rewrite (select_filter_mask_nil pc (stock_name df) p s H). }
  split; [exact (H3 df)|].
  intros parse_number repr_number pc i c n Hpc Hc Hn Hp Hs Hmiss.
  destruct (preprocess_data_columns parse_number repr_number df)
    as (En & _ & _ & Ep & Ea & Env & Erv).
  cbv zeta in En, Ep, Ea, Env, Erv.
  apply (H3 _ (map (astype_str repr_number) pc) i (astype_str repr_number c) n).
  - rewrite Ep, Hpc. reflexivity.
  - now rewrite nth_error_map, Hc.
  - now rewrite En.
  - destruct c as [x|t]; cbn [astype_str cell_eq_str cell_text] in *;
      subst p; apply str_eqb_refl.
  - now apply str_in_In.
  - rewrite Ea, Env, Erv.
    destruct Hmiss as [[-> ->]|[[-> ->]| ->]]; cbn [option_map]; tauto.
Qed.
End MissingColumns.

Lemma missing_column_raises_witness :
  create_bubble_chart (scenario_raw (F := rational)) period_P2 all_names = Ok None
  /\ create_bubble_chart (scenario_raw (F := rational)) period_P1 all_names
     = Raise KeyError.
Proof.
  destruct (@missing_column_raises rational _ scenario_raw period_P2 all_names)
    as (_ & H2 & _).
  destruct (@missing_column_raises rational _ scenario_raw period_P1 all_names)
    as (_ & _ & H3 & _).
  split.
  - apply (H2 _ eq_refl). intros [|[|[|i]]] c n Hc Hn; cbn in Hc, Hn;
      try (destruct i; discriminate); inversion Hc; subst; reflexivity.
  - apply (H3 _ O (Text period_P1) name_A eq_refl eq_refl eq_refl eq_refl eq_refl).
    now right; left.
Defined.

(** ** The chart reads only the rows it shows *)

Section Locality.
Context {F : Type} {arith : Arith F}.

(** X4: the chart is a function of the rows that match the period and the
    selection and have asset turnover, net profit margin and return on
    assets.  Two tables that agree on those rows give the same result,
    colours included: rows of other periods, of entities that are not
    selected, or with a missing value have no influence, not even on the
    minimum and maximum of the colour scale. *)
Theorem chart_reads_surviving_rows (df df' : DataFrame F) (rs rs' : list (Row F))
    (p : str) (s : list str) :
  wf df -> rows_of df = Ok rs -> wf df' -> rows_of df' = Ok rs' ->
  surviving p s rs = surviving p s rs' ->
  create_bubble_chart df p s = create_bubble_chart df' p s.
Proof.
  intros Hwf Hrows Hwf' Hrows' E.
  rewrite (create_bubble_chart_encode p s Hwf Hrows).
  rewrite (create_bubble_chart_encode p s Hwf' Hrows'). now rewrite E.
Qed.

Lemma label_of_shape (size : F) (name : str) :
  let label := fst (label_of size name) in
  let px := snd (label_of size name) in
  (px = 8 \/ px = 10 \/ px = 12)%Z
  /\ (label = name
      \/ exists k : nat, (k = 3 \/ k = 5)%nat /\ (k + 1 < length name)%nat
                         /\ label = firstn k name ++ lit "...")
  /\ (px = 8%Z -> (length label <= 6)%nat)
  /\ (px = 10%Z -> (length label <= 8)%nat)
  /\ (px = 12%Z -> label = name)
  /\ (length label <= S (length name))%nat.
Proof.
  unfold label_of.
  destruct (fltb size (fofZ 50)); [|destruct (fltb size (fofZ 80))]; cbn [fst snd].
  - destruct (Nat.ltb_spec 4 (length name)) as [L|L].
    + split; [now left|]. split; [right; exists 3%nat; repeat split; [now left | lia]|].
      rewrite length_app, length_firstn. cbn [length lit map String.list_ascii_of_string].
      repeat split; try lia; discriminate.
    + split; [now left|]. split; [now left|]. repeat split; try lia; discriminate.
  - destruct (Nat.ltb_spec 6 (length name)) as [L|L].
    + split; [right; now left|].
      split; [right; exists 5%nat; repeat split; [now right | lia]|].
      rewrite length_app, length_firstn. cbn [length lit map String.list_ascii_of_string].
      repeat split; try lia; discriminate.
    + split; [right; now left|]. split; [now left|]. repeat split; try lia; discriminate.
  - split; [right; now right|]. split; [now left|]. repeat split; try lia; discriminate.
Qed.

(** X6: the label of a point is the entity name or its first 3 or 5
    characters followed by "...", and it is cut only when that drops at
    least two characters.  A label in font size 8 has at most 6 characters,
    one in size 10 at most 8, one in size 12 is the whole name; no label is
    more than one character longer than the name, and the font size is 8,
    10 or 12. *)
Theorem label_length_bounded (df : DataFrame F) (rs : list (Row F)) (p : str)
    (s : list str) (fig : Figure F) :
  wf df -> rows_of df = Ok rs -> create_bubble_chart df p s = Ok (Some fig) ->
  forall (i : nat) (label : str), nth_error (trace_text fig) i = Some label ->
    exists (name : str) (px : Z),
      nth_error (customdata fig) i = Some name
      /\ nth_error (textfont_size fig) i = Some px
      /\ (px = 8 \/ px = 10 \/ px = 12)%Z
      /\ (label = name
          \/ exists k : nat, (k = 3 \/ k = 5)%nat /\ (k + 1 < length name)%nat
                             /\ label = firstn k name ++ lit "...")
      /\ (px = 8%Z -> (length label <= 6)%nat)
      /\ (px = 10%Z -> (length label <= 8)%nat)
      /\ (px = 12%Z -> label = name)
      /\ (length label <= S (length name))%nat.
Proof.
  intros Hwf Hrows Hfig i label Hi.
  destruct (chart_points p s Hwf Hrows Hfig) as [(_ & _ & _ & Hlen & _) Hpt].
  assert (Hlt : (i < length (surviving p s rs))%nat).
  { rewrite <- Hlen. apply nth_error_Some. congruence. }
  destruct (nth_error (surviving p s rs) i) as [r|] eqn:Hr;
    [|apply nth_error_None in Hr; lia].
  destruct (Hpt i r Hr) as (_ & _ & Ht & Hf & _ & _ & Hn).
  rewrite Ht in Hi. inversion Hi; subst label.
  exists (entity_name r), (snd (label_of (bubble_size (return_on_assets r)) (entity_name r))).
  split; [exact Hn|]. split; [exact Hf|].
  exact (label_of_shape (bubble_size (return_on_assets r)) (entity_name r)).
Qed.
End Locality.

Lemma chart_reads_surviving_rows_witness :
  create_bubble_chart (mixed_frame (F := rational)) period_P1 all_names
  = create_bubble_chart (select_rows [true; false; false; false; true] mixed_frame)
      period_P1 all_names.
Proof.
  apply (@chart_reads_surviving_rows rational _ mixed_frame
           (select_rows [true; false; false; false; true] mixed_frame)
           mixed_rows (select [true; false; false; false; true] mixed_rows)
           period_P1 all_names).
  - exact mixed_frame_wf.
  - reflexivity.
  - vm_compute. repeat split; reflexivity.
  - reflexivity.
  - reflexivity.
Defined.

Lemma label_length_bounded_witness :
  exists (fig : Figure rational) (name : str) (px : Z),
    create_bubble_chart mixed_frame period_P1 all_names = Ok (Some fig)
    /\ nth_error (customdata fig) 0 = Some name
    /\ nth_error (textfont_size fig) 0 = Some px
    /\ (px = 8 \/ px = 10 \/ px = 12)%Z.
Proof.
  destruct mixed_figure as [fig|] eqn:E; [|discriminate].
  assert (Hfig : create_bubble_chart (mixed_frame (F := rational)) period_P1 all_names
                 = Ok (Some fig)) by (rewrite <- E; reflexivity).
  destruct (nth_error (trace_text fig) 0) as [label|] eqn:Hl;
    [|vm_compute in E; inversion E; subst fig; discriminate].
  destruct (@label_length_bounded rational _ mixed_frame mixed_rows period_P1 all_names
              fig mixed_frame_wf eq_refl Hfig O label Hl)
    as (name & px & Hn & Hf & Hpx & _).
  exists fig, name, px. repeat split; assumption.
Defined.

(** ** The order of the colours *)

Section ExactEncoder.
Local Open Scope Q_scope.

Lemma scale_range_pos (lo hi rg : Q) :
  lo <= hi -> (hi == lo -> rg == 1) -> (~ hi == lo -> rg == hi - lo) -> 0 < rg.
Proof.
  intros Hle H1 H2. destruct (Qeq_dec hi lo) as [E|E].
  - rewrite (H1 E). reflexivity.
  - rewrite (H2 E). destruct (Qle_lt_or_eq _ _ Hle) as [L|L]; [lra|].
    elim E. now symmetry.
Qed.

Lemma quotient_mono (a b rg : Q) : 0 < rg -> a <= b -> a / rg <= b / rg.
Proof.
  intros Hrg Hab. unfold Qdiv. apply Qmult_le_compat_r; [exact Hab|].
  apply Qinv_le_0_compat. lra.
Qed.

(** The order of the colours in exact arithmetic, written with [rgba]. *)
Lemma colour_scale_exact (df : DataFrame rational) (rs : list (Row rational))
    (p : str) (s : list str) (fig : Figure rational) :
  wf df -> rows_of df = Ok rs -> create_bubble_chart df p s = Ok (Some fig) ->
  let sv := surviving p s rs in
  (forall (i j : nat) (ri rj : Row rational) (qi qj : Q),
      nth_error sv i = Some ri -> nth_error sv j = Some rj ->
      return_on_assets ri = Rat qi -> return_on_assets rj = Rat qj -> qi <= qj ->
      exists ci gi bi cj gj bj : Z,
        nth_error (marker_color fig) i = Some (rgba ci gi bi (lit "0.70"))
        /\ nth_error (marker_color fig) j = Some (rgba cj gj bj (lit "0.70"))
        /\ (ci <= cj)%Z /\ (gj <= gi)%Z /\ (bj <= bi)%Z)
  /\ (forall (i : nat) (r : Row rational) (q : Q),
        nth_error sv i = Some r -> return_on_assets r = Rat q ->
        (forall r' q', In r' sv -> return_on_assets r' = Rat q' -> q <= q') ->
        nth_error (marker_color fig) i = Some (rgba 0 102 255 (lit "0.70")))
  /\ (forall (i : nat) (r : Row rational) (q : Q),
        nth_error sv i = Some r -> return_on_assets r = Rat q ->
        (forall r' q', In r' sv -> return_on_assets r' = Rat q' -> q' <= q) ->
        (exists r' q', In r' sv /\ return_on_assets r' = Rat q' /\ q' < q) ->
        nth_error (marker_color fig) i = Some (rgba 255 60 60 (lit "0.70"))).
Proof.
  intros Hwf Hrows Hfig sv.
  destruct (chart_point_colours p s Hwf Hrows Hfig)
    as (lo & hi & rg & Ilo & Ihi & Hb & H1 & H2 & Hpt).
  fold sv in Ilo, Ihi, Hb, Hpt.
  assert (Hle : lo <= hi) by (apply (Hb lo Ilo)).
  pose proof (scale_range_pos Hle H1 H2) as Hrg.
  assert (Hin : forall i r q, nth_error sv i = Some r -> return_on_assets r = Rat q ->
                  In (Rat q) (map return_on_assets sv)).
  { intros i r q Hi Hq. rewrite <- Hq. apply in_map. eapply nth_error_In; exact Hi. }
  split; [|split].
  - intros i j ri rj qi qj Hi Hj Eqi Eqj Hq.
    destruct (Hpt i ri Hi) as (vi & ti & Evi & _ & Hti & _ & _ & Hfi & _).
    destruct (Hpt j rj Hj) as (vj & tj & Evj & _ & Htj & _ & _ & Hfj & _).
    rewrite Eqi in Evi. rewrite Eqj in Evj. inversion Evi; inversion Evj; subst vi vj.
    assert (Ht : ti <= tj).
    { rewrite Hti, Htj. apply quotient_mono; [exact Hrg | lra]. }
    unfold spec_channels in Hfi, Hfj. rewrite fill_color_exact in Hfi, Hfj.
    do 6 eexists. split; [exact Hfi|]. split; [exact Hfj|].
    split; [|split]; apply Qtrunc_mono; lra.
  - intros i r q Hi Eq Hmin.
    destruct (Hpt i r Hi) as (v & t & Ev & _ & Ht & _ & _ & Hf & _).
    rewrite Eq in Ev. inversion Ev; subst v.
    apply in_map_iff in Ilo. destruct Ilo as (r' & Er' & Hr').
    pose proof (Hmin r' lo Hr' Er') as Hql.
    pose proof (Hb q (Hin i r q Hi Eq)) as [Hlq _].
    assert (E0 : t == 0).
    { rewrite Ht. unfold Qdiv. setoid_replace (q - lo) with 0 by lra. apply Qmult_0_l. }
    unfold spec_channels in Hf. rewrite fill_color_exact in Hf. rewrite Hf.
    rewrite (@Qtrunc_comp (255 * t) 0) by (rewrite E0; reflexivity).
    rewrite (@Qtrunc_comp (102 - 42 * t) 102) by (rewrite E0; reflexivity).
    rewrite (@Qtrunc_comp (255 - 195 * t) 255) by (rewrite E0; reflexivity).
    reflexivity.
  - intros i r q Hi Eq Hmax (r' & q' & Hr' & Er' & Hlt).
    destruct (Hpt i r Hi) as (v & t & Ev & _ & Ht & _ & _ & Hf & _).
    rewrite Eq in Ev. inversion Ev; subst v.
    apply in_map_iff in Ihi. destruct Ihi as (rh & Erh & Hrh).
    pose proof (Hmax rh hi Hrh Erh) as Hqh.
    pose proof (Hb q (Hin i r q Hi Eq)) as [_ Hqhi].
    assert (Hq' : In (Rat q') (map return_on_assets sv)).
    { rewrite <- Er'. now apply in_map. }
    pose proof (Hb q' Hq') as [Hlq' _].
    assert (Hne : ~ hi == lo) by lra.
    pose proof (H2 Hne) as Erg.
    assert (E1 : t == 1).
    { rewrite Ht. unfold Qdiv. setoid_replace (q - lo) with rg by lra.
      apply Qmult_inv_r. lra. }
    unfold spec_channels in Hf. rewrite fill_color_exact in Hf. rewrite Hf.
    rewrite (@Qtrunc_comp (255 * t) 255) by (rewrite E1; reflexivity).
    rewrite (@Qtrunc_comp (102 - 42 * t) 60) by (rewrite E1; reflexivity).
    rewrite (@Qtrunc_comp (255 - 195 * t) 60) by (rewrite E1; reflexivity).
    reflexivity.
Qed.

(** X8: the colours of a chart follow the order of the returns, in binary64
    (the arithmetic of the program) and in exact arithmetic.  Of two
    points, the one whose return is not the smaller has at least as much
    red and at most as much green and blue.  A point whose return is the
    least of the chart has the fill colour "rgba(0,102,255,0.70)", and a
    point whose return is the greatest has "rgba(255,60,60,0.70)" as soon
    as the chart has a smaller return as well. *)
Theorem colour_scale_ordered :
  (forall (df : DataFrame float) (rs : list (Row float)) (p : str) (s : list str)
          (fig : Figure float),
      wf df -> rows_of df = Ok rs -> create_bubble_chart df p s = Ok (Some fig) ->
      let sv := surviving p s rs in
      (forall (i j : nat) (ri rj : Row float),
          nth_error sv i = Some ri -> nth_error sv j = Some rj ->
          PrimFloat.leb (return_on_assets ri) (return_on_assets rj) = true ->
          exists ci gi bi cj gj bj : Z,
            nth_error (marker_color fig) i
            = Some (lit "rgba(" ++ dec_Z ci ++ lit "," ++ dec_Z gi ++ lit ","
                    ++ dec_Z bi ++ lit ",0.70)")
            /\ nth_error (marker_color fig) j
               = Some (lit "rgba(" ++ dec_Z cj ++ lit "," ++ dec_Z gj ++ lit ","
                       ++ dec_Z bj ++ lit ",0.70)")
            /\ (ci <= cj)%Z /\ (gj <= gi)%Z /\ (bj <= bi)%Z)
      /\ (forall (i : nat) (r : Row float), nth_error sv i = Some r ->
            (forall r', In r' sv ->
               PrimFloat.leb (return_on_assets r) (return_on_assets r') = true) ->
            nth_error (marker_color fig) i = Some (lit "rgba(0,102,255,0.70)"))
      /\ (forall (i : nat) (r : Row float), nth_error sv i = Some r ->
            (forall r', In r' sv ->
               PrimFloat.leb (return_on_assets r') (return_on_assets r) = true) ->
            (exists r', In r' sv
               /\ PrimFloat.ltb (return_on_assets r') (return_on_assets r) = true) ->
            nth_error (marker_color fig) i = Some (lit "rgba(255,60,60,0.70)")))
  /\ (forall (df : DataFrame rational) (rs : list (Row rational)) (p : str) (s : list str)
             (fig : Figure rational),
        wf df -> rows_of df = Ok rs -> create_bubble_chart df p s = Ok (Some fig) ->
        let sv := surviving p s rs in
        (forall (i j : nat) (ri rj : Row rational) (qi qj : Q),
            nth_error sv i = Some ri -> nth_error sv j = Some rj ->
            return_on_assets ri = Rat qi -> return_on_assets rj = Rat qj -> qi <= qj ->
            exists ci gi bi cj gj bj : Z,
              nth_error (marker_color fig) i
              = Some (lit "rgba(" ++ dec_Z ci ++ lit "," ++ dec_Z gi ++ lit ","
                      ++ dec_Z bi ++ lit ",0.70)")
              /\ nth_error (marker_color fig) j
                 = Some (lit "rgba(" ++ dec_Z cj ++ lit "," ++ dec_Z gj ++ lit ","
                         ++ dec_Z bj ++ lit ",0.70)")
              /\ (ci <= cj)%Z /\ (gj <= gi)%Z /\ (bj <= bi)%Z)
        /\ (forall (i : nat) (r : Row rational) (q : Q),
              nth_error sv i = Some r -> return_on_assets r = Rat q ->
              (forall r' q', In r' sv -> return_on_assets r' = Rat q' -> q <= q') ->
              nth_error (marker_color fig) i = Some (lit "rgba(0,102,255,0.70)"))
        /\ (forall (i : nat) (r : Row rational) (q : Q),
              nth_error sv i = Some r -> return_on_assets r = Rat q ->
              (forall r' q', In r' sv -> return_on_assets r' = Rat q' -> q' <= q) ->
              (exists r' q', In r' sv /\ return_on_assets r' = Rat q' /\ q' < q) ->
              nth_error (marker_color fig) i = Some (lit "rgba(255,60,60,0.70)"))).
Proof.
  split.
  - intros df rs p s fig Hwf Hrows Hfig. cbv zeta.
    destruct (@binary64_point df rs p s fig Hwf Hrows Hfig) as (Hne & Hna & _ & Hpt).
    split; [|split].
    + intros i j ri rj Hi Hj Hle.
      destruct (Hpt i ri Hi) as (ci & gi & bi & Eci & Fi & Hfi & _).
      destruct (Hpt j rj Hj) as (cj & gj & bj & Ecj & Fj & Hfj & _).
      pose proof (nth_error_In _ _ Hi) as Ii. pose proof (nth_error_In _ _ Hj) as Ij.
      apply (@leb_key _ _ (Hna ri Ii) (Hna rj Ij)) in Hle.
      pose proof (@normalized_mono _ ri rj Hne Hna Ii Ij Fi Fj Hle) as Lt.
      destruct (@channels_mono _ _ ci gi bi cj gj bj Eci Ecj Lt) as (A & B & C).
      exists ci, gi, bi, cj, gj, bj.
      split; [exact Hfi|]. split; [exact Hfj|]. split; [exact A|]. split; [exact B | exact C].
    + intros i r Hi Hmin.
      destruct (Hpt i r Hi) as (cr & cg & cb & Ec & Fin & Hf & _).
      pose proof (@normalized_least _ r Hne Hna (nth_error_In _ _ Hi) Fin Hmin) as E0.
      assert (E : (cr, cg, cb) = (0, 102, 255)%Z).
      { apply (@channels_val (normalized (surviving p s rs) r) 0%float _ _ Ec).
        - vm_compute. reflexivity.
        - rewrite E0. vm_compute. reflexivity. }
      inversion E; subst cr cg cb. exact Hf.
    + intros i r Hi Hmax Hlt.
      destruct (Hpt i r Hi) as (cr & cg & cb & Ec & Fin & Hf & _).
      pose proof (@normalized_greatest _ r Hne Hna (nth_error_In _ _ Hi) Fin Hmax Hlt) as E1.
      assert (E : (cr, cg, cb) = (255, 60, 60)%Z).
      { apply (@channels_val (normalized (surviving p s rs) r) 1%float _ _ Ec).
        - vm_compute. reflexivity.
        - rewrite E1. vm_compute. reflexivity. }
      inversion E; subst cr cg cb. exact Hf.
  - intros df rs p s fig Hwf Hrows Hfig.
    pose proof (@colour_scale_exact df rs p s fig Hwf Hrows Hfig) as H.
    cbv zeta in H |- *. destruct H as (H1 & H2 & H3). split; [|split].
    + intros i j ri rj qi qj Hi Hj Ei Ej Hq.
      destruct (H1 i j ri rj qi qj Hi Hj Ei Ej Hq) as (ci & gi & bi & cj & gj & bj & A & B & C).
      exists ci, gi, bi, cj, gj, bj. split; [exact A|]. split; [exact B | exact C].
    + intros i r q Hi Eq Hmin. exact (H2 i r q Hi Eq Hmin).
    + intros i r q Hi Eq Hmax Hlt. exact (H3 i r q Hi Eq Hmax Hlt).
Qed.

Lemma colour_scale_ordered_witness :
  wf (scenario_frame (F := float))
  /\ rows_of scenario_frame = Ok scenario_rows_binary64
  /\ exists fig : Figure float,
       create_bubble_chart scenario_frame period_P1 all_names = Ok (Some fig)
       /\ nth_error (marker_color fig) 0 = Some (lit "rgba(0,102,255,0.70)")
       /\ nth_error (marker_color fig) 2 = Some (lit "rgba(255,60,60,0.70)").
Proof.
  split; [exact scenario_frame_wf_binary64|]. split; [reflexivity|].
  destruct scenario_figure_binary64 as [fig|] eqn:E; [|discriminate].
  assert (Hfig : create_bubble_chart (scenario_frame (F := float)) period_P1 all_names
                 = Ok (Some fig)) by (rewrite <- E; reflexivity).
  destruct (proj1 colour_scale_ordered scenario_frame scenario_rows_binary64 period_P1
              all_names fig scenario_frame_wf_binary64 eq_refl Hfig) as (_ & Hmin & Hmax).
  exists fig. split; [exact Hfig|]. split.
  - apply (Hmin O _ eq_refl).
    intros r' Hr'. vm_compute in Hr'.
    destruct Hr' as [<-|[<-|[<-|[]]]]; vm_compute; reflexivity.
  - apply (Hmax 2%nat _ eq_refl).
    + intros r' Hr'. vm_compute in Hr'.
      destruct Hr' as [<-|[<-|[<-|[]]]]; vm_compute; reflexivity.
    + eexists. split; [left; reflexivity|]. vm_compute. reflexivity.
Defined.
End ExactEncoder.

(** ** The chart and the detail table of one run *)

Section ChartAndTable.
Context {F : Type} {arith : Arith F}.
Variable parse_number : str -> F.
Variable repr_number : F -> str.

Lemma detail_table_view (df : DataFrame F) (rs : list (Row F)) (p : str) (s : list str) :
  wf df -> rows_of df = Ok rs ->
  detail_table df p s
  = match filter (matches p s) rs with
    | [] => Ok None
    | _ :: _ =>
        tv <- mapM ratio_display (map turnover (filter (matches p s) rs)) ;;
        Ok (Some {| detail_name := map entity_name (filter (matches p s) rs);
                    detail_period := map period (filter (matches p s) rs);
                    detail_npm := map (fun r => percent_display (net_profit_margin r))
                                      (filter (matches p s) rs);
                    detail_turnover := tv;
                    detail_roa := map (fun r => percent_display (return_on_assets r))
                                      (filter (matches p s) rs) |})
    end.
Proof.
  intros Hwf Hrows.
  destruct (frame_of_rows Hwf Hrows) as (En & Ep & Ea & Ev & Er).
  clear Hwf Hrows. destruct df as [names pc rn rr ac nc rc].
  cbn [stock_name report_period asset_turnover npm_value roa_value] in *. subst.
  unfold detail_table, select_rows, empty.
  cbn [stock_name report_period asset_turnover npm_value roa_value column bind option_map].
  rewrite filter_mask_rows, !select_map.
  destruct (filter (matches p s) rs) as [|r ms] eqn:Ems; [reflexivity|].
  cbn [map column bind]. rewrite !map_map. reflexivity.
Qed.

Lemma prepared_turnover_numeric (raw : DataFrame F) (rs : list (Row F)) :
  wf raw -> rows_of (preprocess_data parse_number repr_number raw) = Ok rs ->
  forall r, In r rs -> exists v : F, turnover r = Num v.
Proof.
  intros Hwf Hrows r Hr.
  destruct (frame_of_rows (preprocess_data_wf parse_number repr_number Hwf) Hrows)
    as (_ & _ & Ea & _).
  destruct (preprocess_data_columns parse_number repr_number raw)
    as (_ & _ & _ & _ & Ea' & _).
  cbv zeta in Ea'. rewrite Ea' in Ea.
  destruct (asset_turnover raw) as [ac|]; [|discriminate].
  cbn [option_map] in Ea. inversion Ea as [E].
  assert (Hin : In (turnover r) (map turnover rs)) by now apply in_map.
  rewrite <- E in Hin. apply in_map_iff in Hin. destruct Hin as (c & <- & _).
  eexists. reflexivity.
Qed.

Lemma ratio_display_total (ms : list (Row F)) :
  (forall r, In r ms -> exists v : F, turnover r = Num v) ->
  exists tv, mapM ratio_display (map turnover ms) = Ok tv.
Proof.
  intros H. apply mapM_total. intros c Hc. apply in_map_iff in Hc.
  destruct Hc as (r & <- & Hr). destruct (H r Hr) as (v & ->).
  eexists. reflexivity.
Qed.

Lemma create_bubble_chart_columns (df : DataFrame F) (p : str) (s : list str)
    (fig : Figure F) :
  create_bubble_chart df p s = Ok (Some fig) -> exists rs, rows_of df = Ok rs.
Proof.
  unfold create_bubble_chart, rows_of, select_rows, empty.
  cbn [stock_name asset_turnover npm_value roa_value].
  destruct (report_period df) as [pc|]; cbn [column bind]; [|discriminate].
  destruct (select (filter_mask pc (stock_name df) p s) (stock_name df)); [discriminate|].
  destruct (asset_turnover df) as [ac|]; cbn [option_map column bind]; [|discriminate].
  destruct (npm_value df) as [nc|]; cbn [option_map column bind]; [|discriminate].
  destruct (roa_value df) as [rc|]; cbn [option_map column bind]; [|discriminate].
  intros _. eexists. reflexivity.
Qed.

Lemma prepared_detail_table (raw : DataFrame F) (rs : list (Row F)) (p : str)
    (s : list str) :
  wf raw -> rows_of (preprocess_data parse_number repr_number raw) = Ok rs ->
  let df := preprocess_data parse_number repr_number raw in
  let ms := filter (matches p s) rs in
  (ms = [] -> detail_table df p s = Ok None)
  /\ (ms <> [] ->
      exists tv,
        mapM ratio_display (map turnover ms) = Ok tv
        /\ detail_table df p s
           = Ok (Some {| detail_name := map entity_name ms;
                         detail_period := map period ms;
                         detail_npm := map (fun r => percent_display (net_profit_margin r)) ms;
                         detail_turnover := tv;
                         detail_roa := map (fun r => percent_display (return_on_assets r)) ms |})).
Proof.
  intros Hwf Hrows df ms.
  pose proof (detail_table_view p s (preprocess_data_wf parse_number repr_number Hwf) Hrows)
    as V. fold df ms in V.
  split.
  - intros E. rewrite V, E. reflexivity.
  - intros Hne.
    destruct (@ratio_display_total ms) as (tv & Htv).
    { intros r Hr. apply (prepared_turnover_numeric Hwf Hrows).
      apply filter_In in Hr. tauto. }
    exists tv. split; [exact Htv|]. rewrite V.
    destruct ms as [|r ms']; [contradiction|]. rewrite Htv. reflexivity.
Qed.

(** X9: every point of the chart has a row in the detail table of the same
    run.  On a prepared table, when [create_bubble_chart] returns a chart,
    the detail table for the same period and selection exists and has at
    least as many rows; for every point there is a row with the point's
    entity name whose margin text is the point's y value in [.2f] notation
    followed by "%" and whose turnover text is the point's x value in
    [.3f] notation. *)
Theorem chart_points_in_table (raw : DataFrame F) (p : str) (s : list str)
    (fig : Figure F) :
  wf raw ->
  create_bubble_chart (preprocess_data parse_number repr_number raw) p s = Ok (Some fig) ->
  exists t : DetailTable,
    detail_table (preprocess_data parse_number repr_number raw) p s = Ok (Some t)
    /\ (length (customdata fig) <= length (detail_name t))%nat
    /\ forall (i : nat) (name : str),
         nth_error (customdata fig) i = Some name ->
         exists (j : nat) (x y : F),
           nth_error (trace_x fig) i = Some (Num x)
           /\ nth_error (trace_y fig) i = Some y
           /\ nth_error (detail_name t) j = Some name
           /\ nth_error (detail_npm t) j = Some (ffixed 2 y ++ lit "%")
           /\ nth_error (detail_turnover t) j = Some (ffixed 3 x).
Proof.
  intros Hwf Hfig.
  destruct (create_bubble_chart_columns _ _ _ Hfig) as (rs & Hrows).
  pose proof (preprocess_data_wf parse_number repr_number Hwf) as Hwf'.
  destruct (create_bubble_chart_fields p s Hwf' Hrows Hfig) as (Hne & _).
  destruct (chart_points p s Hwf' Hrows Hfig) as [(_ & _ & _ & _ & _ & _ & _ & Hlen) Hpt].
  destruct (prepared_detail_table p s Hwf Hrows) as [_ Hsome].
  assert (Hms : filter (matches p s) rs <> []).
  { intros E. apply Hne. unfold surviving. now rewrite E. }
  destruct (Hsome Hms) as (tv & Htv & Ht).
  eexists. split; [exact Ht|]. cbn [detail_name detail_npm detail_turnover].
  split.
  { rewrite Hlen, length_map. unfold surviving. apply filter_length_le. }
  intros i name Hi.
  assert (Hlt : (i < length (surviving p s rs))%nat).
  { rewrite <- Hlen. apply nth_error_Some. congruence. }
  destruct (nth_error (surviving p s rs) i) as [r|] eqn:Hr;
    [|apply nth_error_None in Hr; lia].
  destruct (Hpt i r Hr) as (_ & _ & _ & _ & Hx & Hy & Hn).
  rewrite Hn in Hi. inversion Hi; subst name.
  pose proof (nth_error_In _ _ Hr) as Hin. apply surviving_In in Hin.
  destruct Hin as (Hrs & Hm & Hc). apply complete_iff in Hc.
  destruct Hc as (Ct & Cn & _).
  destruct (prepared_turnover_numeric Hwf Hrows r Hrs) as (x & Ex).
  assert (Hrm : In r (filter (matches p s) rs)) by (apply filter_In; tauto).
  apply In_nth_error in Hrm. destruct Hrm as (j & Hj).
  destruct (mapM_nth _ _ j Htv (map_nth_error turnover j _ Hj)) as (b & Hb & Hbj).
  exists j, x, (fmul (net_profit_margin r) (fofZ 100)).
  rewrite Ex in Hx, Hb, Ct. cbn [cell_notna] in Ct.
  split; [exact Hx|]. split; [exact Hy|].
  split; [now apply map_nth_error|].
  split.
  - rewrite (map_nth_error (fun r => percent_display (net_profit_margin r)) j _ Hj).
    unfold percent_display, notna. now rewrite Cn.
  - rewrite Hbj. cbn [ratio_display] in Hb. rewrite Ct in Hb. now inversion Hb.
Qed.
End ChartAndTable.

Lemma chart_points_in_table_witness :
  exists (fig : Figure rational) (t : @DetailTable rational),
    create_bubble_chart (preprocess_data parse_digits repr_int mixed_raw) period_P1
      all_names = Ok (Some fig)
    /\ detail_table (preprocess_data parse_digits repr_int mixed_raw) period_P1 all_names
       = Ok (Some t)
    /\ (length (customdata fig) <= length (detail_name t))%nat.
Proof.
  destruct mixed_figure as [fig|] eqn:E; [|discriminate].
  assert (Hfig : create_bubble_chart (preprocess_data parse_digits repr_int mixed_raw)
                   period_P1 all_names = Ok (Some fig)) by (rewrite <- E; reflexivity).
  destruct (@chart_points_in_table rational _ parse_digits repr_int mixed_raw period_P1
              all_names fig) as (t & Ht & Hlen & _).
  - vm_compute. repeat split; reflexivity.
  - exact Hfig.
  - exists fig, t. repeat split; assumption.
Defined.

(** ** From the raw cells to the page *)

Section RawCells.
Context {F : Type} {arith : Arith F}.
Variable parse_number : str -> F.
Variable repr_number : F -> str.

Lemma prepared_row_values (raw : DataFrame F) (rs : list (Row F)) (i : nat) (r : Row F) :
  wf raw -> rows_of (preprocess_data parse_number repr_number raw) = Ok rs ->
  nth_error rs i = Some r ->
  (forall col c, npm_raw raw = Some col -> nth_error col i = Some c ->
     net_profit_margin r = fdiv (to_numeric parse_number c) (fofZ 100))
  /\ (forall col c, roa_raw raw = Some col -> nth_error col i = Some c ->
        return_on_assets r = fdiv (to_numeric parse_number c) (fofZ 100)).
Proof.
  intros Hwf Hrows Hi.
  destruct (frame_of_rows (preprocess_data_wf parse_number repr_number Hwf) Hrows)
    as (_ & _ & _ & En & Er).
  destruct (preprocess_data_columns parse_number repr_number raw)
    as (_ & _ & _ & _ & _ & En' & Er').
  cbv zeta in En', Er'. rewrite En' in En. rewrite Er' in Er.
  split; intros col c Hcol Hc.
  - rewrite Hcol in En. inversion En as [E].
    pose proof (map_nth_error net_profit_margin i rs Hi) as H1.
    rewrite <- E, (map_nth_error _ i col Hc) in H1. now inversion H1.
  - rewrite Hcol in Er. inversion Er as [E].
    pose proof (map_nth_error return_on_assets i rs Hi) as H1.
    rewrite <- E, (map_nth_error _ i col Hc) in H1. now inversion H1.
Qed.

Lemma filter_length_lt (A : Type) (f : A -> bool) (l : list A) (x : A) :
  In x l -> f x = false -> (length (filter f l) < length l)%nat.
Proof.
  induction l as [|a l IH]; intros Hin Hx; [contradiction|].
  cbn [filter]. destruct Hin as [->|Hin].
  - rewrite Hx. cbn [length]. pose proof (filter_length_le f l). lia.
  - specialize (IH Hin Hx). destruct (f a); cbn [length]; lia.
Qed.

(** X11: a percentage cell that holds no number, through the whole run.
    When the net profit margin or the return on assets of a row is blank
    or a text that [to_numeric] cannot read, the row is never a point of
    the chart, but when it matches the period and the selection it is a
    row of the detail table, which shows "N/A" in that column; a chart of
    the same run then has fewer points than the table has rows.  Holds in
    every arithmetic in which x / 100 is NaN exactly when x is, as exact
    rationals and binary64 are. *)
Theorem unparsable_cell_row (raw : DataFrame F) (rs : list (Row F)) (p : str)
    (s : list str) (i : nat) (r : Row F) (col : list (cell F)) (c : cell F) :
  (forall v : F, fisnan (fdiv v (fofZ 100)) = fisnan v) ->
  wf raw -> rows_of (preprocess_data parse_number repr_number raw) = Ok rs ->
  nth_error rs i = Some r ->
  npm_raw raw = Some col \/ roa_raw raw = Some col ->
  nth_error col i = Some c -> no_number parse_number c ->
  ~ In r (surviving p s rs)
  /\ (matches p s r = true ->
      exists (t : DetailTable) (j : nat),
        detail_table (preprocess_data parse_number repr_number raw) p s = Ok (Some t)
        /\ nth_error (detail_name t) j = Some (entity_name r)
        /\ (npm_raw raw = Some col -> nth_error (detail_npm t) j = Some (lit "N/A"))
        /\ (roa_raw raw = Some col -> nth_error (detail_roa t) j = Some (lit "N/A"))
        /\ forall fig : Figure F,
             create_bubble_chart (preprocess_data parse_number repr_number raw) p s
             = Ok (Some fig) ->
             (length (customdata fig) < length (detail_name t))%nat).
Proof.
  intros Hdiv Hwf Hrows Hi Hcol Hc Hno.
  destruct (prepared_row_values i Hwf Hrows Hi) as [Vn Vr].
  assert (Hnan : fisnan (fdiv (to_numeric parse_number c) (fofZ 100)) = true).
  { rewrite Hdiv. destruct c; exact Hno. }
  assert (Hn : npm_raw raw = Some col -> fisnan (net_profit_margin r) = true).
  { intros H. now rewrite (Vn col c H Hc). }
  assert (Hr : roa_raw raw = Some col -> fisnan (return_on_assets r) = true).
  { intros H. now rewrite (Vr col c H Hc). }
  assert (Hinc : complete r = false).
  { destruct (complete r) eqn:E; [|reflexivity]. apply complete_iff in E.
    destruct E as (_ & E1 & E2). destruct Hcol as [H|H]; [apply Hn in H | apply Hr in H];
      congruence. }
  split.
  { intros Hin. apply surviving_In in Hin. destruct Hin as (_ & _ & Hc'). congruence. }
  intros Hm.
  pose proof (nth_error_In _ _ Hi) as Hrs.
  assert (Hrm : In r (filter (matches p s) rs)) by (apply filter_In; tauto).
  destruct (prepared_detail_table parse_number repr_number p s Hwf Hrows) as [_ Hsome].
  destruct Hsome as (tv & Htv & Ht).
  { intros E. rewrite E in Hrm. exact Hrm. }
  destruct (In_nth_error _ _ Hrm) as (j & Hj).
  eexists. exists j. split; [exact Ht|]. cbn [detail_name detail_npm detail_roa].
  split; [now apply map_nth_error|].
  split; [|split].
  - intros H. rewrite (map_nth_error (fun r => percent_display (net_profit_margin r)) j _ Hj).
    unfold percent_display, notna. now rewrite (Hn H).
  - intros H. rewrite (map_nth_error (fun r => percent_display (return_on_assets r)) j _ Hj).
    unfold percent_display, notna. now rewrite (Hr H).
  - intros fig Hfig.
    pose proof (preprocess_data_wf parse_number repr_number Hwf) as Hwf'.
    destruct (chart_points p s Hwf' Hrows Hfig) as [(_ & _ & _ & _ & _ & _ & _ & Hlen) _].
    rewrite Hlen, length_map. unfold surviving.
    now apply (@filter_length_lt _ complete _ r).
Qed.
End RawCells.

Lemma unparsable_cell_row_witness :
  exists (r : Row rational) (t : @DetailTable rational) (j : nat),
    nth_error mixed_rows 2 = Some r
    /\ ~ In r (surviving period_P1 all_names mixed_rows)
    /\ detail_table (preprocess_data parse_digits repr_int mixed_raw) period_P1 all_names
       = Ok (Some t)
    /\ nth_error (detail_name t) j = Some name_C
    /\ nth_error (detail_npm t) j = Some (lit "N/A").
Proof.
  destruct (nth_error mixed_rows 2) as [r|] eqn:Hr; [|discriminate].
  destruct (@unparsable_cell_row rational _ parse_digits repr_int mixed_raw mixed_rows
              period_P1 all_names 2%nat r
              [Text (lit "12"); Num (fofZ 20); Text (lit "--"); Num (fofZ 5);
               Num (fofZ (-3))]
              (Text (lit "--")))
    as (Hnot & Htab).
  - exact e_div_100_nan.
  - vm_compute. repeat split; reflexivity.
  - reflexivity.
  - exact Hr.
  - left. reflexivity.
  - reflexivity.
  - reflexivity.
  - vm_compute in Hr. inversion Hr; subst r.
    destruct (Htab eq_refl) as (t & j & Ht & Hn & Hnpm & _).
    eexists. exists t, j. split; [reflexivity|]. split; [exact Hnot|].
    split; [exact Ht|]. split; [exact Hn | exact (Hnpm eq_refl)].
Defined.

(** ** Runs of [main] *)

(** Case analysis on the membership of an element in a list of shown
    elements. *)
Ltac shown_cases :=
  repeat match goal with
         | H : In _ (_ :: _) |- _ => destruct H as [H|H]
         | H : In _ [] |- _ => destruct H
         | H : chart_element ?f = _ |- _ => destruct f; cbn [chart_element] in H
         | H : table_element ?t = _ |- _ => destruct t; cbn [table_element] in H
         | H : @eq (element _) ?a ?b |- _ =>
             first [discriminate H | is_var b; subst b | is_var a; subst a
                   | inversion H; clear H]
         end.

Section Runs.
Context {F : Type} {arith : Arith F}.
Variable parse_number : str -> F.
Variable repr_number : F -> str.

Local Abbreviation prepared := (preprocess_data parse_number repr_number).

Lemma main_not_loaded (session : Session) :
  main parse_number repr_number None session = ([Title; LoadFailed], Stop).
Proof. reflexivity. Qed.

Lemma main_loaded (raw : DataFrame F) (session : Session) (periods : list str)
    (offered : str) :
  periods_of repr_number (prepared raw) = Ok periods ->
  offered_period periods = Ok offered ->
  let selected_period :=
    match chosen_period session with Some p => p | None => offered end in
  let selected_stocks :=
    match chosen_stocks session with Some l => l | None => stocks_of (prepared raw) end in
  main parse_number repr_number (Some raw) session
  = match selected_stocks with
    | [] => ([Title; SidebarHeading; Warning select_one_stock], Stop)
    | _ :: _ =>
        match create_bubble_chart (prepared raw) selected_period selected_stocks with
        | Raise e => ([Title; SidebarHeading], Fail e)
        | Ok fig =>
            match detail_table (prepared raw) selected_period selected_stocks with
            | Raise e => ([Title; SidebarHeading; chart_element fig; TableHeading], Fail e)
            | Ok t => ([Title; SidebarHeading; chart_element fig; TableHeading;
                        table_element t], Next tt)
            end
        end
    end.
Proof.
  intros Hp Ho. cbv zeta. unfold main. cbn [show load_data and_then app].
  rewrite Hp. cbn [run and_then app]. rewrite Ho. cbn [run and_then app].
  destruct (match chosen_stocks session with
            | Some l => l
            | None => stocks_of (prepared raw)
            end) as [|n ss]; [reflexivity|].
  destruct (create_bubble_chart _ _ _) as [fig|e]; [|reflexivity].
  cbn [run and_then app show].
  destruct (detail_table _ _ _) as [t|e]; reflexivity.
Qed.

Lemma main_before_widgets (raw : DataFrame F) (session : Session) (e : exn) :
  periods_of repr_number (prepared raw) = Raise e
  \/ (exists periods, periods_of repr_number (prepared raw) = Ok periods
                      /\ offered_period periods = Raise e) ->
  main parse_number repr_number (Some raw) session = ([Title; SidebarHeading], Fail e).
Proof.
  intros [Hp|(periods & Hp & Ho)]; unfold main; cbn [show load_data and_then app];
    rewrite Hp; cbn [run and_then app]; [reflexivity|].
  rewrite Ho. reflexivity.
Qed.

Lemma chart_then_table (raw : DataFrame F) (p : str) (s : list str) (fig : Figure F) :
  wf raw -> create_bubble_chart (prepared raw) p s = Ok (Some fig) ->
  exists t : DetailTable,
    detail_table (prepared raw) p s = Ok (Some t)
    /\ (length (customdata fig) <= length (detail_name t))%nat.
Proof.
  intros Hwf Hfig.
  destruct (create_bubble_chart_columns _ _ _ Hfig) as (rs & Hrows).
  pose proof (preprocess_data_wf parse_number repr_number Hwf) as Hwf'.
  destruct (create_bubble_chart_fields p s Hwf' Hrows Hfig) as (Hne & _).
  destruct (chart_points p s Hwf' Hrows Hfig) as [(_ & _ & _ & _ & _ & _ & _ & Hlen) _].
  destruct (prepared_detail_table parse_number repr_number p s Hwf Hrows) as [_ Hsome].
  destruct Hsome as (tv & _ & Ht).
  { intros E. apply Hne. unfold surviving. now rewrite E. }
  eexists. split; [exact Ht|]. cbn [detail_name].
  rewrite Hlen, length_map. unfold surviving. apply filter_length_le.
Qed.

Lemma no_table_no_chart (df : DataFrame F) (p : str) (s : list str) :
  detail_table df p s = Ok None -> create_bubble_chart df p s = Ok None.
Proof.
  unfold detail_table, create_bubble_chart, select_rows, empty.
  cbn [stock_name report_period asset_turnover npm_value roa_value].
  destruct (report_period df) as [pc|]; cbn [column bind option_map]; [|discriminate].
  destruct (select (filter_mask pc (stock_name df) p s) (stock_name df)); [reflexivity|].
  destruct (npm_value df) as [nc|]; cbn [option_map column bind]; [|discriminate].
  destruct (asset_turnover df) as [ac|]; cbn [option_map column bind]; [|discriminate].
  destruct (roa_value df) as [rc|]; cbn [option_map column bind]; [|discriminate].
  destruct (mapM ratio_display _); cbn [bind]; discriminate.
Qed.

Lemma offered_period_nonempty (periods : list str) (d : str) :
  offered_period periods = Ok d -> periods <> [].
Proof. intros H ->. discriminate. Qed.

Lemma stocks_of_nonempty (raw : DataFrame F) (periods : list str) (d : str) :
  wf raw -> periods_of repr_number (prepared raw) = Ok periods ->
  offered_period periods = Ok d -> stocks_of (prepared raw) <> [].
Proof.
  intros Hwf Hp Ho Hs.
  pose proof (preprocess_data_wf parse_number repr_number Hwf) as (Hlen & _).
  unfold periods_of in Hp.
  destruct (report_period (prepared raw)) as [col|]; [|discriminate].
  cbn [column bind has_len] in Hp, Hlen. inversion Hp; subst periods.
  destruct col as [|c col].
  - discriminate.
  - destruct (stock_name (prepared raw)) as [|n names] eqn:En; [discriminate|].
    assert (Hin : In n (stocks_of (prepared raw))).
    { unfold stocks_of. rewrite sorted_asc_In, unique_In, En. now left. }
    rewrite Hs in Hin. exact Hin.
Qed.

(** The five ways a run of [main] can go. *)
Lemma main_shapes (read_excel : option (DataFrame F)) (session : Session) :
  (forall raw, read_excel = Some raw -> wf raw) ->
  let r := main parse_number repr_number read_excel session in
  (read_excel = None /\ r = ([Title; LoadFailed], Stop))
  \/ (exists e, r = ([Title; SidebarHeading], Fail e))
  \/ (chosen_stocks session = Some []
      /\ r = ([Title; SidebarHeading; Warning select_one_stock], Stop))
  \/ (exists e,
        r = ([Title; SidebarHeading; Warning nothing_to_show; TableHeading], Fail e))
  \/ (exists fig t,
        r = ([Title; SidebarHeading; chart_element fig; TableHeading; table_element t],
             Next tt)
        /\ (forall f, fig = Some f ->
              exists t', t = Some t'
                         /\ (length (customdata f) <= length (detail_name t'))%nat)
        /\ (t = None -> fig = None)).
Proof.
  intros Hwf r. subst r. destruct read_excel as [raw|]; [|left; split; reflexivity].
  specialize (Hwf raw eq_refl). right.
  destruct (periods_of repr_number (prepared raw)) as [periods|e] eqn:Hp;
    [|left; exists e; apply main_before_widgets; now left].
  destruct (offered_period periods) as [offered|e] eqn:Ho;
    [|left; exists e; apply main_before_widgets; right; now exists periods].
  rewrite (main_loaded raw session Hp Ho). cbv zeta.
  pose proof (stocks_of_nonempty Hwf Hp Ho) as Hst.
  set (sp := match chosen_period session with Some p => p | None => offered end).
  destruct (match chosen_stocks session with
            | Some l => l
            | None => stocks_of (prepared raw)
            end) as [|n ss] eqn:Ess.
  { right. left. split; [|reflexivity].
    destruct (chosen_stocks session) as [l|]; [now subst l | contradiction]. }
  destruct (create_bubble_chart (prepared raw) sp (n :: ss)) as [fig|e] eqn:Hc;
    [|left; now exists e].
  right. right.
  destruct (detail_table (prepared raw) sp (n :: ss)) as [t|e] eqn:Hd.
  - right. exists fig, t. split; [reflexivity|]. split.
    + intros f ->. destruct (@chart_then_table raw sp (n :: ss) f Hwf Hc) as (t' & Ht' & Hlen).
      rewrite Ht' in Hd. inversion Hd; subst t. now exists t'.
    + intros ->. apply no_table_no_chart in Hd. rewrite Hd in Hc. now inversion Hc.
  - left. exists e. destruct fig as [f|]; [|reflexivity].
    destruct (@chart_then_table raw sp (n :: ss) f Hwf Hc) as (t' & Ht' & _). congruence.
Qed.

Lemma warnings_distinct :
  select_one_stock <> nothing_to_show /\ select_one_stock <> no_matching_rows
  /\ nothing_to_show <> no_matching_rows.
Proof. repeat split; discriminate. Qed.

(** X12: what one run of [main] shows, and in which order.  A run that
    shows a chart goes on to the end and shows exactly the title, the
    sidebar heading, the chart, the table heading and the detail table, in
    this order, and the table has at least as many rows as the chart has
    points.  A run that warns that no row matches shows exactly the title,
    the sidebar heading, the warning that there is nothing to display, the
    table heading and then that warning.  A run that ends at [st.stop()]
    shows neither chart nor table; the request to select a stock is shown
    only when the user emptied the selection, and the load error only when
    reading the file failed, and both end the run. *)
Theorem chart_shown_with_table (read_excel : option (DataFrame F)) (session : Session)
    (shown : list (element F)) (ending : flow unit) :
  (forall raw, read_excel = Some raw -> wf raw) ->
  main parse_number repr_number read_excel session = (shown, ending) ->
  (forall fig, In (PlotlyChart fig) shown ->
     ending = Next tt
     /\ exists t,
          shown = [Title; SidebarHeading; PlotlyChart fig; TableHeading; DataTable t]
          /\ (length (customdata fig) <= length (detail_name t))%nat)
  /\ (In (Warning no_matching_rows) shown ->
      shown = [Title; SidebarHeading; Warning nothing_to_show; TableHeading;
               Warning no_matching_rows]
      /\ ending = Next tt)
  /\ (ending = Stop ->
      forall e, In e shown ->
        e = Title \/ e = LoadFailed \/ e = SidebarHeading
        \/ e = Warning select_one_stock)
  /\ (In (Warning select_one_stock) shown ->
      chosen_stocks session = Some [] /\ ending = Stop)
  /\ (In LoadFailed shown -> read_excel = None /\ ending = Stop).
Proof.
  intros Hwf Hmain.
  destruct warnings_distinct as (D1 & D2 & D3).
  destruct (@main_shapes read_excel session Hwf)
    as [[Hn E]|[[e E]|[[Hs E]|[[e E]|(fig & t & E & Hft & Htf)]]]];
    cbv zeta in E; rewrite E in Hmain; inversion Hmain; subst shown ending; clear Hmain.
  - repeat split; intros; shown_cases; try discriminate; tauto.
  - repeat split; intros; shown_cases; try discriminate; tauto.
  - repeat split; intros; shown_cases; try discriminate; try congruence; tauto.
  - repeat split; intros; shown_cases; try discriminate; try congruence; tauto.
  - split; [|split; [|split; [|split]]].
    + intros f Hf. split; [reflexivity|].
      destruct fig as [f0|]; cbn [chart_element] in Hf.
      * destruct (Hft f0 eq_refl) as (t' & -> & Hlen). cbn [table_element] in Hf.
        shown_cases; subst. exists t'. split; [reflexivity | exact Hlen].
      * destruct t; cbn [table_element] in Hf; shown_cases.
    + intros Hw. split; [|reflexivity].
      destruct t as [t0|]; cbn [table_element] in Hw.
      * shown_cases; try congruence.
      * rewrite (Htf eq_refl). reflexivity.
    + discriminate.
    + intros Hw. exfalso.
      destruct fig, t; cbn [chart_element table_element] in Hw; shown_cases;
        congruence.
    + intros Hw. exfalso.
      destruct fig, t; cbn [chart_element table_element] in Hw; shown_cases.
Qed.
End Runs.

Lemma chart_shown_with_table_witness :
  exists (shown : list (element rational)) (fig : Figure rational),
    main parse_digits repr_int (Some mixed_raw) (mkSession (Some period_P1) None)
    = (shown, Next tt)
    /\ In (PlotlyChart fig) shown
    /\ exists t, In (DataTable t) shown
                 /\ (length (customdata fig) <= length (detail_name t))%nat.
Proof.
  destruct (main parse_digits repr_int (Some (mixed_raw (F := rational)))
              (mkSession (Some period_P1) None)) as [shown ending] eqn:E.
  assert (Hwf : forall raw, Some (mixed_raw (F := rational)) = Some raw -> wf raw).
  { intros raw H. inversion H; subst raw. vm_compute. repeat split; reflexivity. }
  destruct (@chart_shown_with_table rational _ parse_digits repr_int (Some mixed_raw)
              (mkSession (Some period_P1) None) shown ending Hwf E) as (Hchart & _).
  destruct mixed_figure as [fig|] eqn:Ef; [|discriminate].
  assert (Hin : In (PlotlyChart fig) shown).
  { vm_compute in E. inversion E; subst shown. vm_compute in Ef. inversion Ef; subst fig.
    right. right. left. reflexivity. }
  destruct (Hchart fig Hin) as (-> & t & Ht & Hlen).
  exists shown, fig. split; [reflexivity|]. split; [exact Hin|]. exists t.
  split; [|exact Hlen]. rewrite Ht. cbn [In]. tauto.
Defined.

(** ** The first run and complete tables *)

Section FirstRun.
Context {F : Type} {arith : Arith F}.
Variable parse_number : str -> F.
Variable repr_number : F -> str.

Local Abbreviation prepared := (preprocess_data parse_number repr_number).

Lemma offered_period_total (periods : list str) :
  periods <> [] -> exists d, offered_period periods = Ok d /\ In d periods.
Proof.
  intros Hne. destruct (default_period periods) as [d|e] eqn:Hd.
  - pose proof (default_period_In _ Hd) as Hin. exists d. split; [|exact Hin].
    unfold offered_period. rewrite Hd. cbn [bind].
    rewrite (proj2 (str_in_In d periods) Hin). now rewrite (index_of_nth _ _ Hin).
  - unfold default_period in Hd. destruct (str_in (lit "20241231") periods); [discriminate|].
    destruct periods; [contradiction | discriminate].
Qed.

Lemma periods_nonempty (col : list (cell F)) :
  col <> [] -> sorted_desc (unique (map (cell_text repr_number) col)) <> [].
Proof.
  destruct col as [|c col]; [contradiction|]. intros _ E.
  assert (H : In (cell_text repr_number c)
                 (sorted_desc (unique (map (cell_text repr_number) (c :: col))))).
  { rewrite sorted_desc_In, unique_In. now left. }
  rewrite E in H. exact H.
Qed.

Lemma filter_mask_all_selected (col : list (cell F)) (names : list str) (d : str)
    (ss : list str) :
  length col = length names -> (forall n, In n names -> str_in n ss = true) ->
  filter_mask (map (astype_str repr_number) col) names d ss
  = map (fun c => str_eqb (cell_text repr_number c) d) col.
Proof.
  unfold filter_mask. revert names.
  induction col as [|c col IH]; intros [|n names] Hlen Hall; try discriminate;
    [reflexivity|].
  cbn [map combine fst snd]. rewrite (Hall n (or_introl eq_refl)), andb_true_r.
  f_equal.
  - now destruct c.
  - apply IH; [now inversion Hlen|]. intros m Hm. apply Hall. now right.
Qed.

Lemma select_period_nonempty (col : list (cell F)) (names : list str) (d : str) :
  length col = length names -> In d (map (cell_text repr_number) col) ->
  select (map (fun c => str_eqb (cell_text repr_number c) d) col) names <> [].
Proof.
  revert names. induction col as [|c col IH]; intros [|n names] Hlen Hin;
    try discriminate; [contradiction|].
  cbn [map select]. destruct (str_eqb (cell_text repr_number c) d) eqn:E; [discriminate|].
  destruct Hin as [Hin|Hin].
  - rewrite Hin, str_eqb_refl in E. discriminate.
  - apply IH; [now inversion Hlen | exact Hin].
Qed.

Lemma detail_table_names (df : DataFrame F) (p : str) (s : list str)
    (t : option (@DetailTable F)) :
  detail_table df p s = Ok t ->
  exists pc, report_period df = Some pc
    /\ match t with
       | Some t => detail_name t = select (filter_mask pc (stock_name df) p s) (stock_name df)
       | None => select (filter_mask pc (stock_name df) p s) (stock_name df) = []
       end.
Proof.
  unfold detail_table, select_rows, empty.
  cbn [stock_name report_period asset_turnover npm_value roa_value].
  destruct (report_period df) as [pc|]; cbn [column bind option_map]; [|discriminate].
  intros H. exists pc. split; [reflexivity|].
  destruct (select (filter_mask pc (stock_name df) p s) (stock_name df)) as [|n l] eqn:E.
  - now inversion H.
  - destruct (npm_value df) as [nc|]; cbn [option_map column bind] in H; [|discriminate].
    destruct (asset_turnover df) as [ac|]; cbn [option_map column bind] in H; [|discriminate].
    destruct (roa_value df) as [rc|]; cbn [option_map column bind] in H; [|discriminate].
    destruct (mapM ratio_display _); cbn [bind] in H; [|discriminate].
    inversion H. reflexivity.
Qed.

(** X13: the first run, before the user touches a widget.  On a table with
    the period column and at least one row, the run uses the default
    period and every entity, so it never stops and never reports that no
    row matches: a detail table that is shown lists, in table order,
    exactly the rows whose period text is the default period, and there is
    at least one. *)
Theorem first_run_shows_default_period (raw : DataFrame F) (col : list (cell F))
    (shown : list (element F)) (ending : flow unit) :
  wf raw -> report_period raw = Some col -> col <> [] ->
  main parse_number repr_number (Some raw) (mkSession None None) = (shown, ending) ->
  exists d : str,
    main_period parse_number repr_number raw = Ok d
    /\ In d (map (cell_text repr_number) col)
    /\ ending <> Stop
    /\ ~ In (Warning no_matching_rows) shown
    /\ ~ In (Warning select_one_stock) shown
    /\ forall t, In (DataTable t) shown ->
         detail_name t
         = select (map (fun c => str_eqb (cell_text repr_number c) d) col) (stock_name raw)
         /\ detail_name t <> [].
Proof.
  intros Hwf Hcol Hne Hmain.
  pose proof (periods_of_preprocessed parse_number repr_number raw Hcol) as Hp.
  destruct (offered_period_total (periods_nonempty Hne)) as (d & Ho & Hd).
  rewrite sorted_desc_In, unique_In in Hd.
  exists d. split; [unfold main_period; now rewrite Hp|]. split; [exact Hd|].
  pose proof (stocks_of_nonempty parse_number repr_number Hwf Hp Ho) as Hst.
  rewrite (main_loaded parse_number repr_number raw (mkSession None None) Hp Ho) in Hmain.
  cbv zeta in Hmain. cbn [chosen_period chosen_stocks] in Hmain.
  destruct (stocks_of (prepared raw)) as [|n ss] eqn:Ess; [contradiction|].
  destruct warnings_distinct as (D1 & D2 & D3).
  destruct (create_bubble_chart (prepared raw) d (n :: ss)) as [fig|e];
    [|inversion Hmain; subst shown ending; repeat split; try discriminate;
      unfold not; intros; shown_cases].
  destruct (detail_table (prepared raw) d (n :: ss)) as [t|e] eqn:Ht;
    [|inversion Hmain; subst shown ending; repeat split; try discriminate;
      unfold not; intros; destruct fig; cbn [chart_element] in *; shown_cases;
      congruence].
  inversion Hmain; subst shown ending; clear Hmain.
  destruct (detail_table_names _ _ _ Ht) as (pc & Hpc & Hnames).
  destruct (preprocess_data_columns parse_number repr_number raw)
    as (En & _ & _ & Ep & _).
  cbv zeta in En, Ep. rewrite Ep, Hcol in Hpc. cbn [option_map] in Hpc.
  inversion Hpc; subst pc. rewrite En in Hnames.
  assert (Hlen : length col = length (stock_name raw)).
  { destruct Hwf as (H & _). rewrite Hcol in H. exact H. }
  assert (Hall : forall m, In m (stock_name raw) -> str_in m (n :: ss) = true).
  { intros m Hm. apply str_in_In. rewrite <- Ess. unfold stocks_of.
    now rewrite sorted_asc_In, unique_In, En. }
  rewrite (@filter_mask_all_selected col (stock_name raw) d (n :: ss) Hlen Hall) in Hnames.
  pose proof (@select_period_nonempty col (stock_name raw) d Hlen Hd) as Hsel.
  destruct t as [t|]; [|contradiction].
  split; [discriminate|].
  split; [intros H; destruct fig; cbn [chart_element table_element] in H; shown_cases;
          congruence|].
  split; [intros H; destruct fig; cbn [chart_element table_element] in H; shown_cases;
          congruence|].
  intros t' H. destruct fig; cbn [chart_element table_element] in H; shown_cases;
    subst; (split; [exact Hnames | now rewrite Hnames]).
Qed.
End FirstRun.

Lemma first_run_shows_default_period_witness :
  exists (shown : list (element rational)) (ending : flow unit) (d : str),
    main parse_digits repr_int (Some mixed_raw) (mkSession None None) = (shown, ending)
    /\ main_period parse_digits repr_int mixed_raw = Ok d
    /\ ending <> Stop
    /\ ~ In (Warning no_matching_rows) shown.
Proof.
  destruct (main parse_digits repr_int (Some (mixed_raw (F := rational)))
              (mkSession None None)) as [shown ending] eqn:E.
  destruct (@first_run_shows_default_period rational _ parse_digits repr_int mixed_raw
              [Text period_P1; Text period_P1; Text period_P1; Text period_P2;
               Text period_P1] shown ending)
    as (d & Hd & _ & Hs & Hn & _).
  - vm_compute. repeat split; reflexivity.
  - reflexivity.
  - discriminate.
  - exact E.
  - exists shown, ending, d. repeat split; assumption.
Defined.

(** ** Where a prepared table can make the chart fail *)

Section PreparedTables.
Context {F : Type} {arith : Arith F}.
Variable parse_number : str -> F.
Variable repr_number : F -> str.

Local Abbreviation prepared := (preprocess_data parse_number repr_number).

Lemma mapM_raise (A B : Type) (f : A -> result B) (l : list A) (e : exn) :
  mapM f l = Raise e -> exists a, In a l /\ f a = Raise e.
Proof.
  induction l as [|a l IH]; cbn [mapM]; [discriminate|].
  destruct (f a) as [b|e'] eqn:Ea; cbn [bind].
  - destruct (mapM f l) as [bs|e'']; cbn [bind]; [discriminate|].
    intros H. inversion H; subst e''. destruct (IH eq_refl) as (a' & Hin & Ha').
    exists a'. split; [now right | exact Ha'].
  - intros H. inversion H; subst e'. exists a. split; [now left | exact Ea].
Qed.

Lemma channels_raise (t : F) (e : exn) :
  channels t = Raise e ->
  fint (fadd (fofZ 0) (fmul (fofZ 255) t)) = Raise e
  \/ fint (fadd (fofZ 102) (fmul (fofZ (-42)) t)) = Raise e
  \/ fint (fadd (fofZ 255) (fmul (fofZ (-195)) t)) = Raise e.
Proof.
  unfold channels.
  change (fofZ (255 - 0)) with (fofZ 255).
  change (fofZ (60 - 102)) with (fofZ (-42)).
  change (fofZ (60 - 255)) with (fofZ (-195)).
  destruct (fint (fadd (fofZ 0) (fmul (fofZ 255) t))) as [cr|e1]; cbn [bind];
    [|intros H; left; inversion H; reflexivity].
  destruct (fint (fadd (fofZ 102) (fmul (fofZ (-42)) t))) as [cg|e2]; cbn [bind];
    [|intros H; right; left; inversion H; reflexivity].
  destruct (fint (fadd (fofZ 255) (fmul (fofZ (-195)) t))) as [cb|e3]; cbn [bind];
    [discriminate | intros H; right; right; inversion H; reflexivity].
Qed.

Lemma prepared_failures (raw : DataFrame F) (pc rn rr ac : list (cell F)) (p : str)
    (s : list str) :
  wf raw -> report_period raw = Some pc -> npm_raw raw = Some rn ->
  roa_raw raw = Some rr -> asset_turnover raw = Some ac ->
  exists rs : list (Row F),
    rows_of (prepared raw) = Ok rs
    /\ (exists t, detail_table (prepared raw) p s = Ok t)
    /\ (forall e : exn, create_bubble_chart (prepared raw) p s = Raise e ->
          exists r : Row F,
            In r (surviving p s rs) /\ channels (normalized (surviving p s rs) r) = Raise e)
    /\ ((forall r : Row F, In r (surviving p s rs) ->
           exists c, channels (normalized (surviving p s rs) r) = Ok c) ->
        exists fig, create_bubble_chart (prepared raw) p s = Ok fig).
Proof.
  intros Hwf Hp Hn Hr Ha.
  destruct (preprocess_data_rows parse_number repr_number raw Hp Hn Hr Ha) as (rs & Hrows).
  pose proof (preprocess_data_wf parse_number repr_number Hwf) as Hwf'.
  exists rs. split; [exact Hrows|]. split.
  { destruct (prepared_detail_table parse_number repr_number p s Hwf Hrows)
      as [Hnone Hsome].
    destruct (filter (matches p s) rs) as [|r ms] eqn:E.
    - eexists. now apply Hnone.
    - destruct Hsome as (tv & _ & Ht); [discriminate|]. eexists. exact Ht. }
  rewrite (create_bubble_chart_encode p s Hwf' Hrows).
  pose proof (surviving_notna p s rs) as Hna. rewrite Forall_forall in Hna.
  set (sv := surviving p s rs) in *.
  assert (Hcol : forall r, In r sv ->
            color_of (scale_min sv) (scale_range sv) (return_on_assets r)
            = c <- channels (normalized sv r) ;; Ok (fill_color c, edge_color c)).
  { intros r Hin. unfold color_of, normalized. now rewrite (Hna r Hin). }
  split.
  - intros e He. unfold encode in He. destruct sv as [|r0 sv'] eqn:Esv; [discriminate|].
    rewrite <- Esv in *.
    destruct (mapM _ sv) as [cs|e'] eqn:Em; cbn [bind] in He; [discriminate|].
    inversion He; subst e'. destruct (mapM_raise _ _ Em) as (r & Hin & Hr').
    exists r. split; [exact Hin|]. rewrite (Hcol r Hin) in Hr'.
    destruct (channels (normalized sv r)) as [c|e'']; cbn [bind] in Hr'; [discriminate|].
    inversion Hr'. reflexivity.
  - intros Hall. unfold encode. destruct sv as [|r0 sv'] eqn:Esv; [eexists; reflexivity|].
    rewrite <- Esv in *.
    destruct (@mapM_total _ _
                (fun r => color_of (scale_min sv) (scale_range sv) (return_on_assets r)) sv)
      as (cs & Hcs).
    { intros r Hin. rewrite (Hcol r Hin). destruct (Hall r Hin) as (c & ->).
      eexists. reflexivity. }
    rewrite Hcs. eexists. reflexivity.
Qed.
End PreparedTables.

(** X10: where a prepared table can make the page fail.  Take a table
    whose entity names are texts, loaded with its period, margin, return
    and turnover columns and passed through [preprocess_data]; let the
    cells hold anything, and select any period and entities.  In every
    arithmetic the detail table is built without an exception, and
    [create_bubble_chart] fails only in the colour loop: an exception it
    raises is the one that [int()] raises on one of the three colour
    channels of a row that passed the filter and the missing-value drop,
    and when [int()] succeeds on the channels of all those rows a result is
    returned.  In binary64 [int()] raises [ValueError] on a NaN and
    [OverflowError] on an infinity, and nothing else; in exact arithmetic
    it never raises on a number. *)
Theorem prepared_table_failures :
  (forall (F : Type) (arith : Arith F) (parse_number : str -> F) (repr_number : F -> str)
          (raw : DataFrame F) (pc rn rr ac : list (cell F)) (p : str) (s : list str),
      wf raw -> report_period raw = Some pc -> npm_raw raw = Some rn ->
      roa_raw raw = Some rr -> asset_turnover raw = Some ac ->
      let df := preprocess_data parse_number repr_number raw in
      exists rs : list (Row F),
        rows_of df = Ok rs
        /\ (exists t, detail_table df p s = Ok t)
        /\ (forall e : exn, create_bubble_chart df p s = Raise e ->
              exists r : Row F,
                In r (surviving p s rs)
                /\ let t := normalized (surviving p s rs) r in
                   fint (fadd (fofZ 0) (fmul (fofZ 255) t)) = Raise e
                   \/ fint (fadd (fofZ 102) (fmul (fofZ (-42)) t)) = Raise e
                   \/ fint (fadd (fofZ 255) (fmul (fofZ (-195)) t)) = Raise e)
        /\ ((forall r : Row F, In r (surviving p s rs) ->
               let t := normalized (surviving p s rs) r in
               exists cr cg cb : Z,
                 fint (fadd (fofZ 0) (fmul (fofZ 255) t)) = Ok cr
                 /\ fint (fadd (fofZ 102) (fmul (fofZ (-42)) t)) = Ok cg
                 /\ fint (fadd (fofZ 255) (fmul (fofZ (-195)) t)) = Ok cb) ->
            exists fig, create_bubble_chart df p s = Ok fig))
  /\ (forall (x : float) (e : exn), fint x = Raise e ->
        (e = ValueError /\ PrimFloat.is_nan x = true)
        \/ (e = OverflowError /\ exists sg, Prim2SF x = S754_infinity sg))
  /\ (forall (x : float), PrimFloat.is_nan x = true -> fint x = Raise ValueError)
  /\ (forall (x : float) (sg : bool), Prim2SF x = S754_infinity sg ->
        fint x = Raise OverflowError)
  /\ (forall q : Q, fint (Rat q) = Ok (Qtrunc q)).
Proof.
  split.
  { intros F arith parse_number repr_number raw pc rn rr ac p s Hwf Hp Hn Hr Ha df.
    destruct (prepared_failures parse_number repr_number p s Hwf Hp Hn Hr Ha)
      as (rs & Hrows & Ht & Hfail & Hok).
    exists rs. split; [exact Hrows|]. split; [exact Ht|]. split.
    - intros e He. destruct (Hfail e He) as (r & Hin & Hc).
      exists r. split; [exact Hin|]. cbv zeta. now apply channels_raise.
    - intros Hall. apply Hok. intros r Hin.
      destruct (Hall r Hin) as (cr & cg & cb & H1 & H2 & H3).
      exists (cr, cg, cb). unfold channels.
      change (fofZ (255 - 0)) with (fofZ 255).
      change (fofZ (60 - 102)) with (fofZ (-42)).
      change (fofZ (60 - 255)) with (fofZ (-195)).
      cbv zeta in H1, H2, H3. rewrite H1, H2, H3. reflexivity. }
  split.
  { intros x e. cbn [fint binary64_arith]. unfold b_int. rewrite is_nan_Prim2SF.
    destruct (Prim2SF x) as [sg|sg| |sg m e']; try discriminate; intros H; inversion H.
    - right. split; [reflexivity|]. now exists sg.
    - left. split; reflexivity. }
  split.
  { intros x. cbn [fint binary64_arith]. unfold b_int. rewrite is_nan_Prim2SF.
    destruct (Prim2SF x); try discriminate. reflexivity. }
  split.
  { intros x sg E. cbn [fint binary64_arith]. unfold b_int. now rewrite E. }
  reflexivity.
Qed.

Lemma prepared_table_failures_witness :
  exists rs : list (Row rational),
    rows_of (preprocess_data parse_digits repr_int mixed_raw) = Ok rs
    /\ (exists t : option (@DetailTable rational),
          detail_table (preprocess_data parse_digits repr_int mixed_raw)
            period_P1 [name_B; name_C] = Ok t)
    /\ forall e : exn,
         create_bubble_chart
           (preprocess_data parse_digits repr_int (mixed_raw (F := rational)))
           period_P1 [name_B; name_C] <> Raise e.
Proof.
  destruct (proj1 prepared_table_failures rational _ parse_digits repr_int mixed_raw
           [Text period_P1; Text period_P1; Text period_P1; Text period_P2; Text period_P1]
           [Text (lit "12"); Num (fofZ 20); Text (lit "--"); Num (fofZ 5); Num (fofZ (-3))]
           [Num (fofZ 4); Num (fofZ 5); Num (fofZ 6); Num (fofZ 7); Num (fofZ (-2))]
           [Num (fofZ 1); Num fnan; Num (fofZ 3); Num (fofZ 2);
            Num (fdiv (fofZ 1) (fofZ 2))]
           period_P1 [name_B; name_C])
    as (rs & Hrows & Ht & Hfail & _); try reflexivity.
  - vm_compute. repeat split; reflexivity.
  - exists rs. split; [exact Hrows|]. split; [exact Ht|].
    intros e He. destruct (Hfail e He) as (r & Hin & _).
    vm_compute in Hrows. inversion Hrows; subst rs. vm_compute in Hin. exact Hin.
Defined.
